(** * Spriteforge: the rasteriser, layer model, interpreter, validator and
    frame-inheritance resolver of [spriteforge.engine], embedded in Rocq.

    Python integers are [Z]; a pixel buffer ([List[int]]) is a [list Z]; the
    layer dictionary is a [gmap string (list Z)] paired with the explicit
    insertion-order list the code keeps; Python floats are IEEE binary64
    values, computed with the specification of [SpecFloat]. *)

From Stdlib Require Import ZArith Lia Bool List String Ascii Sorted.
From Stdlib Require Import SpecFloat.
From stdpp Require Import base option list list_numbers strings pretty gmap.

Local Open Scope string_scope.
Local Open Scope list_scope.
Local Open Scope Z_scope.

(** ** JSON documents, as [json.load] returns them

    A dictionary is the list of its items in insertion order; its keys are
    pairwise distinct, and a lookup takes the first item with the key. *)

#[local] Set Warnings "-register-all".
Inductive json :=
| JNull
| JBool (b : bool)
| JInt (z : Z)
| JFloat (x : spec_float)
| JStr (s : string)
| JList (l : list json)
| JDict (items : list (string * json)).

(** ** Outcomes of running Python code *)

Module Py.

(** The exceptions the engine can raise. The first three are the
    [ValueError]s the engine raises itself, kept with the values their
    messages are formatted from:
    [Unknown op: {name}], [{op} refers to missing layer '{layer}'] and
    [shade_band side unsupported: {side}]. [ValueError] stands for the
    ones Python raises (a bad literal for [int()], too few values to
    unpack, [int()] of a NaN, a math domain error). *)
Inductive exn :=
| UnknownOp (name : json)
| MissingLayer (op layer : string)
| UnsupportedSide (side : string)
| ValueError
| IndexError
| KeyError
| TypeError
| AttributeError
| OverflowError
| ZeroDivisionError.

(** A run that does not return either raises, or leaves the model: a loop
    whose iteration bound was used up, or a library call whose value the
    model does not define (libm's [cos] and [sin], [repr] and parsing of
    floats, [repr] of containers). *)
Inductive fault :=
| Exn (e : exn)
| OutOfFuel
| Unmodelled (what : string).

Inductive outcome (A : Type) :=
| Ok (a : A)
| Fail (f : fault).
Arguments Ok {A} a.
Arguments Fail {A} f.

Definition raise {A} (e : exn) : outcome A := Fail (Exn e).

Definition bind {A B} (c : outcome A) (k : A -> outcome B) : outcome B :=
  match c with
  | Ok a => k a
  | Fail f => Fail f
  end.

(** The run ends in an exception. *)
Definition raises {A} (c : outcome A) : Prop := exists e, c = Fail (Exn e).

End Py.
Export Py.

Declare Scope py_scope.
Delimit Scope py_scope with py.
Notation "'let*' x ':=' c 'in' k" := (Py.bind c (fun x => k))
  (at level 10, x pattern, c at level 100, k at level 200) : py_scope.
Local Open Scope py_scope.

(** [map_m f l] evaluates [f] on the items of [l] from left to right and
    stops at the first fault (a list comprehension, or [map]). *)
Fixpoint map_m {A B} (f : A -> outcome B) (l : list A) : outcome (list B) :=
  match l with
  | [] => Ok []
  | a :: l' => let* b := f a in let* bs := map_m f l' in Ok (b :: bs)
  end.

(** [any_m f l]: the loops of the form
    [for t in l: if f(t): flag = True; break]. *)
Fixpoint any_m {A} (f : A -> outcome bool) (l : list A) : outcome bool :=
  match l with
  | [] => Ok false
  | a :: l' => let* b := f a in if (b : bool) then Ok true else any_m f l'
  end.

(** [fold_m]: a [for] loop over [l] threading a pure state. *)
Fixpoint fold_m {A S} (f : S -> A -> outcome S) (l : list A) (s : S) : outcome S :=
  match l with
  | [] => Ok s
  | a :: l' => let* s' := f s a in fold_m f l' s'
  end.

(** [range(a, b)] *)
Definition range (a b : Z) : list Z := seqZ a (b - a).

(** ** Python floats: IEEE 754 binary64 *)

Module Float.

Definition prec : Z := 53.
Definition emax : Z := 1024.
Definition float := spec_float.

Definition of_Z (z : Z) : float := binary_normalize prec emax z 0 false.
Definition add : float -> float -> float := SFadd prec emax.
Definition sub : float -> float -> float := SFsub prec emax.
Definition mul : float -> float -> float := SFmul prec emax.
Definition fdiv : float -> float -> float := SFdiv prec emax.
Definition fsqrt : float -> float := SFsqrt prec emax.
Definition ltb : float -> float -> bool := SFltb.
Definition leb : float -> float -> bool := SFleb.
Definition eqb : float -> float -> bool := SFeqb.
Definition is_zero (x : float) : bool :=
  match x with S754_zero _ => true | _ => false end.
Definition is_finite (x : float) : bool :=
  match x with S754_zero _ | S754_finite _ _ _ => true | _ => false end.

(** [float(n)] for an integer [n]: correctly rounded, [OverflowError] when
    the integer is too large for a float. *)
Definition of_int (z : Z) : outcome float :=
  match of_Z z with
  | S754_infinity _ => raise OverflowError
  | x => Ok x
  end.

(** [a / b] on integers (true division): the correctly rounded quotient.
    The quotient is taken with enough extra bits, and a sticky bit for the
    remainder, that one rounding to nearest-even gives it. *)
Definition int_truediv (a b : Z) : outcome float :=
  if b =? 0 then raise ZeroDivisionError
  else
    let k := Z.max 0 (Z.log2 (Z.abs b) - Z.log2 (Z.abs a) + 64) in
    let num := Z.abs a * 2 ^ k in
    let q := num / Z.abs b in
    let sticky := if num mod Z.abs b =? 0 then 0 else 1 in
    let m := 2 * q + sticky in
    let sgn := if Z.ltb a 0 then negb (Z.ltb b 0) else Z.ltb b 0 in
    match binary_normalize prec emax (if sgn then - m else m) (- k - 1) sgn with
    | S754_infinity _ => raise OverflowError
    | x => Ok x
    end.

(** [x / y] on floats. *)
Definition truediv (x y : float) : outcome float :=
  if is_zero y then raise ZeroDivisionError else Ok (fdiv x y).

(** [math.sqrt(x)] *)
Definition math_sqrt (x : float) : outcome float :=
  match x with
  | S754_finite true _ _ | S754_infinity true => raise ValueError
  | _ => Ok (fsqrt x)
  end.

(** The integer part and the position of the discarded fraction of a
    finite float [m * 2^e]: [(q, r, d)] with [m * 2^e = q + r / d],
    [0 <= r < d]. *)
Definition split_pos (m : positive) (e : Z) : Z * Z * Z :=
  if 0 <=? e then (Z.pos m * 2 ^ e, 0, 1)
  else (Z.pos m / 2 ^ (- e), Z.pos m mod 2 ^ (- e), 2 ^ (- e)).

Definition signed (s : bool) (z : Z) : Z := if s then - z else z.

Definition not_finite {A} (x : float) : outcome A :=
  match x with
  | S754_nan => raise ValueError
  | _ => raise OverflowError
  end.

(** [int(x)]: truncation towards zero. *)
Definition to_int (x : float) : outcome Z :=
  match x with
  | S754_zero _ => Ok 0
  | S754_finite s m e => let '(q, _, _) := split_pos m e in Ok (signed s q)
  | _ => not_finite x
  end.

(** [math.floor(x)] *)
Definition floor (x : float) : outcome Z :=
  match x with
  | S754_zero _ => Ok 0
  | S754_finite s m e =>
      let '(q, r, _) := split_pos m e in
      Ok (if s then (if r =? 0 then - q else - q - 1) else q)
  | _ => not_finite x
  end.

(** [math.ceil(x)] *)
Definition ceil (x : float) : outcome Z :=
  match x with
  | S754_zero _ => Ok 0
  | S754_finite s m e =>
      let '(q, r, _) := split_pos m e in
      Ok (if s then - q else (if r =? 0 then q else q + 1))
  | _ => not_finite x
  end.

(** [round(x)] with one argument: to the nearest integer, ties to the even
    one (Python 3). *)
Definition round (x : float) : outcome Z :=
  match x with
  | S754_zero _ => Ok 0
  | S754_finite s m e =>
      let '(q, r, d) := split_pos m e in
      let up := match 2 * r ?= d with
                | Lt => false
                | Gt => true
                | Eq => Z.odd q
                end in
      Ok (signed s (if up then q + 1 else q))
  | _ => not_finite x
  end.

(** Exact comparison of a float with an integer, as Python compares them
    ([None] for NaN). *)
Definition compare_int (x : float) (z : Z) : option comparison :=
  match x with
  | S754_nan => None
  | S754_infinity s => Some (if s then Lt else Gt)
  | S754_zero _ => Some (0 ?= z)
  | S754_finite s m e =>
      let v := signed s (Z.pos m) in
      Some (if 0 <=? e then (v * 2 ^ e ?= z) else (v ?= z * 2 ^ (- e)))
  end.
Definition lt_int (x : float) (z : Z) : bool :=
  match compare_int x z with Some Lt => true | _ => false end.
Definition le_int (x : float) (z : Z) : bool :=
  match compare_int x z with Some Lt | Some Eq => true | _ => false end.
Definition gt_int (x : float) (z : Z) : bool :=
  match compare_int x z with Some Gt => true | _ => false end.
Definition ge_int (x : float) (z : Z) : bool :=
  match compare_int x z with Some Gt | Some Eq => true | _ => false end.

(** Mixed arithmetic: the integer operand is converted first. *)
Definition int_mul (z : Z) (x : float) : outcome float :=
  let* y := of_int z in Ok (mul y x).
Definition mul_int (x : float) (z : Z) : outcome float :=
  let* y := of_int z in Ok (mul x y).
Definition int_add (z : Z) (x : float) : outcome float :=
  let* y := of_int z in Ok (add y x).
Definition add_int (x : float) (z : Z) : outcome float :=
  let* y := of_int z in Ok (add x y).
Definition int_sub (z : Z) (x : float) : outcome float :=
  let* y := of_int z in Ok (sub y x).
Definition sub_int (x : float) (z : Z) : outcome float :=
  let* y := of_int z in Ok (sub x y).

Definition one : float := of_Z 1.
(** The literals [0.5] and [0.25]. *)
Definition half : float := S754_finite false 4503599627370496 (-53).
Definition quarter : float := S754_finite false 4503599627370496 (-54).

End Float.

Abbreviation float := Float.float.

(** ** Python's built-ins on the values of a document *)

Module PyVal.

(** [lst[i]] on a list: a negative index counts from the end. *)
Definition index {A} (l : list A) (i : Z) : option nat :=
  let n := Z.of_nat (length l) in
  if (0 <=? i) && (i <? n) then Some (Z.to_nat i)
  else if (- n <=? i) && (i <? 0) then Some (Z.to_nat (n + i))
  else None.

Definition get {A} (l : list A) (i : Z) : outcome A :=
  match index l i with
  | Some k => match l !! k with Some a => Ok a | None => raise IndexError end
  | None => raise IndexError
  end.

(** [lst[i] = v] *)
Definition set {A} (l : list A) (i : Z) (v : A) : outcome (list A) :=
  match index l i with
  | Some k => Ok (<[k := v]> l)
  | None => raise IndexError
  end.

(** [lst[a:b]] for [0 <= a <= b]. *)
Definition slice {A} (l : list A) (a b : nat) : list A := take (b - a) (drop a l).

Fixpoint chars (s : string) : list string :=
  match s with
  | EmptyString => []
  | String c s' => String c EmptyString :: chars s'
  end.

Fixpoint lookup_key (k : string) (items : list (string * json)) : option json :=
  match items with
  | [] => None
  | (k', v) :: items' => if String.eqb k k' then Some v else lookup_key k items'
  end.

Definition json_eqb (a b : json) : bool :=
  match a, b with
  | JStr s, JStr t => String.eqb s t
  | _, _ => false
  end.

Fixpoint is_substring (needle hay : string) : bool :=
  if String.prefix needle hay then true
  else match hay with
       | EmptyString => false
       | String _ hay' => is_substring needle hay'
       end.

(** [key in container] for a string [key]: a key of a dictionary, an item
    of a list, a substring of a string. *)
Definition contains (key : string) (container : json) : outcome bool :=
  match container with
  | JDict items => Ok (bool_decide (is_Some (lookup_key key items)))
  | JList l => Ok (existsb (json_eqb (JStr key)) l)
  | JStr s => Ok (is_substring key s)
  | _ => raise TypeError
  end.

(** [container[key]] for a string [key]. *)
Definition getitem (container : json) (key : string) : outcome json :=
  match container with
  | JDict items =>
      match lookup_key key items with
      | Some v => Ok v
      | None => raise KeyError
      end
  | _ => raise TypeError
  end.

(** [container.get(key)], [None] when the key is absent. *)
Definition dict_get (container : json) (key : string) : outcome (option json) :=
  match container with
  | JDict items => Ok (lookup_key key items)
  | _ => raise AttributeError
  end.

(** [container[i]] for an integer [i]. *)
Definition item (container : json) (i : Z) : outcome json :=
  match container with
  | JList l => get l i
  | JStr s => let* c := get (chars s) i in Ok (JStr c)
  | JDict _ => raise KeyError
  | _ => raise TypeError
  end.

(** [len(v)] *)
Definition len (v : json) : outcome Z :=
  match v with
  | JList l => Ok (Z.of_nat (length l))
  | JStr s => Ok (Z.of_nat (String.length s))
  | JDict items => Ok (Z.of_nat (length items))
  | _ => raise TypeError
  end.

(** The items [for x in v] visits. *)
Definition iter (v : json) : outcome (list json) :=
  match v with
  | JList l => Ok l
  | JStr s => Ok (JStr <$> chars s)
  | JDict items => Ok ((fun kv => JStr (fst kv)) <$> items)
  | _ => raise TypeError
  end.

(** The items of [v[a:b]], for [0 <= a <= b]. *)
Definition slice_items (v : json) (a b : nat) : outcome (list json) :=
  match v with
  | JList l => Ok (slice l a b)
  | JStr s => Ok (JStr <$> slice (chars s) a b)
  | _ => raise TypeError
  end.

(** [isinstance(v, int)]: a [bool] is an [int]. *)
Definition is_int (v : json) : bool :=
  match v with JInt _ | JBool _ => true | _ => false end.
Definition is_str (v : json) : bool :=
  match v with JStr _ => true | _ => false end.
Definition is_list (v : json) : bool :=
  match v with JList _ => true | _ => false end.

(** The integer an [int] (or [bool]) value stands for. *)
Definition int_value (v : json) : option Z :=
  match v with
  | JInt z => Some z
  | JBool b => Some (if b then 1 else 0)
  | _ => None
  end.

Definition is_space (c : ascii) : bool :=
  let n := nat_of_ascii c in
  ((9 <=? n) && (n <=? 13))%nat || (n =? 32)%nat || ((28 <=? n) && (n <=? 31))%nat.

Definition digit (c : ascii) : option Z :=
  let n := nat_of_ascii c in
  if ((48 <=? n) && (n <=? 57))%nat then Some (Z.of_nat n - 48) else None.

Fixpoint lstrip (s : list ascii) : list ascii :=
  match s with
  | c :: s' => if is_space c then lstrip s' else s
  | [] => []
  end.
Definition strip (s : list ascii) : list ascii := rev (lstrip (rev (lstrip s))).

(** Decimal digits, single underscores allowed between two digits;
    [after_digit] says whether the previous character was a digit. *)
Fixpoint digits (s : list ascii) (acc : Z) (after_digit : bool) : option Z :=
  match s with
  | [] => if after_digit then Some acc else None
  | c :: s' =>
      match digit c with
      | Some d => digits s' (10 * acc + d) true
      | None =>
          if (Ascii.eqb c "_"%char) && after_digit
          then match s' with
               | c' :: _ =>
                   match digit c' with
                   | Some _ => digits s' acc false
                   | None => None
                   end
               | [] => None
               end
          else None
      end
  end.

(** [int(s)] for a string of ASCII characters (base 10). *)
Definition int_of_string (s : string) : outcome Z :=
  let body := strip (list_ascii_of_string s) in
  let '(neg, ds) :=
    match body with
    | c :: rest =>
        if Ascii.eqb c "-"%char then (true, rest)
        else if Ascii.eqb c "+"%char then (false, rest)
        else (false, body)
    | [] => (false, [])
    end in
  match digits ds 0 false with
  | Some z => Ok (if neg then - z else z)
  | None => raise ValueError
  end.

(** [int(v)] *)
Definition int (v : json) : outcome Z :=
  match v with
  | JInt z => Ok z
  | JBool b => Ok (if b then 1 else 0)
  | JFloat x => Float.to_int x
  | JStr s => int_of_string s
  | _ => raise TypeError
  end.

(** [str(v)]; the [repr] of a float or of a container is outside the
    model. *)
Definition str (v : json) : outcome string :=
  match v with
  | JStr s => Ok s
  | JInt z => Ok (pretty z)
  | JBool b => Ok (if b then "True" else "False")
  | JNull => Ok "None"
  | JFloat _ => Fail (Unmodelled "repr of a float")
  | JList _ | JDict _ => Fail (Unmodelled "repr of a container")
  end.

(** [float(v)]; parsing a float from a string is outside the model. *)
Definition float (v : json) : outcome Float.float :=
  match v with
  | JInt z => Float.of_int z
  | JBool b => Ok (Float.of_Z (if b then 1 else 0))
  | JFloat x => Ok x
  | JStr _ => Fail (Unmodelled "float of a string")
  | _ => raise TypeError
  end.

Fixpoint split_on (sep : ascii) (s : list ascii) (cur : list ascii) : list string :=
  match s with
  | [] => [string_of_list_ascii (rev cur)]
  | c :: s' =>
      if Ascii.eqb c sep then string_of_list_ascii (rev cur) :: split_on sep s' []
      else split_on sep s' (c :: cur)
  end.
(** [s.split(",")] *)
Definition split_comma (s : string) : list string :=
  split_on ","%char (list_ascii_of_string s) [].

Definition lower_ascii (c : ascii) : ascii :=
  let n := nat_of_ascii c in
  if ((65 <=? n) && (n <=? 90))%nat then ascii_of_nat (n + 32) else c.
(** [s.lower()] on ASCII characters. *)
Fixpoint lower (s : string) : string :=
  match s with
  | EmptyString => EmptyString
  | String c s' => String (lower_ascii c) (lower s')
  end.

(** [a, b, ... = map(int, op[lo:hi])]: the items are converted in turn,
    and unpacking fails when there are fewer than [hi - lo]. *)
Definition ints (op : json) (lo hi : nat) : outcome (list Z) :=
  let* items := slice_items op lo hi in
  let* zs := map_m int items in
  if (length zs =? hi - lo)%nat then Ok zs else raise ValueError.

End PyVal.

(** ** The buffer a primitive draws into

    A primitive receives its destination [buf] by reference and mutates it
    in place. A run is a function of the buffer's cells; next to them the
    state keeps the index of every element assignment [buf[i] = v] the run
    performed, most recent first. *)

Module Buf.

Record mem := Mem { cells : list Z; writes : list Z }.

Definition M (A : Type) : Type := mem -> outcome A * mem.

Definition ret {A} (a : A) : M A := fun m => (Ok a, m).
Definition bind {A B} (c : M A) (k : A -> M B) : M B :=
  fun m => match c m with
           | (Ok a, m') => k a m'
           | (Fail f, m') => (Fail f, m')
           end.
Definition lift {A} (c : outcome A) : M A := fun m => (c, m).

(** [buf[i]] *)
Definition load (i : Z) : M Z := fun m => (PyVal.get (cells m) i, m).

(** [buf[i] = v] *)
Definition store (i v : Z) : M unit :=
  fun m =>
    match PyVal.set (cells m) i v with
    | Ok l => (Ok tt, Mem l (i :: writes m))
    | Fail f => (Fail f, Mem (cells m) (i :: writes m))
    end.

(** [buf[:]], and [len(buf)] *)
Definition snapshot : M (list Z) := fun m => (Ok (cells m), m).
Definition size : M Z := fun m => (Ok (Z.of_nat (length (cells m))), m).

(** Running a primitive on a buffer: the outcome and the cells it leaves. *)
Definition run {A} (c : M A) (buf : list Z) : outcome A * list Z :=
  let '(r, m) := c (Mem buf []) in (r, cells m).
(** The cells when the primitive returned. *)
Definition exec {A} (c : M A) (buf : list Z) : outcome (list Z) :=
  match c (Mem buf []) with
  | (Ok _, m) => Ok (cells m)
  | (Fail f, _) => Fail f
  end.
(** The indices the primitive assigned to, oldest first. *)
Definition trace {A} (c : M A) (buf : list Z) : list Z :=
  rev (writes (snd (c (Mem buf [])))).

End Buf.
Import Buf.

Notation "'let!' x ':=' c 'in' k" := (Buf.bind c (fun x => k))
  (at level 10, x pattern, c at level 100, k at level 200) : py_scope.
Notation "c1 ';;;' c2" := (Buf.bind c1 (fun _ => c2))
  (at level 100, c2 at level 200, right associativity) : py_scope.

Definition skip : M unit := ret tt.

(** [for a in l: body(a)] *)
Fixpoint for_each {A} (l : list A) (body : A -> M unit) : M unit :=
  match l with
  | [] => skip
  | a :: l' => body a ;;; for_each l' body
  end.

(** A [for] loop that also threads local variables [s]. *)
Fixpoint fold_M {A S} (l : list A) (body : S -> A -> M S) (s : S) : M S :=
  match l with
  | [] => ret s
  | a :: l' => let! s' := body s a in fold_M l' body s'
  end.

(** A mask argument: the destination buffer itself (the interpreter passes
    the same list object when the mask layer is the current layer), or
    another list. *)
Inductive maskref :=
| SameAsDest
| Other (l : list Z).

Definition mask_get (mk : maskref) (i : Z) : M Z :=
  match mk with
  | SameAsDest => load i
  | Other l => lift (PyVal.get l i)
  end.
Definition mask_cells (mk : maskref) : M (list Z) :=
  match mk with
  | SameAsDest => snapshot
  | Other l => ret l
  end.

(** ** raster.py: the drawing primitives *)

Module Raster.

Definition in_bounds (x y w h : Z) : bool :=
  (0 <=? x) && (x <? w) && (0 <=? y) && (y <? h).

(** [if in_bounds(x, y, w, h): buf[y * w + x] = color] *)
Definition plot (w h color x y : Z) : M unit :=
  if in_bounds x y w h then store (y * w + x) color else skip.

(** The [while True] loop of [draw_line]; [n] bounds its iterations. *)
Fixpoint draw_line_loop (n : nat) (w h color x1 y1 dx dy sx sy err x y : Z) : M unit :=
  match n with
  | O => lift (Fail OutOfFuel)
  | S n' =>
      plot w h color x y ;;;
      if (x =? x1) && (y =? y1) then skip
      else
        let e2 := 2 * err in
        let '(err, x) := if e2 >=? dy then (err + dy, x + sx) else (err, x) in
        let '(err, y) := if e2 <=? dx then (err + dx, y + sy) else (err, y) in
        draw_line_loop n' w h color x1 y1 dx dy sx sy err x y
  end.

Definition draw_line (w h color x0 y0 x1 y1 : Z) : M unit :=
  let dx := Z.abs (x1 - x0) in
  let dy := - Z.abs (y1 - y0) in
  let sx := if x0 <? x1 then 1 else -1 in
  let sy := if y0 <? y1 then 1 else -1 in
  let err := dx + dy in
  draw_line_loop (S (Z.to_nat (dx - dy))) w h color x1 y1 dx dy sx sy err x0 y0.

Definition ellipse_fill (w h color cx cy rx ry : Z) : M unit :=
  if (rx <=? 0) || (ry <=? 0) then
    (if (rx =? 0) && (ry =? 0) then plot w h color cx cy else skip)
  else
    for_each (range (cy - ry) (cy + ry + 1)) (fun yy =>
      if negb ((0 <=? yy) && (yy <? h)) then skip
      else
        let! dy := lift (Float.int_truediv (yy - cy) ry) in
        let inside := Float.sub Float.one (Float.mul dy dy) in
        if Float.lt_int inside 0 then skip
        else
          let! span := lift (let* r := Float.math_sqrt inside in
                             let* p := Float.int_mul rx r in
                             Float.floor p) in
          let x0 := cx - span in
          let x1 := cx + span in
          let row := yy * w in
          for_each (range x0 (x1 + 1)) (fun xx =>
            if (0 <=? xx) && (xx <? w) then store (row + xx) color else skip)).

(** The centres [draw_thick_line] stamps a circle at, for a segment of
    non-zero length: [steps = int(dist * 2)] and one sample for each [i]
    of [range(steps + 1)]. *)
Definition thick_line_steps (x0 y0 x1 y1 : Z) : outcome Z :=
  let dx := x1 - x0 in
  let dy := y1 - y0 in
  let* d2 := Float.of_int (dx * dx + dy * dy) in
  let* dist := Float.math_sqrt d2 in
  let* twice := Float.mul_int dist 2 in
  Float.to_int twice.

Definition thick_line_sample (x0 y0 x1 y1 steps i : Z) : outcome (Z * Z) :=
  let dx := x1 - x0 in
  let dy := y1 - y0 in
  let* t := Float.int_truediv i steps in
  let* tdx := Float.mul_int t dx in
  let* tx := Float.int_add x0 tdx in
  let* tdy := Float.mul_int t dy in
  let* ty := Float.int_add y0 tdy in
  let* ix := Float.round tx in
  let* iy := Float.round ty in
  Ok (ix, iy).

Definition draw_thick_line (w h color x0 y0 x1 y1 thickness : Z) : M unit :=
  if thickness <=? 1 then draw_line w h color x0 y0 x1 y1
  else
    let dx := x1 - x0 in
    let dy := y1 - y0 in
    let! dist := lift (let* d2 := Float.of_int (dx * dx + dy * dy) in
                       Float.math_sqrt d2) in
    if Float.is_zero dist then
      ellipse_fill w h color x0 y0 (thickness / 2) (thickness / 2)
    else
      let! steps := lift (let* twice := Float.mul_int dist 2 in Float.to_int twice) in
      for_each (range 0 (steps + 1)) (fun i =>
        let! (ix, iy) := lift (thick_line_sample x0 y0 x1 y1 steps i) in
        ellipse_fill w h color ix iy (thickness / 2) (thickness / 2)).

Definition capsule_fill (w h color x0 y0 x1 y1 r : Z) : M unit :=
  draw_thick_line w h color x0 y0 x1 y1 (r * 2).

Definition rect_stroke (w h color x y rw rh : Z) : M unit :=
  for_each (range 0 rw) (fun i =>
    plot w h color (x + i) y ;;;
    plot w h color (x + i) (y + rh - 1)) ;;;
  for_each (range 0 rh) (fun j =>
    plot w h color x (y + j) ;;;
    plot w h color (x + rw - 1) (y + j)).

Definition rect_fill (w h color x y rw rh : Z) : M unit :=
  for_each (range y (y + rh)) (fun yy =>
    if (0 <=? yy) && (yy <? h) then
      let row := yy * w in
      for_each (range x (x + rw)) (fun xx =>
        if (0 <=? xx) && (xx <? w) then store (row + xx) color else skip)
    else skip).

(** The nested [plot] of [ellipse_stroke]: the four symmetric points. *)
Definition plot4 (w h color cx cy px py : Z) : M unit :=
  for_each [(cx + px, cy + py); (cx - px, cy + py); (cx + px, cy - py); (cx - px, cy - py)]
    (fun '(sx, sy) => plot w h color sx sy).

(** [while px < py] of [ellipse_stroke]; it returns [(x, y, px, py)]. *)
Fixpoint stroke_region1 (n : nat) (w h color cx cy ry2 two_rx2 two_ry2 x y px py p : Z)
  : M (Z * Z * Z * Z) :=
  match n with
  | O => lift (Fail OutOfFuel)
  | S n' =>
      if px <? py then
        let x := x + 1 in
        let px := px + two_ry2 in
        let '(y, py, p) :=
          if p <? 0 then (y, py, p + ry2 + px)
          else (y - 1, py - two_rx2, p + ry2 + px - (py - two_rx2)) in
        plot4 w h color cx cy x y ;;;
        stroke_region1 n' w h color cx cy ry2 two_rx2 two_ry2 x y px py p
      else ret (x, y, px, py)
  end.

(** [while y > 0] of [ellipse_stroke]. *)
Fixpoint stroke_region2 (n : nat) (w h color cx cy rx2 two_rx2 two_ry2 x y px py p : Z)
  : M unit :=
  match n with
  | O => lift (Fail OutOfFuel)
  | S n' =>
      if y >? 0 then
        let y := y - 1 in
        let py := py - two_rx2 in
        let '(x, px, p) :=
          if p >? 0 then (x, px, p + rx2 - py)
          else (x + 1, px + two_ry2, p + rx2 - py + (px + two_ry2)) in
        plot4 w h color cx cy x y ;;;
        stroke_region2 n' w h color cx cy rx2 two_rx2 two_ry2 x y px py p
      else skip
  end.

Definition ellipse_stroke (w h color cx cy rx ry : Z) : M unit :=
  if (rx <=? 0) || (ry <=? 0) then skip
  else
    let x := 0 in
    let y := ry in
    let rx2 := rx * rx in
    let ry2 := ry * ry in
    let two_rx2 := 2 * rx2 in
    let two_ry2 := 2 * ry2 in
    let px := 0 in
    let py := two_rx2 * y in
    plot4 w h color cx cy x y ;;;
    let! p := lift (let* q := Float.mul_int Float.quarter rx2 in
                    let* s := Float.int_add (ry2 - rx2 * ry) q in
                    Float.round s) in
    let! (x, y, px, py) :=
      stroke_region1 (S (Z.to_nat (rx2 * ry))) w h color cx cy ry2 two_rx2 two_ry2 x y px py p in
    let! p := lift (let* xh := Float.int_add x Float.half in
                    let* a := Float.int_mul ry2 xh in
                    let* s := Float.add_int (Float.mul a xh) (rx2 * (y - 1) * (y - 1)) in
                    let* d := Float.sub_int s (rx2 * ry2) in
                    Float.round d) in
    stroke_region2 (S (Z.to_nat y)) w h color cx cy rx2 two_rx2 two_ry2 x y px py p.

Definition gradient_radial (w h : Z) (palette_indices : list Z) (cx cy r : Z) : M unit :=
  if bool_decide (palette_indices = []) || (r <=? 0) then skip
  else
    for_each (range (cy - r) (cy + r + 1)) (fun yy =>
      for_each (range (cx - r) (cx + r + 1)) (fun xx =>
        if in_bounds xx yy w h then
          let! dist := lift (let* d2 := Float.of_int ((xx - cx) ^ 2 + (yy - cy) ^ 2) in
                             Float.math_sqrt d2) in
          if Float.le_int dist r then
            let! v := lift (let* rf := Float.of_int r in
                            let* t := Float.truediv dist rf in
                            let* s := Float.mul_int t (Z.of_nat (length palette_indices) - 1) in
                            let* idx := Float.to_int s in
                            PyVal.get palette_indices idx) in
            store (yy * w + xx) v
          else skip
        else skip)).

(** [int(t * (n - 1))] after [t = max(0, min(1, t))]: [min] keeps the
    integer [1] unless [t < 1], [max] keeps the integer [0] unless the
    result of [min] is above it. *)
Definition clamped_index (t : Float.float) (n : Z) : outcome Z :=
  if Float.lt_int t 1 then
    if Float.gt_int t 0 then
      let* s := Float.mul_int t (n - 1) in Float.to_int s
    else Ok (0 * (n - 1))
  else Ok (1 * (n - 1)).

Definition gradient_linear (w h : Z) (palette_indices : list Z) (x0 y0 x1 y1 : Z) : M unit :=
  if bool_decide (palette_indices = []) then skip
  else
    let dx := x1 - x0 in
    let dy := y1 - y0 in
    let len_sq := dx * dx + dy * dy in
    if len_sq =? 0 then skip
    else
      for_each (range 0 h) (fun y =>
        for_each (range 0 w) (fun x =>
          let! v := lift (let* t := Float.int_truediv ((x - x0) * dx + (y - y0) * dy) len_sq in
                          let* idx := clamped_index t (Z.of_nat (length palette_indices)) in
                          PyVal.get palette_indices idx) in
          store (y * w + x) v)).

(** [if mask_layer and mask_layer[i] == 0]: a missing or empty mask never
    skips. *)
Definition mask_skips (mask_layer : option maskref) (i : Z) : M bool :=
  match mask_layer with
  | None => ret false
  | Some mk =>
      let! l := mask_cells mk in
      if bool_decide (l = []) then ret false
      else let! v := mask_get mk i in ret (v =? 0)
  end.

Definition color_replace (w h old_c new_c : Z) (mask_layer : option maskref) : M unit :=
  for_each (range 0 (w * h)) (fun i =>
    let! skipped := mask_skips mask_layer i in
    if (skipped : bool) then skip
    else
      let! v := load i in
      if v =? old_c then store i new_c else skip).

Definition mask_layer_fn (mask : maskref) : M unit :=
  let! n := size in
  for_each (range 0 n) (fun i =>
    let! v := mask_get mask i in
    if v =? 0 then store i 0 else skip).

(** One pass of the dilation: the indices of the pixels that are zero in
    [work] and have a non-zero 4-neighbour inside the canvas. *)
Definition touches (work : list Z) (w h x y : Z) : outcome bool :=
  any_m (fun '(dx, dy) =>
           let nx := x + dx in
           let ny := y + dy in
           if (0 <=? nx) && (nx <? w) && (0 <=? ny) && (ny <? h) then
             let* v := PyVal.get work (ny * w + nx) in Ok (negb (v =? 0))
           else Ok false)
        [(1, 0); (-1, 0); (0, 1); (0, -1)].

Definition dilation_pass (work : list Z) (w h : Z) : outcome (list Z) :=
  fold_m (fun add y =>
    fold_m (fun add x =>
      let idx := y * w + x in
      let* v := PyVal.get work idx in
      if negb (v =? 0) then Ok add
      else
        let* touch := touches work w h x y in
        if (touch : bool) then Ok (add ++ [idx])%list else Ok add)
      (range 0 w) add)
    (range 0 h) [].

(** The loop [for _ in range(thickness)] shared by [outline_layer] and
    [outline_from_mask]. *)
Definition dilate (work : list Z) (w h color thickness : Z) : M unit :=
  let! _ := fold_M (range 0 thickness) (fun work _ =>
    let! add := lift (dilation_pass work w h) in
    fold_M add (fun work idx =>
      store idx color ;;;
      lift (PyVal.set work idx 1)) work) work in
  skip.

Definition outline_layer (w h thickness color : Z) : M unit :=
  let! buf := snapshot in
  let mask := (fun v => if negb (v =? 0) then 1 else 0) <$> buf in
  let work := mask in
  dilate work w h color thickness.

(** [t ** 2] on a float is libm's [pow(t, 2.0)]; the model takes the
    correctly rounded square. *)
Definition pow2 (t : Float.float) : Float.float := Float.mul t t.

(** [(1 - t) ** 2 * a + 2 * (1 - t) * t * c + t ** 2 * b] *)
Definition bezier_coord (t : Float.float) (a c b : Z) : outcome Float.float :=
  let* u := Float.int_sub 1 t in
  let* term1 := Float.mul_int (pow2 u) a in
  let* u' := Float.int_sub 1 t in
  let* two_u := Float.int_mul 2 u' in
  let* term2 := Float.mul_int (Float.mul two_u t) c in
  let* term3 := Float.mul_int (pow2 t) b in
  Ok (Float.add (Float.add term1 term2) term3).

Definition draw_bezier (w h color x0 y0 cx cy x1 y1 : Z) : M unit :=
  let steps :=
    Z.max (Z.max (Z.max (Z.max (Z.abs (x0 - x1)) (Z.abs (y0 - y1))) (Z.abs (x0 - cx)))
                 (Z.abs (y0 - cy))) 10 * 2 in
  for_each (range 0 (steps + 1)) (fun i =>
    let! (ix, iy) := lift (let* t := Float.int_truediv i steps in
                            let* tx := bezier_coord t x0 cx x1 in
                            let* ty := bezier_coord t y0 cy y1 in
                            let* ix := Float.round tx in
                            let* iy := Float.round ty in
                            Ok (ix, iy)) in
    plot w h color ix iy).

Definition dither_rect (w h color x y rw rh : Z) (pattern : string) : M unit :=
  for_each (range y (y + rh)) (fun yy =>
    if (0 <=? yy) && (yy <? h) then
      let row := yy * w in
      for_each (range x (x + rw)) (fun xx =>
        if (0 <=? xx) && (xx <? w) then
          if String.eqb pattern "checker" then
            (if (xx + yy) mod 2 =? 0 then store (row + xx) color else skip)
          else if String.eqb pattern "dots" then
            (if (xx mod 2 =? 0) && (yy mod 2 =? 0) then store (row + xx) color else skip)
          else skip
        else skip)
    else skip).

(** [min(...)] and [max(...)] over floats: the first item, replaced by a
    later one only when that one compares strictly below (above). *)
Definition float_min (x : Float.float) (l : list Float.float) : Float.float :=
  fold_left (fun m y => if Float.ltb y m then y else m) l x.
Definition float_max (x : Float.float) (l : list Float.float) : Float.float :=
  fold_left (fun m y => if Float.ltb m y then y else m) l x.

(** [nodes.sort()]: a stable sort by [<]. *)
Fixpoint insert_sorted (x : Float.float) (l : list Float.float) : list Float.float :=
  match l with
  | [] => [x]
  | y :: l' => if Float.ltb x y then x :: l else y :: insert_sorted x l'
  end.
Definition sort_floats (l : list Float.float) : list Float.float :=
  fold_left (fun acc x => insert_sorted x acc) l [].

(** The crossings of scanline [y] with the polygon's edges; [pj] is the
    vertex before [pi], the last one for the first. *)
Fixpoint crossings (y : Z) (pj : Float.float * Float.float)
    (points : list (Float.float * Float.float)) : outcome (list Float.float) :=
  match points with
  | [] => Ok []
  | pi :: rest =>
      let* here :=
        if (Float.lt_int pi.2 y && Float.ge_int pj.2 y)
           || (Float.lt_int pj.2 y && Float.ge_int pi.2 y) then
          if negb (Float.eqb pj.2 pi.2) then
            let* dy := Float.int_sub y pi.2 in
            let* q := Float.truediv dy (Float.sub pj.2 pi.2) in
            Ok [Float.add pi.1 (Float.mul q (Float.sub pj.1 pi.1))]
          else Ok []
        else Ok [] in
      let* more := crossings y pi rest in
      Ok (here ++ more)%list
  end.

(** [for i in range(0, len(nodes), 2)]: the crossings taken in pairs. *)
Fixpoint fill_pairs (w color y : Z) (nodes : list Float.float) : M unit :=
  match nodes with
  | a :: b :: rest =>
      let! x0 := lift (Float.ceil a) in
      let! x1 := lift (Float.floor b) in
      for_each (range x0 (x1 + 1)) (fun x =>
        if (0 <=? x) && (x <? w) then store (y * w + x) color else skip) ;;;
      fill_pairs w color y rest
  | _ => skip
  end.

Definition draw_poly (w h color : Z) (points : list (Float.float * Float.float)) : M unit :=
  match points with
  | [] => skip
  | p0 :: ps =>
      let! min_y := lift (Float.to_int (float_min p0.2 (snd <$> ps))) in
      let! max_y := lift (Float.to_int (float_max p0.2 (snd <$> ps))) in
      for_each (range min_y (max_y + 1)) (fun y =>
        if negb ((0 <=? y) && (y <? h)) then skip
        else
          let! nodes := lift (crossings y (List.last points p0) points) in
          fill_pairs w color y (sort_floats nodes))
  end.

(** The [while q] loop of [flood_fill]; [n] bounds its iterations. *)
Fixpoint flood_loop (n : nat) (w h color target : Z) (q : list (Z * Z)) : M unit :=
  match n with
  | O => lift (Fail OutOfFuel)
  | S n' =>
      match q with
      | [] => skip
      | (x, y) :: q' =>
          if negb (in_bounds x y w h) then flood_loop n' w h color target q'
          else
            let idx := y * w + x in
            let! v := load idx in
            if negb (v =? target) then flood_loop n' w h color target q'
            else
              store idx color ;;;
              flood_loop n' w h color target
                (q' ++ [(x + 1, y); (x - 1, y); (x, y + 1); (x, y - 1)])%list
      end
  end.

Definition flood_fill (w h color sx sy : Z) : M unit :=
  if negb (in_bounds sx sy w h) then skip
  else
    let! target := load (sy * w + sx) in
    if target =? color then skip
    else flood_loop (S (S (Z.to_nat (4 * (w * h))))) w h color target [(sx, sy)].

End Raster.

(** ** layers.py: the layer model and the masked effects *)

Module Layers.

(** [[c] * (w * h)] *)
Definition filled (c w h : Z) : list Z := replicate (Z.to_nat (w * h)) c.

(** [enumerate(l)] *)
Definition enumerate (l : list Z) : list (Z * Z) :=
  zip (seqZ 0 (Z.of_nat (length l))) l.

Definition merge_layers (layers : gmap string (list Z)) (layer_order : list string)
    (w h : Z) : outcome (list Z) :=
  fold_m (fun out lname =>
            match layers !! lname with
            | None => Ok out
            | Some src =>
                fold_m (fun out '(i, v) =>
                          if negb (v =? 0) then PyVal.set out i v else Ok out)
                       (enumerate src) out
            end)
         layer_order (filled 0 w h).

(** [ensure_layer] returns the dictionary and the order list as it leaves
    them, and the layer's buffer. *)
Definition ensure_layer (layers : gmap string (list Z)) (layer_order : list string)
    (name : string) (w h : Z) : gmap string (list Z) * list string * list Z :=
  match layers !! name with
  | Some buf => (layers, layer_order, buf)
  | None =>
      (<[name := filled 0 w h]> layers, (layer_order ++ [name])%list, filled 0 w h)
  end.

Definition inset_fill_on_mask (mask : list Z) (w h color x y rw rh inset : Z) : M unit :=
  let x0 := x + inset in
  let y0 := y + inset in
  let x1 := x + rw - inset - 1 in
  let y1 := y + rh - inset - 1 in
  for_each (range y0 (y1 + 1)) (fun yy =>
    if (0 <=? yy) && (yy <? h) then
      let row := yy * w in
      for_each (range x0 (x1 + 1)) (fun xx =>
        if (0 <=? xx) && (xx <? w) then
          let idx := row + xx in
          let! v := lift (PyVal.get mask idx) in
          if negb (v =? 0) then store idx color else skip
        else skip)
    else skip).

Definition outline_from_mask (mask : list Z) (w h outline_color thickness : Z) : M unit :=
  let work := mask in
  Raster.dilate work w h outline_color thickness.

(** The look-ahead loops of [shade_band]. *)
Definition near_right (mask : maskref) (w x y thickness : Z) : M bool :=
  fold_M (range 1 (thickness + 1)) (fun near t =>
    if (near : bool) then ret true
    else
      let nx := x + t in
      if nx >=? w then ret true
      else let! v := mask_get mask (y * w + nx) in ret (v =? 0)) false.

Definition near_bottom (mask : maskref) (w h x y thickness : Z) : M bool :=
  fold_M (range 1 (thickness + 1)) (fun near t =>
    if (near : bool) then ret true
    else
      let ny := y + t in
      if ny >=? h then ret true
      else let! v := mask_get mask (ny * w + x) in ret (v =? 0)) false.

Definition near_top_left (mask : maskref) (w x y thickness : Z) : M bool :=
  fold_M (range 1 (thickness + 1)) (fun near t =>
    if (near : bool) then ret true
    else
      let! up := (if y - t <? 0 then ret true
                  else let! v := mask_get mask ((y - t) * w + x) in ret (v =? 0)) in
      if (up : bool) then ret true
      else if x - t <? 0 then ret true
      else let! v := mask_get mask (y * w + (x - t)) in ret (v =? 0)) false.

Definition on_boundary (mask : maskref) (w h x y : Z) : M bool :=
  fold_M [(1, 0); (-1, 0); (0, 1); (0, -1)] (fun boundary '(dx, dy) =>
    if (boundary : bool) then ret true
    else
      let nx := x + dx in
      let ny := y + dy in
      if negb ((0 <=? nx) && (nx <? w) && (0 <=? ny) && (ny <? h)) then ret true
      else let! v := mask_get mask (ny * w + nx) in ret (v =? 0)) false.

Definition shade_band (mask : maskref) (w h shade_color : Z) (side : string)
    (thickness : Z) : M unit :=
  let side := PyVal.lower side in
  for_each (range 0 h) (fun y =>
    for_each (range 0 w) (fun x =>
      let idx := y * w + x in
      let! v := mask_get mask idx in
      if v =? 0 then skip
      else if String.eqb side "right" then
        let! near := near_right mask w x y thickness in
        if (near : bool) then store idx shade_color else skip
      else if String.eqb side "bottom" then
        let! near := near_bottom mask w h x y thickness in
        if (near : bool) then store idx shade_color else skip
      else if String.eqb side "top_left" then
        let! near := near_top_left mask w x y thickness in
        if (near : bool) then store idx shade_color else skip
      else if String.eqb side "edge" then
        let! boundary := on_boundary mask w h x y in
        if (boundary : bool) then store idx shade_color else skip
      else lift (raise (UnsupportedSide side)))).

(** [[i for i, v in enumerate(mask) if v != 0]] *)
Definition eligible_of (mask : list Z) : list Z :=
  fst <$> filter (fun iv => iv.2 <> 0) (enumerate mask).

(** One step of the generator: [(1103515245 * x + 12345) & 0x7FFFFFFF]. *)
Definition lcg_next (x : Z) : Z := Z.land (1103515245 * x + 12345) 2147483647.

(** The loop [for _ in range(count)] of [noise_points], from state [x]. *)
Fixpoint noise_loop (n : nat) (eligible : list Z) (color x : Z) : M unit :=
  match n with
  | O => skip
  | S n' =>
      let x := lcg_next x in
      let! idx := lift (PyVal.get eligible (x mod Z.of_nat (length eligible))) in
      store idx color ;;;
      noise_loop n' eligible color x
  end.

Definition noise_points (mask : maskref) (w h color count seed : Z) : M unit :=
  let! m := mask_cells mask in
  let eligible := eligible_of m in
  if bool_decide (eligible = []) || (count <=? 0) then skip
  else
    let x := Z.land seed 2147483647 in
    noise_loop (Z.to_nat count) eligible color x.

End Layers.

(** ** render.py: the op interpreter and the inheritance resolver *)

Module Render.
Import Raster Layers.

(** The variables [layers], [layer_order] and [current] of [render_frame]. *)
Record state := State {
  layers : gmap string (list Z);
  layer_order : list string;
  current : string
}.

Definition initial (w h : Z) : state :=
  State {[ "base" := filled 0 w h ]} ["base"] "base".

Definition merged (st : state) (w h : Z) : outcome (list Z) :=
  merge_layers (layers st) (layer_order st) w h.

(** [buf = ensure_layer(layers, layer_order, current, w, h)] followed by a
    primitive that draws into [buf]: the layer's entry holds the mutated
    list afterwards. *)
Definition draw (st : state) (w h : Z) (prim : M unit) : outcome state :=
  let '(ls, order, buf) := ensure_layer (layers st) (layer_order st) (current st) w h in
  let* buf' := exec prim buf in
  Ok (State (<[current st := buf']> ls) order (current st)).

(** The mask a primitive receives for the list found under [name]: the
    destination itself when [name] is the current layer. *)
Definition mask_of (st : state) (name : string) (l : list Z) : maskref :=
  if String.eqb name (current st) then SameAsDest else Other l.

Definition arg (op : json) (i : Z) : outcome json := PyVal.item op i.
Definition arg_int (op : json) (i : Z) : outcome Z :=
  let* v := arg op i in PyVal.int v.
Definition arg_str (op : json) (i : Z) : outcome string :=
  let* v := arg op i in PyVal.str v.
Definition arg_float (op : json) (i : Z) : outcome Float.float :=
  let* v := arg op i in PyVal.float v.

(** [int(op[i]) if len(op) > i else d] *)
Definition opt_int (op : json) (i d : Z) : outcome Z :=
  let* n := PyVal.len op in
  if n >? i then arg_int op i else Ok d.
Definition opt_str (op : json) (i : Z) (d : string) : outcome string :=
  let* n := PyVal.len op in
  if n >? i then arg_str op i else Ok d.

(** [[int(x) for x in op[1].split(",")] if isinstance(op[1], str)
    else [int(op[1])]] *)
Definition gradient_indices (op : json) : outcome (list Z) :=
  let* v := arg op 1 in
  match v with
  | JStr s => map_m PyVal.int_of_string (PyVal.split_comma s)
  | _ => let* i := PyVal.int v in Ok [i]
  end.

(** The loop of [poly_fill] that collects the points. *)
Definition poly_points (op : json) : outcome (list (Float.float * Float.float)) :=
  let* n := PyVal.len op in
  map_m (fun i => let* x := arg_float op i in
                  let* y := arg_float op (i + 1) in
                  Ok (x, y))
        ((fun k => 2 + 2 * k) <$> range 0 ((n - 2 + 1) / 2)).

Definition mirror_x (w h : Z) : M unit :=
  for_each (range 0 h) (fun y =>
    let row := y * w in
    for_each (range 0 (w / 2)) (fun x =>
      let! v := load (row + x) in
      store (row + (w - 1 - x)) v)).

Definition mirror_y (w h : Z) : M unit :=
  for_each (range 0 w) (fun x =>
    for_each (range 0 (h / 2)) (fun y =>
      let! v := load (y * w + x) in
      store ((h - 1 - y) * w + x) v)).

Definition translate (w h dx dy : Z) : M unit :=
  let! old := snapshot in
  let! n := size in
  for_each (range 0 n) (fun i => store i 0) ;;;
  for_each (range 0 h) (fun y =>
    for_each (range 0 w) (fun x =>
      let sx := x - dx in
      let sy := y - dy in
      if (0 <=? sx) && (sx <? w) && (0 <=? sy) && (sy <? h) then
        let! v := lift (PyVal.get old (sy * w + sx)) in
        store (y * w + x) v
      else skip)).

(** The arguments of [rotate] are converted as the code does; the rotation
    itself needs [math.cos] and [math.sin]. *)
Definition rotate_args (op : json) (w h : Z) : outcome unit :=
  let* angle_deg := arg_float op 1 in
  let* n := PyVal.len op in
  let* cx := (if n >? 2 then arg_float op 2 else Float.int_truediv w 2) in
  let* n' := PyVal.len op in
  let* cy := (if n' >? 3 then arg_float op 3 else Float.int_truediv h 2) in
  Fail (Unmodelled "math.cos").

(** One iteration of [for op in ops]. *)
Definition step (w h : Z) (st : state) (op : json) : outcome state :=
  let* name := arg op 0 in
  let named (s : string) := PyVal.json_eqb name (JStr s) in
  if named "clear" then
    let* c := arg_int op 1 in
    Ok (State ((fun _ => filled c w h) <$> layers st) (layer_order st) (current st))
  else if named "layer_begin" then
    let* cur := arg_str op 1 in
    let '(ls, order, _) := ensure_layer (layers st) (layer_order st) cur w h in
    Ok (State ls order cur)
  else if named "layer_end" then
    Ok (State (layers st) (layer_order st) "base")
  else if named "layer_merge" then
    let* target := opt_str op 1 "base" in
    let* m := merged st w h in
    Ok (State {[ target := m ]} [target] target)
  else if named "pixel" then
    let* a := PyVal.ints op 1 4 in
    match a with
    | [c; x; y] => draw st w h (plot w h c x y)
    | _ => raise ValueError
    end
  else if named "line" then
    let* a := PyVal.ints op 1 6 in
    match a with
    | [c; x0; y0; x1; y1] => draw st w h (draw_line w h c x0 y0 x1 y1)
    | _ => raise ValueError
    end
  else if named "thick_line" then
    let* a := PyVal.ints op 1 7 in
    match a with
    | [c; x0; y0; x1; y1; t] => draw st w h (draw_thick_line w h c x0 y0 x1 y1 t)
    | _ => raise ValueError
    end
  else if named "capsule_fill" then
    let* a := PyVal.ints op 1 7 in
    match a with
    | [c; x0; y0; x1; y1; r] => draw st w h (capsule_fill w h c x0 y0 x1 y1 r)
    | _ => raise ValueError
    end
  else if named "rect" then
    let* a := PyVal.ints op 1 6 in
    match a with
    | [c; x; y; rw; rh] => draw st w h (rect_stroke w h c x y rw rh)
    | _ => raise ValueError
    end
  else if named "rect_fill" then
    let* a := PyVal.ints op 1 6 in
    match a with
    | [c; x; y; rw; rh] => draw st w h (rect_fill w h c x y rw rh)
    | _ => raise ValueError
    end
  else if named "rect_stroke" then
    let* a := PyVal.ints op 1 6 in
    match a with
    | [c; x; y; rw; rh] => draw st w h (rect_stroke w h c x y rw rh)
    | _ => raise ValueError
    end
  else if named "ellipse_fill" then
    let* a := PyVal.ints op 1 6 in
    match a with
    | [c; cx; cy; rx; ry] => draw st w h (ellipse_fill w h c cx cy rx ry)
    | _ => raise ValueError
    end
  else if named "ellipse_stroke" then
    let* a := PyVal.ints op 1 6 in
    match a with
    | [c; cx; cy; rx; ry] => draw st w h (ellipse_stroke w h c cx cy rx ry)
    | _ => raise ValueError
    end
  else if named "gradient_radial" then
    let* indices := gradient_indices op in
    let* a := PyVal.ints op 2 5 in
    match a with
    | [cx; cy; r] => draw st w h (gradient_radial w h indices cx cy r)
    | _ => raise ValueError
    end
  else if named "gradient_linear" then
    let* indices := gradient_indices op in
    let* a := PyVal.ints op 2 6 in
    match a with
    | [x0; y0; x1; y1] => draw st w h (gradient_linear w h indices x0 y0 x1 y1)
    | _ => raise ValueError
    end
  else if named "color_replace" then
    let* a := PyVal.ints op 1 3 in
    match a with
    | [old_c; new_c] =>
        let* n := PyVal.len op in
        let* layer_mask_name :=
          (if n >? 3 then let* s := arg_str op 3 in Ok (Some s) else Ok None) in
        let mask :=
          match layer_mask_name with
          | Some s =>
              if String.eqb s "" then None
              else mask_of st s <$> (layers st !! s)
          | None => None
          end in
        draw st w h (color_replace w h old_c new_c mask)
    | _ => raise ValueError
    end
  else if named "mask_layer" then
    let* mask_name := arg_str op 1 in
    match layers st !! mask_name with
    | Some (v :: l) => draw st w h (mask_layer_fn (mask_of st mask_name (v :: l)))
    | _ => Ok st
    end
  else if named "outline_layer" then
    let* color := arg_int op 1 in
    let* thickness := opt_int op 2 1 in
    draw st w h (outline_layer w h thickness color)
  else if named "circle_fill" then
    let* a := PyVal.ints op 1 5 in
    match a with
    | [c; cx; cy; r] => draw st w h (ellipse_fill w h c cx cy r r)
    | _ => raise ValueError
    end
  else if named "bezier" then
    let* a := PyVal.ints op 1 8 in
    match a with
    | [c; x0; y0; cx; cy; x1; y1] => draw st w h (draw_bezier w h c x0 y0 cx cy x1 y1)
    | _ => raise ValueError
    end
  else if named "dither_rect" then
    let* a := PyVal.ints op 1 6 in
    match a with
    | [c; x; y; rw; rh] =>
        let* pattern := opt_str op 6 "checker" in
        draw st w h (dither_rect w h c x y rw rh pattern)
    | _ => raise ValueError
    end
  else if named "mirror" then
    let* axis := opt_str op 1 "x" in
    draw st w h (if String.eqb axis "x" then mirror_x w h
                 else if String.eqb axis "y" then mirror_y w h
                 else skip)
  else if named "copy_layer" then
    let* src_name := arg_str op 1 in
    let* dst_name := arg_str op 2 in
    match layers st !! src_name with
    | Some (v :: l) =>
        Ok (State (<[dst_name := v :: l]> (layers st))
                  (if bool_decide (dst_name ∈ layer_order st) then layer_order st
                   else (layer_order st ++ [dst_name])%list)
                  (current st))
    | _ => Ok st
    end
  else if named "translate" then
    let* a := PyVal.ints op 1 3 in
    match a with
    | [dx; dy] => draw st w h (translate w h dx dy)
    | _ => raise ValueError
    end
  else if named "rotate" then
    let* _ := rotate_args op w h in Ok st
  else if named "poly_fill" then
    let* c := arg_int op 1 in
    let* points := poly_points op in
    draw st w h (draw_poly w h c points)
  else if named "fill" then
    let* a := PyVal.ints op 1 4 in
    match a with
    | [c; x; y] => draw st w h (flood_fill w h c x y)
    | _ => raise ValueError
    end
  else if named "inset_fill" then
    let* a := PyVal.ints op 1 7 in
    match a with
    | [c; x; y; rw; rh; inset] =>
        let '(ls, order, _) :=
          ensure_layer (layers st) (layer_order st) (current st) w h in
        let* mask := merge_layers ls order w h in
        draw st w h (inset_fill_on_mask mask w h c x y rw rh inset)
    | _ => raise ValueError
    end
  else if named "shade_band" then
    let* c := arg_int op 1 in
    let* layer_name := arg_str op 2 in
    let* side := arg_str op 3 in
    let* thickness := opt_int op 4 1 in
    let '(ls, _, _) := ensure_layer (layers st) (layer_order st) (current st) w h in
    match ls !! layer_name with
    | None => raise (MissingLayer "shade_band" layer_name)
    | Some mask =>
        draw st w h (shade_band (mask_of st layer_name mask) w h c side thickness)
    end
  else if named "noise_points" then
    let* c := arg_int op 1 in
    let* layer_name := arg_str op 2 in
    let* count := arg_int op 3 in
    let* seed := arg_int op 4 in
    let '(ls, _, _) := ensure_layer (layers st) (layer_order st) (current st) w h in
    match ls !! layer_name with
    | None => raise (MissingLayer "noise_points" layer_name)
    | Some mask =>
        draw st w h (noise_points (mask_of st layer_name mask) w h c count seed)
    end
  else if named "outline" then
    let* outline_color := arg_int op 1 in
    let* thickness := opt_int op 2 1 in
    let '(ls, order, _) := ensure_layer (layers st) (layer_order st) (current st) w h in
    let* m := merge_layers ls order w h in
    let mask := (fun v => if negb (v =? 0) then 1 else 0) <$> m in
    draw st w h (outline_from_mask mask w h outline_color thickness)
  else raise (UnknownOp name).

(** The state after [for op in ops]. *)
Definition run_ops (w h : Z) (ops : list json) (st : state) : outcome state :=
  fold_m (step w h) ops st.

Definition render_frame (ops : list json) (w h : Z) : outcome (list Z) :=
  let* st := run_ops w h ops (initial w h) in
  merged st w h.

(** [render_sprite] renders each item of the resolver's result: the loop
    [for op in ops] iterates over whatever value the frame resolved to. *)
Definition render_resolved (ops : json) (w h : Z) : outcome (list Z) :=
  let* l := PyVal.iter ops in
  render_frame l w h.

(** [if op_idx is not None and op_idx < len(base_ops):
       base_ops[op_idx] = override["op"]] *)
Definition apply_override (base_ops : list json) (override : json) : outcome (list json) :=
  let* found := PyVal.dict_get override "op_index" in
  match found with
  | None | Some JNull => Ok base_ops
  | Some (JInt _ as v) | Some (JBool _ as v) =>
      let i := default 0 (PyVal.int_value v) in
      if i <? Z.of_nat (length base_ops) then
        let* op := PyVal.getitem override "op" in
        PyVal.set base_ops i op
      else Ok base_ops
  | Some (JFloat x) =>
      if Float.lt_int x (Z.of_nat (length base_ops)) then
        let* op := PyVal.getitem override "op" in
        raise TypeError
      else Ok base_ops
  | Some _ => raise TypeError
  end.

(** What the loop of [process_frame_inheritance] does for a frame with a
    [base], once [processed_ops[base_idx]] is at hand: copy it, apply the
    overrides, extend with [append_ops]. *)
Definition derive (base fr : json) : outcome json :=
  let* base_ops := PyVal.iter base in
  let* has_overrides := PyVal.contains "overrides" fr in
  let* base_ops :=
    (if (has_overrides : bool) then
       let* ovs := PyVal.getitem fr "overrides" in
       let* ovl := PyVal.iter ovs in
       fold_m apply_override ovl base_ops
     else Ok base_ops) in
  let* has_append := PyVal.contains "append_ops" fr in
  let* base_ops :=
    (if (has_append : bool) then
       let* more := PyVal.getitem fr "append_ops" in
       let* morel := PyVal.iter more in
       Ok (base_ops ++ morel)%list
     else Ok base_ops) in
  Ok (JList base_ops).

(** The body of the loop of [process_frame_inheritance]: the entry of
    frame [fr], given the entries [processed_ops] of the frames before. *)
Definition resolve_frame (processed_ops : list json) (fr : json) : outcome json :=
  let* has_base := PyVal.contains "base" fr in
  if (has_base : bool) then
    let* b := PyVal.getitem fr "base" in
    let* base_idx := PyVal.int b in
    let* base := PyVal.get processed_ops base_idx in
    derive base fr
  else PyVal.getitem fr "ops".

Definition process_frame_inheritance (raw_frames : list json) : outcome (list json) :=
  fold_m (fun processed_ops fr =>
            let* ops := resolve_frame processed_ops fr in
            Ok (processed_ops ++ [ops])%list)
         raw_frames [].

End Render.

(** ** ops.py: the op table *)

Module Ops.

Record OpSpec := {
  name : string;
  min_args : Z;
  max_args : Z;
  arg_types : list string;
  requires_layer : option string;
  requires_seed : bool
}.

Definition spec (n : string) (lo hi : Z) (tys : list string) : OpSpec :=
  {| name := n; min_args := lo; max_args := hi; arg_types := tys;
     requires_layer := None; requires_seed := false |}.

Definition OP_SPECS : list (string * OpSpec) :=
  let c := "color_idx" in
  let i := "int" in
  let s := "str" in
  let f := "float" in
  let l := "layer_name" in
  (fun o => (name o, o)) <$>
  [ spec "clear" 1 1 [c];
    spec "pixel" 3 3 [c; i; i];
    spec "layer_begin" 1 1 [s];
    spec "layer_end" 0 0 [];
    spec "layer_merge" 0 1 [s];
    spec "copy_layer" 2 2 [s; s];
    spec "line" 5 5 [c; i; i; i; i];
    spec "thick_line" 6 6 [c; i; i; i; i; i];
    spec "rect" 5 5 [c; i; i; i; i];
    spec "rect_fill" 5 5 [c; i; i; i; i];
    spec "rect_stroke" 5 5 [c; i; i; i; i];
    spec "ellipse_fill" 5 5 [c; i; i; i; i];
    spec "ellipse_stroke" 5 5 [c; i; i; i; i];
    spec "circle_fill" 4 4 [c; i; i; i];
    spec "capsule_fill" 6 6 [c; i; i; i; i; i];
    spec "poly_fill" 3 100 [c];
    spec "bezier" 7 7 [c; i; i; i; i; i; i];
    spec "fill" 3 3 [c; i; i];
    spec "inset_fill" 6 6 [c; i; i; i; i; i];
    spec "dither_rect" 5 6 [c; i; i; i; i; s];
    spec "gradient_radial" 4 4 [s; i; i; i];
    spec "gradient_linear" 5 5 [s; i; i; i; i];
    {| name := "mask_layer"; min_args := 1; max_args := 1; arg_types := [l];
       requires_layer := Some "0"; requires_seed := false |};
    spec "outline" 1 2 [c; i];
    spec "outline_layer" 1 2 [c; i];
    {| name := "shade_band"; min_args := 3; max_args := 4; arg_types := [c; l; s; i];
       requires_layer := Some "1"; requires_seed := false |};
    {| name := "noise_points"; min_args := 4; max_args := 4; arg_types := [c; l; i; i];
       requires_layer := Some "1"; requires_seed := true |};
    spec "color_replace" 2 3 [c; c; l];
    spec "translate" 2 2 [i; i];
    spec "rotate" 1 3 [f; f; f];
    spec "mirror" 0 1 [s] ].

Fixpoint assoc {A} (k : string) (l : list (string * A)) : option A :=
  match l with
  | [] => None
  | (k', v) :: l' => if String.eqb k k' then Some v else assoc k l'
  end.

Definition get_op_spec (n : string) : option OpSpec := assoc n OP_SPECS.

End Ops.

(** ** validate.py: the validator *)

Module Validate.
Import Ops.

(** The text of a diagnostic, kept with the values it is formatted from. *)
Inductive message :=
| BadFormat
| MissingCanvas
| CanvasMissingFields
| CanvasNotIntegers
| CanvasNotPositive
| MissingPalette
| PaletteNotArray
| PaletteEmpty
| ColorNotString (i : Z)
| ColorNoHash (i : Z)
| MissingFrames
| FramesNotArray
| FramesEmpty
| BadAnimationFrame (anim : string) (f : json)
| BaseNotInteger
| BaseNotEarlier (base : json)
| InheritedNeedsChanges
| FrameNeedsOps
| OpsNotArray
| OpNotArray
| OpEmpty
| OpNameNotString
| UnknownOperation (op_name : string)
| TooFewArguments (op_name : string) (min_args arg_count : Z)
| TooManyArguments (op_name : string) (max_args arg_count : Z)
| PaletteIndexOutOfBounds (arg palette_size : Z)
| UndefinedLayer (op_name layer_name : string)
| NoiseNeedsSeed.

(** A [ValidationError]; the [path] the validator only passes on is left
    out. *)
Record ValidationError := Diag {
  message_of : message;
  frame : option Z;
  op_index : option Z
}.

(** [enumerate(l)] *)
Definition enumerate {A} (l : list A) : list (Z * A) :=
  zip (seqZ 0 (Z.of_nat (length l))) l.

Definition validate_op (op : json) (op_idx palette_size : Z) (defined_layers : list string)
    (frame_idx : Z) (strict : bool) : outcome (list ValidationError) :=
  let err m := Diag m (Some frame_idx) (Some op_idx) in
  match op with
  | JList items =>
      match items with
      | [] => Ok [err OpEmpty]
      | JStr op_name :: args =>
          match get_op_spec op_name with
          | None => Ok [err (UnknownOperation op_name)]
          | Some spec =>
              let arg_count := Z.of_nat (length items) - 1 in
              let errors :=
                if arg_count <? min_args spec
                then [err (TooFewArguments op_name (min_args spec) arg_count)]
                else if arg_count >? max_args spec
                then [err (TooManyArguments op_name (max_args spec) arg_count)]
                else [] in
              let errors := (errors ++
                flat_map (fun '(i, arg) =>
                  match arg_types spec !! Z.to_nat i with
                  | Some arg_type =>
                      if String.eqb arg_type "color_idx" then
                        match PyVal.int_value arg with
                        | Some a =>
                            if (a <? 0) || (a >=? palette_size)
                            then [err (PaletteIndexOutOfBounds a palette_size)]
                            else []
                        | None => []
                        end
                      else []
                  | None => []
                  end) (enumerate args))%list in
              let* errors :=
                match requires_layer spec with
                | Some r =>
                    if String.eqb r "" then Ok errors
                    else
                      let* layer_arg_idx := PyVal.int_of_string r in
                      if layer_arg_idx + 1 <? Z.of_nat (length items) then
                        let* a := PyVal.get items (layer_arg_idx + 1) in
                        let* layer_name := PyVal.str a in
                        if bool_decide (layer_name ∈ defined_layers) then Ok errors
                        else Ok (errors ++ [err (UndefinedLayer op_name layer_name)])%list
                      else Ok errors
                | None => Ok errors
                end in
              if requires_seed spec && strict then
                if String.eqb op_name "noise_points" && (Z.of_nat (length items) <? 5)
                then Ok (errors ++ [err NoiseNeedsSeed])%list
                else Ok errors
              else Ok errors
          end
      | _ :: _ => Ok [err OpNameNotString]
      end
  | _ => Ok [err OpNotArray]
  end.

(** The layer an op adds to [defined_layers]:
    [isinstance(op, list) and len(op) >= 2 and op[0] == "layer_begin"]. *)
Definition defines_layer (op : json) : outcome (option string) :=
  match op with
  | JList (JStr n :: a :: _) =>
      if String.eqb n "layer_begin" then let* s := PyVal.str a in Ok (Some s)
      else Ok None
  | _ => Ok None
  end.

Definition validate_frame (frame : json) (frame_idx palette_size : Z) (strict : bool)
    : outcome (list ValidationError) :=
  let err m := Diag m (Some frame_idx) None in
  let* has_base := PyVal.contains "base" frame in
  if (has_base : bool) then
    let* base := PyVal.getitem frame "base" in
    let errors :=
      match PyVal.int_value base with
      | None => [err BaseNotInteger]
      | Some b => if b >=? frame_idx then [err (BaseNotEarlier base)] else []
      end in
    let* has_ops := PyVal.contains "ops" frame in
    let* changes :=
      (if (has_ops : bool) then Ok true
       else let* has_overrides := PyVal.contains "overrides" frame in
            if (has_overrides : bool) then Ok true
            else PyVal.contains "append_ops" frame) in
    if (changes : bool) then Ok errors
    else Ok (errors ++ [err InheritedNeedsChanges])%list
  else
    let* has_ops := PyVal.contains "ops" frame in
    if negb has_ops then Ok [err FrameNeedsOps]
    else
      let* ops := PyVal.getitem frame "ops" in
      match ops with
      | JList l =>
          let* r :=
            fold_m (fun '(errors, defined_layers) '(op_idx, op) =>
                      let* op_errors :=
                        validate_op op op_idx palette_size defined_layers frame_idx strict in
                      let* d := defines_layer op in
                      Ok ((errors ++ op_errors)%list,
                          match d with
                          | Some s => if bool_decide (s ∈ defined_layers) then defined_layers
                                      else (defined_layers ++ [s])%list
                          | None => defined_layers
                          end))
                   (enumerate l) ([], ["base"]) in
          Ok r.1
      | _ => Ok [err OpsNotArray]
      end.

Definition top (m : message) : ValidationError := Diag m None None.

Definition check_canvas (data : json) : outcome (list ValidationError) :=
  let* has := PyVal.contains "canvas" data in
  if negb has then Ok [top MissingCanvas]
  else
    let* canvas := PyVal.getitem data "canvas" in
    let* has_w := PyVal.contains "w" canvas in
    let* missing := (if negb has_w then Ok true
                     else let* has_h := PyVal.contains "h" canvas in Ok (negb has_h)) in
    if (missing : bool) then Ok [top CanvasMissingFields]
    else
      let* cw := PyVal.getitem canvas "w" in
      if negb (PyVal.is_int cw) then Ok [top CanvasNotIntegers]
      else
        let* ch := PyVal.getitem canvas "h" in
        match PyVal.int_value cw, PyVal.int_value ch with
        | Some vw, Some vh =>
            if (vw <=? 0) || (vh <=? 0) then Ok [top CanvasNotPositive] else Ok []
        | _, _ => Ok [top CanvasNotIntegers]
        end.

Definition check_palette (data : json) : outcome (list ValidationError) :=
  let* has := PyVal.contains "palette" data in
  if negb has then Ok [top MissingPalette]
  else
    let* palette := PyVal.getitem data "palette" in
    match palette with
    | JList [] => Ok [top PaletteEmpty]
    | JList colors =>
        Ok (flat_map (fun '(i, color) =>
                        match color with
                        | JStr s => if String.prefix "#" s then [] else [top (ColorNoHash i)]
                        | _ => [top (ColorNotString i)]
                        end) (enumerate colors))
    | _ => Ok [top PaletteNotArray]
    end.

(** [len(data.get(key, []))] *)
Definition len_or_empty (data : json) (key : string) : outcome Z :=
  let* found := PyVal.dict_get data key in
  match found with
  | Some v => PyVal.len v
  | None => Ok 0
  end.

Definition check_frames (data : json) (strict : bool) : outcome (list ValidationError) :=
  let* has := PyVal.contains "frames" data in
  if negb has then Ok [top MissingFrames]
  else
    let* frames := PyVal.getitem data "frames" in
    match frames with
    | JList [] => Ok [top FramesEmpty]
    | JList l =>
        let* palette_size := len_or_empty data "palette" in
        fold_m (fun errors '(frame_idx, frame) =>
                  let* frame_errors := validate_frame frame frame_idx palette_size strict in
                  Ok (errors ++ frame_errors)%list)
               (enumerate l) []
    | _ => Ok [top FramesNotArray]
    end.

Definition check_animations (data : json) : outcome (list ValidationError) :=
  let* has := PyVal.contains "animations" data in
  if negb has then Ok []
  else
    let* frame_count := len_or_empty data "frames" in
    let* anims := PyVal.getitem data "animations" in
    match anims with
    | JDict items =>
        fold_m (fun errors '(anim_name, anim_data) =>
                  let* has_frames := PyVal.contains "frames" anim_data in
                  if negb has_frames then Ok errors
                  else
                    let* fs := PyVal.getitem anim_data "frames" in
                    let* fl := PyVal.iter fs in
                    Ok (errors ++
                        flat_map (fun f =>
                          match PyVal.int_value f with
                          | Some v =>
                              if (v <? 0) || (v >=? frame_count)
                              then [top (BadAnimationFrame anim_name f)] else []
                          | None => [top (BadAnimationFrame anim_name f)]
                          end) fl)%list)
               items []
    | _ => raise AttributeError
    end.

Definition validate_sprite (data : json) (strict : bool) : outcome (list ValidationError) :=
  let* fmt := PyVal.dict_get data "format" in
  let e1 := match fmt with
            | Some (JStr s) => if String.eqb s "spriteops" then [] else [top BadFormat]
            | _ => [top BadFormat]
            end in
  let* e2 := check_canvas data in
  let* e3 := check_palette data in
  let* e4 := check_frames data strict in
  let* e5 := check_animations data in
  Ok (e1 ++ e2 ++ e3 ++ e4 ++ e5)%list.

End Validate.

(** * Definitions used by the statements *)

Import Raster Layers Render Validate.

(** An op [[name, a1, a2, ...]] with integer arguments. *)
Definition int_op (name : string) (args : list Z) : json :=
  JList (JStr name :: (JInt <$> args)).

(** A document with the given canvas, palette and frames. *)
Definition document (w h : Z) (palette : list string) (frames : list json) : json :=
  JDict [("format", JStr "spriteops");
         ("canvas", JDict [("w", JInt w); ("h", JInt h)]);
         ("palette", JList (JStr <$> palette));
         ("frames", JList frames)].

(** Frame 1 derives from frame 0 and appends an op the op table does not
    have. *)
Definition frames_appending_unknown_op : list json :=
  [JDict [("ops", JList [int_op "clear" [0]])];
   JDict [("base", JInt 0); ("append_ops", JList [JList [JStr "bogus"]])]].

(** Frame 1 overrides the op at index [-2] of a one-op base. *)
Definition frames_overriding_before_start : list json :=
  [JDict [("ops", JList [int_op "clear" [0]])];
   JDict [("base", JInt 0);
          ("overrides", JList [JDict [("op_index", JInt (-2));
                                      ("op", int_op "clear" [0])]])]].

(** Frame 1 has both [base] and [ops]. *)
Definition frames_base_and_ops : list json :=
  [JDict [("ops", JList [int_op "clear" [0]])];
   JDict [("base", JInt 0); ("ops", JList [int_op "pixel" [0; 0; 0]])]].

(** The diagnostics about [base] for a frame at [frame_idx]. *)
Definition base_diagnostics (base : json) (frame_idx : Z) : list ValidationError :=
  match PyVal.int_value base with
  | None => [Diag BaseNotInteger (Some frame_idx) None]
  | Some b =>
      if b >=? frame_idx then [Diag (BaseNotEarlier base) (Some frame_idx) None] else []
  end.

(** The generator of [noise_points] in the specification's words: the
    state after [k] steps from [seed & 0x7FFFFFFF], advancing by
    [x <- (1103515245 * x + 12345) mod 2^31]. *)
Fixpoint lcg_state (seed : Z) (k : nat) : Z :=
  match k with
  | O => Z.land seed 2147483647
  | S k' => (1103515245 * lcg_state seed k' + 12345) mod 2 ^ 31
  end.

(** The pixel of iteration [k] (from 1): [eligible[x_k mod |eligible|]]. *)
Definition noise_pick (eligible : list Z) (seed : Z) (k : nat) : Z :=
  eligible !!! Z.to_nat (lcg_state seed k mod Z.of_nat (length eligible)).

(** The pixels of iterations [from + 1 .. from + n], in order. *)
Definition noise_picks (eligible : list Z) (seed : Z) (from n : nat) : list Z :=
  noise_pick eligible seed <$> seq (S from) n.

(** Setting the pixels [picks] to [c], one after the other. *)
Definition paint (c : Z) (picks : list Z) (buf : list Z) : list Z :=
  fold_left (fun b i => <[Z.to_nat i := c]> b) picks buf.

(** Overlaying [src] on [out], as one round of [merge_layers] does: a
    non-zero pixel of [src] overwrites, a zero one leaves [out]. *)
Fixpoint overlay (src out : list Z) : list Z :=
  match src, out with
  | s :: src', o :: out' => (if s =? 0 then o else s) :: overlay src' out'
  | _, _ => out
  end.

(** Whether a frame has one of [ops], [overrides] and [append_ops]. *)
Definition has_changes (items : list (string * json)) : bool :=
  bool_decide (is_Some (PyVal.lookup_key "ops" items))
  || bool_decide (is_Some (PyVal.lookup_key "overrides" items))
  || bool_decide (is_Some (PyVal.lookup_key "append_ops" items)).

(** The loop of [process_frame_inheritance] over [frames], continued from
    the entries [processed_ops]. *)
Definition resolve_more (frames processed_ops : list json) : outcome (list json) :=
  fold_m (fun processed_ops fr =>
            let* ops := resolve_frame processed_ops fr in
            Ok (processed_ops ++ [ops]))
         frames processed_ops.

(** The sides [shade_band] knows, after it has lowercased its argument. *)
Definition supported_side (side : string) : bool :=
  bool_decide (side ∈ ["right"; "bottom"; "top_left"; "edge"]).

(** The list a mask argument stands for while the destination holds [m]. *)
Definition mask_content (mk : maskref) (m : mem) : list Z :=
  match mk with
  | SameAsDest => cells m
  | Other l => l
  end.

(** A frame that fills the canvas and shades it on the side ["RIGHT"]. *)
Definition ops_shading_uppercase_side : list json :=
  [int_op "rect_fill" [1; 0; 0; 2; 1];
   JList [JStr "shade_band"; JInt 1; JStr "base"; JStr "RIGHT"]].

(** A frame that shades an empty canvas on the side ["diagonal"]. *)
Definition ops_shading_empty_mask : list json :=
  [JList [JStr "shade_band"; JInt 1; JStr "base"; JStr "diagonal"]].

(** A computation is quiet at [m] when it returns or raises without
    touching the buffer. *)
Definition quiet (c : M unit) (m : mem) : Prop :=
  c m = (Ok tt, m) \/ exists e, c m = (Fail (Exn e), m).

(** One stamp of [draw_thick_line]: the filled circle of radius
    [thickness // 2] centred at [p]. *)
Definition stamp (w h color thickness : Z) (p : Z * Z) : M unit :=
  ellipse_fill w h color p.1 p.2 (thickness / 2) (thickness / 2).

(** Stamping at the rounded sample points [i / steps], [i = 0 .. steps]. *)
Definition walk (w h color x0 y0 x1 y1 thickness steps : Z) : M unit :=
  for_each (range 0 (steps + 1)) (fun i =>
    let! (ix, iy) := lift (thick_line_sample x0 y0 x1 y1 steps i) in
    stamp w h color thickness (ix, iy)).

(** The thick line in the specification's words: [2 * ceil(length)] steps
    for distinct endpoints, a single circle when they coincide. *)
Definition thick_line_as_specified (w h color x0 y0 x1 y1 thickness : Z) : M unit :=
  if (x0 =? x1) && (y0 =? y1) then stamp w h color thickness (x0, y0)
  else
    let steps := 2 * Z.sqrt_up ((x1 - x0) * (x1 - x0) + (y1 - y0) * (y1 - y0)) in
    walk w h color x0 y0 x1 y1 thickness steps.

(** [int(math.sqrt(d2) * 2)] agrees with the integer square root of
    [4 * d2]. *)
Definition steps_agree (d2 : Z) : bool :=
  match (let* f := Float.of_int d2 in
         let* dist := Float.math_sqrt f in
         let* twice := Float.mul_int dist 2 in
         Float.to_int twice) with
  | Ok steps => steps =? Z.sqrt (4 * d2)
  | Fail _ => false
  end.

(** An index inside a [w] by [h] buffer. *)
Definition inside (w h i : Z) : Prop := 0 <= i < w * h.

(** A computation is safe when, from any state and whatever its outcome,
    it leaves the buffer's length alone and every element assignment it
    performed has its index inside the buffer. *)
Definition safe (w h : Z) {A} (c : M A) : Prop :=
  forall m,
    length (cells (c m).2) = length (cells m)
    /\ exists l, writes (c m).2 = l ++ writes m /\ Forall (inside w h) l.

(** The calls of the raster primitives, with their arguments. *)
Inductive primitive :=
| Line (color x0 y0 x1 y1 : Z)
| ThickLine (color x0 y0 x1 y1 thickness : Z)
| CapsuleFill (color x0 y0 x1 y1 r : Z)
| RectStroke (color x y rw rh : Z)
| RectFill (color x y rw rh : Z)
| EllipseFill (color cx cy rx ry : Z)
| EllipseStroke (color cx cy rx ry : Z)
| Bezier (color x0 y0 cx cy x1 y1 : Z)
| PolyFill (color : Z) (points : list (Float.float * Float.float))
| FloodFill (color sx sy : Z)
| DitherRect (color x y rw rh : Z) (pattern : string)
| GradientRadial (palette_indices : list Z) (cx cy r : Z)
| GradientLinear (palette_indices : list Z) (x0 y0 x1 y1 : Z)
| ColorReplace (old_c new_c : Z) (mask_layer : option maskref)
| OutlineLayer (thickness color : Z)
| OutlineFromMask (mask : list Z) (outline_color thickness : Z).

Definition call (w h : Z) (p : primitive) : M unit :=
  match p with
  | Line color x0 y0 x1 y1 => draw_line w h color x0 y0 x1 y1
  | ThickLine color x0 y0 x1 y1 thickness => draw_thick_line w h color x0 y0 x1 y1 thickness
  | CapsuleFill color x0 y0 x1 y1 r => capsule_fill w h color x0 y0 x1 y1 r
  | RectStroke color x y rw rh => rect_stroke w h color x y rw rh
  | RectFill color x y rw rh => rect_fill w h color x y rw rh
  | EllipseFill color cx cy rx ry => ellipse_fill w h color cx cy rx ry
  | EllipseStroke color cx cy rx ry => ellipse_stroke w h color cx cy rx ry
  | Bezier color x0 y0 cx cy x1 y1 => draw_bezier w h color x0 y0 cx cy x1 y1
  | PolyFill color points => draw_poly w h color points
  | FloodFill color sx sy => flood_fill w h color sx sy
  | DitherRect color x y rw rh pattern => dither_rect w h color x y rw rh pattern
  | GradientRadial palette_indices cx cy r => gradient_radial w h palette_indices cx cy r
  | GradientLinear palette_indices x0 y0 x1 y1 =>
      gradient_linear w h palette_indices x0 y0 x1 y1
  | ColorReplace old_c new_c mask_layer => color_replace w h old_c new_c mask_layer
  | OutlineLayer thickness color => outline_layer w h thickness color
  | OutlineFromMask mask outline_color thickness =>
      outline_from_mask mask w h outline_color thickness
  end.

(** An outcome is definite when the run returned or raised: it stopped
    neither on a loop's iteration bound nor at a call outside the model. *)
Definition definite {A} (r : outcome A) : Prop :=
  match r with
  | Ok _ | Fail (Exn _) => True
  | Fail _ => False
  end.

(** A computation is steady when, on a buffer of [w * h] pixels, its
    outcome is definite and the buffer still has [w * h] pixels. *)
Definition steady (w h : Z) {A} (c : M A) : Prop :=
  forall m,
    length (cells m) = Z.to_nat (w * h) ->
    definite (c m).1 /\ length (cells (c m).2) = Z.to_nat (w * h).

(** The number of pixels that hold [t]. *)
Definition count_of (t : Z) (l : list Z) : nat :=
  length (filter (fun v => v = t) l).

(** ** The layer store and the merged view *)

(** A computation keeps the buffer's length, whatever its outcome. *)
Definition keeps_length {A} (c : M A) : Prop :=
  forall m, length (cells (c m).2) = length (cells m).

(** The state of [render_frame] is well formed when the order list has no
    repeats, holds exactly the names of the layers, and every layer has
    [w * h] pixels. *)
Definition well_formed (w h : Z) (st : state) : Prop :=
  NoDup (layer_order st)
  /\ (forall n, n ∈ layer_order st <-> is_Some (layers st !! n))
  /\ (forall n l, layers st !! n = Some l -> length l = Z.to_nat (w * h)).

(** The pixel of the merged view at index [i], read off the layers: going
    through [order], each layer whose pixel at [i] is non-zero replaces
    the value so far; it starts at zero. *)
Definition top_pixel (ls : gmap string (list Z)) (order : list string) (i : nat) : Z :=
  fold_left (fun acc n =>
               match ls !! n with
               | Some src =>
                   match src !! i with
                   | Some v => if v =? 0 then acc else v
                   | None => acc
                   end
               | None => acc
               end) order 0.

(** Layer [n] is transparent at pixel [i]: if it exists, its pixel is zero. *)
Definition transparent_at (ls : gmap string (list Z)) (i : nat) (n : string) : Prop :=
  forall src, ls !! n = Some src -> src !! i = Some 0.

(** [v] is what the stack of layers shows at pixel [i]: the pixel of the
    last layer of [order] that is not transparent there, and zero when
    every layer is. *)
Definition topmost (ls : gmap string (list Z)) (order : list string) (i : nat) (v : Z) : Prop :=
  (v = 0 /\ Forall (transparent_at ls i) order)
  \/ (v <> 0 /\ exists pre n post src,
        order = (pre ++ n :: post)%list /\ ls !! n = Some src /\ src !! i = Some v
        /\ Forall (transparent_at ls i) post).

(** ** What the integer primitives paint *)

(** On a buffer of [n] pixels the command returns, keeps the size, sets
    to [c] the pixels whose index satisfies [P] and leaves the others as
    they were. *)
Definition paints (n : nat) (c : Z) (P : nat -> bool) (cmd : M unit) : Prop :=
  forall m, length (cells m) = n ->
    exists m',
      cmd m = (Ok tt, m')
      /\ length (cells m') = n
      /\ forall j, (j < n)%nat -> cells m' !! j = if P j then Some c else cells m !! j.

(** The index of pixel [(x, y)] on a canvas of width [w]. *)
Definition pixel_index (w x y : Z) : nat := Z.to_nat (y * w + x).

(** Pixel [(x, y)] lies in the rectangle at [(rx, ry)] of size [rw] by [rh]. *)
Definition in_rect (rx ry rw rh x y : Z) : bool :=
  (rx <=? x) && (x <? rx + rw) && (ry <=? y) && (y <? ry + rh).

(** Pixel [(x, y)] lies on what [rect_stroke] draws: the rows [ry] and
    [ry + rh - 1] over the columns of the rectangle, and the columns [rx]
    and [rx + rw - 1] over its rows. *)
Definition on_stroke (rx ry rw rh x y : Z) : bool :=
  ((rx <=? x) && (x <? rx + rw) && ((y =? ry) || (y =? ry + rh - 1)))
  || ((ry <=? y) && (y <? ry + rh) && ((x =? rx) || (x =? rx + rw - 1))).

(** The pixels a dither pattern selects. *)
Definition dithered (pattern : string) (x y : Z) : bool :=
  if String.eqb pattern "checker" then (x + y) mod 2 =? 0
  else if String.eqb pattern "dots" then (x mod 2 =? 0) && (y mod 2 =? 0)
  else false.

(** On a buffer of [w * h] pixels the command returns a buffer of the same
    size in which the pixels of the canvas selected by [R] hold [c] and the
    others are as they were. *)
Definition paints_pixels (w h c : Z) (R : Z -> Z -> bool) (cmd : M unit) : Prop :=
  forall buf, length buf = Z.to_nat (w * h) ->
    exists buf',
      run cmd buf = (Ok tt, buf')
      /\ length buf' = Z.to_nat (w * h)
      /\ forall x y, 0 <= x < w -> 0 <= y < h ->
           buf' !! pixel_index w x y
           = if R x y then Some c else buf !! pixel_index w x y.

(** ** Pixel-wise effects *)

(** Whether [color_replace] skips pixel [j]: the mask is there, is not
    empty and is zero at [j]. *)
Definition masked_out (mask : option (list Z)) (j : nat) : bool :=
  match mask with
  | Some l => match l !! j with Some v => v =? 0 | None => false end
  | None => false
  end.

(** The buffer after [color_replace]: [old_c] becomes [new_c] at the
    pixels the mask does not skip. *)
Definition replaced (old_c new_c : Z) (mask : option (list Z)) (buf : list Z) : list Z :=
  imap (fun j v => if masked_out mask j then v else if v =? old_c then new_c else v) buf.

(** The buffer after [mask_layer_fn]: zero where the mask is zero. *)
Definition masked (mask buf : list Z) : list Z :=
  imap (fun j v => match mask !! j with Some 0 => 0 | _ => v end) buf.

(** The buffer holds [w * h] pixels and pixel [(x, y)] of the canvas is
    [f x y]. *)
Definition pixels_are (w h : Z) (buf : list Z) (f : Z -> Z -> option Z) : Prop :=
  length buf = Z.to_nat (w * h)
  /\ forall x y, 0 <= x < w -> 0 <= y < h -> buf !! pixel_index w x y = f x y.

(** ** Strict and lenient validation *)

(** The diagnostic that only strict validation gives. *)
Definition is_seed_diagnostic (d : ValidationError) : bool :=
  match message_of d with
  | NoiseNeedsSeed => true
  | _ => false
  end.

(** [et] is [ef] with some seed diagnostics put in, and none put into an
    empty list. *)
Definition strict_extends (ef et : list ValidationError) : Prop :=
  ef `sublist_of` et
  /\ (ef = [] -> et = [])
  /\ List.filter (fun d => negb (is_seed_diagnostic d)) et
     = List.filter (fun d => negb (is_seed_diagnostic d)) ef.

(** A lenient and a strict run agree: both raise the same exception, or
    both return and the strict diagnostics extend the lenient ones. *)
Definition outcomes_agree (rf rt : outcome (list ValidationError)) : Prop :=
  match rf, rt with
  | Ok ef, Ok et => strict_extends ef et
  | Fail f, Fail g => f = g
  | _, _ => False
  end.

(** ** raster.py: hex_to_rgba

    Strings are taken as their list of ASCII characters, as for [int]. *)

Definition hex_digit (c : ascii) : option Z :=
  let n := nat_of_ascii c in
  if ((48 <=? n) && (n <=? 57))%nat then Some (Z.of_nat n - 48)
  else if ((97 <=? n) && (n <=? 102))%nat then Some (Z.of_nat n - 87)
  else if ((65 <=? n) && (n <=? 70))%nat then Some (Z.of_nat n - 55)
  else None.

(** Hexadecimal digits, single underscores allowed between two digits. *)
Fixpoint hex_digits (s : list ascii) (acc : Z) (after_digit : bool) : option Z :=
  match s with
  | [] => if after_digit then Some acc else None
  | c :: s' =>
      match hex_digit c with
      | Some d => hex_digits s' (16 * acc + d) true
      | None =>
          if (Ascii.eqb c "_"%char) && after_digit
          then match s' with
               | c' :: _ =>
                   match hex_digit c' with
                   | Some _ => hex_digits s' acc false
                   | None => None
                   end
               | [] => None
               end
          else None
      end
  end.

(** [int(s, 16)]: surrounding whitespace, a sign, the prefix [0x] or [0X]
    with one underscore after it, then the digits. *)
Definition int_base16 (s : list ascii) : outcome Z :=
  let body := PyVal.strip s in
  let '(neg, ds) :=
    match body with
    | c :: rest =>
        if Ascii.eqb c "-"%char then (true, rest)
        else if Ascii.eqb c "+"%char then (false, rest)
        else (false, body)
    | [] => (false, [])
    end in
  let ds :=
    match ds with
    | z :: x :: rest =>
        if Ascii.eqb z "0"%char && (Ascii.eqb x "x"%char || Ascii.eqb x "X"%char) then
          match rest with
          | u :: rest' => if Ascii.eqb u "_"%char then rest' else rest
          | [] => rest
          end
        else ds
    | _ => ds
    end in
  match hex_digits ds 0 false with
  | Some z => Ok (if neg then - z else z)
  | None => raise ValueError
  end.

(** [h.lstrip("#")] *)
Fixpoint lstrip_hash (s : list ascii) : list ascii :=
  match s with
  | c :: s' => if Ascii.eqb c "#"%char then lstrip_hash s' else s
  | [] => []
  end.

Definition hex_to_rgba (h : string) : outcome (Z * Z * Z * Z) :=
  let h := lstrip_hash (list_ascii_of_string h) in
  if (length h =? 8)%nat then
    let* r := int_base16 (PyVal.slice h 0 2) in
    let* g := int_base16 (PyVal.slice h 2 4) in
    let* b := int_base16 (PyVal.slice h 4 6) in
    let* a := int_base16 (PyVal.slice h 6 8) in
    Ok (r, g, b, a)
  else if (length h =? 6)%nat then
    let* r := int_base16 (PyVal.slice h 0 2) in
    let* g := int_base16 (PyVal.slice h 2 4) in
    let* b := int_base16 (PyVal.slice h 4 6) in
    Ok (r, g, b, 255)
  else raise ValueError.

(** The value of a hexadecimal digit, and of two of them. *)
Definition hex_value (c : ascii) : Z := default 0 (hex_digit c).
Definition hex_byte (c1 c2 : ascii) : Z := 16 * hex_value c1 + hex_value c2.

(** Whether [int_base16] reads two hexadecimal digits as their value. *)
Definition reads_hex_byte (c1 c2 : ascii) : bool :=
  match hex_digit c1, hex_digit c2 with
  | Some _, Some _ =>
      match int_base16 [c1; c2] with
      | Ok z => (z =? hex_byte c1 c2) && (0 <=? z) && (z <=? 255)
      | Fail _ => false
      end
  | _, _ => true
  end.

(** A colour string: some [#] and then the characters [body]. *)
Definition colour_string (hashes : nat) (body : list ascii) : string :=
  string_of_list_ascii (replicate hashes "#"%char ++ body).

(** ** The layer a drawing op works on *)

(** The ops that replace layers, or change which layer is current. *)
Definition layer_ops : list string :=
  ["clear"; "layer_begin"; "layer_end"; "layer_merge"; "copy_layer"].

(** [st'] differs from [st] at most in the current layer, which it may
    have created at the end of the order. *)
Definition only_current_changed (st st' : state) : Prop :=
  current st' = current st
  /\ (forall n, n <> current st -> layers st' !! n = layers st !! n)
  /\ (layer_order st' = layer_order st
      \/ (layers st !! current st = None
          /\ layer_order st' = (layer_order st ++ [current st])%list)).

(** ** Outlines *)

(** The pixels a mask covers: those where it is not zero. *)
Definition covered (w : Z) (mask : list Z) (x y : Z) : bool :=
  negb (mask !!! pixel_index w x y =? 0).

(** One round of growth: a pixel is covered afterwards when it was, or
    when one of its four neighbours on the canvas was. *)
Definition spread (w h : Z) (f : Z -> Z -> bool) (x y : Z) : bool :=
  f x y
  || existsb (fun '(dx, dy) => in_bounds (x + dx) (y + dy) w h && f (x + dx) (y + dy))
       [(1, 0); (-1, 0); (0, 1); (0, -1)].

(** [n] rounds of growth. *)
Fixpoint reached (w h : Z) (n : nat) (f : Z -> Z -> bool) : Z -> Z -> bool :=
  match n with
  | O => f
  | S n' => spread w h (reached w h n' f)
  end.

(** A pixel becomes covered in this round. *)
Definition newly (w h : Z) (work : list Z) (x y : Z) : bool :=
  negb (covered w work x y) && spread w h (covered w work) x y.

(** * Proofs *)

(** ** The validator lets unvalidated ops through (C1) *)

(** C1, at the failing input: the validator checks the ops of a concrete
    frame against the op table, but not the [append_ops] (or overrides) of
    a derived frame. This document is accepted in both modes, it resolves,
    and rendering its second frame raises [ValueError("Unknown op: bogus")],
    which is none of the runtime checks on [shade_band] and
    [noise_points]. *)
Theorem validated_document_raises_unknown_op :
  let doc := document 1 1 ["#000000"] frames_appending_unknown_op in
  validate_sprite doc false = Ok []
  /\ validate_sprite doc true = Ok []
  /\ process_frame_inheritance frames_appending_unknown_op
     = Ok [JList [int_op "clear" [0]];
           JList [int_op "clear" [0]; JList [JStr "bogus"]]]
  /\ render_resolved (JList [int_op "clear" [0]; JList [JStr "bogus"]]) 1 1
     = Fail (Exn (UnknownOp (JStr "bogus"))).
Proof. repeat split; vm_compute; reflexivity. Qed.

(** ** Gradient scenario (C3) *)

(** The claim, at its own input. *)
Lemma gradient_linear_scenario_is_not_1122 :
  exec (gradient_linear 4 1 [1; 2] 0 0 3 0) [0; 0; 0; 0] <> Ok [1; 1; 2; 2].
Proof. vm_compute. discriminate. Qed.

(** C3, amended: on a 4x1 canvas [gradient_linear] from (0,0) to (3,0)
    with index list [[1,2]] leaves [[1,1,1,2]], whatever the buffer held;
    so does the op [["gradient_linear", "1,2", 0, 0, 3, 0]] in a frame. *)
Theorem gradient_linear_scenario (a b c d : Z) :
  exec (gradient_linear 4 1 [1; 2] 0 0 3 0) [a; b; c; d] = Ok [1; 1; 1; 2]
  /\ render_frame [JList [JStr "gradient_linear"; JStr "1,2"; JInt 0; JInt 0; JInt 3; JInt 0]]
       4 1 = Ok [1; 1; 1; 2].
Proof. split; vm_compute; reflexivity. Qed.

(** ** Overrides before the start of the base (C5) *)

(** C5, at the failing input: the resolver guards an override with
    [op_idx < len(base_ops)] only. With [op_index = -2] on a base of one
    op the assignment [base_ops[-2] = ...] raises [IndexError]; the
    override is not ignored. The validator accepts the document. *)
Theorem override_before_start_raises :
  validate_sprite (document 1 1 ["#000000"] frames_overriding_before_start) false = Ok []
  /\ process_frame_inheritance frames_overriding_before_start = Fail (Exn IndexError).
Proof. split; vm_compute; reflexivity. Qed.

(** ** [ops] together with [base] (C6) *)

(** The claim, at a document whose frame 1 has both [base] and [ops]: no
    diagnostic at all. *)
Lemma base_and_ops_accepted :
  validate_sprite (document 1 1 ["#000000"] frames_base_and_ops) false = Ok [].
Proof. vm_compute. reflexivity. Qed.

(** C6, amended: for a frame that has both [base] and [ops], the
    validator's diagnostics are those about [base] alone ([base] not an
    integer, or not less than the frame's index); [ops] draws none, and
    it stands in for [overrides] and [append_ops]. *)
Theorem validate_frame_base_and_ops (items : list (string * json)) (base ops : json)
    (frame_idx palette_size : Z) (strict : bool) :
  PyVal.lookup_key "base" items = Some base ->
  PyVal.lookup_key "ops" items = Some ops ->
  validate_frame (JDict items) frame_idx palette_size strict
  = Ok (base_diagnostics base frame_idx).
Proof.
  intros Hb Ho. unfold validate_frame, base_diagnostics. cbn.
  rewrite Hb, Ho. reflexivity.
Qed.

Lemma validate_frame_base_and_ops_witness :
  validate_frame (JDict [("base", JInt 0); ("ops", JList [])]) 1 1 false
  = Ok (base_diagnostics (JInt 0) 1).
Proof.
  apply (validate_frame_base_and_ops
           [("base", JInt 0); ("ops", JList [])] (JInt 0) (JList []) 1 1 false);
    reflexivity.
Defined.

(** ** Python list indexing *)

Lemma index_in_range {A} (l : list A) (i : Z) :
  0 <= i < Z.of_nat (length l) -> PyVal.index l i = Some (Z.to_nat i).
Proof.
  intros H. unfold PyVal.index.
  destruct (Z.leb_spec 0 i); [|lia].
  destruct (Z.ltb_spec i (Z.of_nat (length l))); [|lia].
  reflexivity.
Qed.

Lemma index_Some_lt {A} (l : list A) (i : Z) (k : nat) :
  PyVal.index l i = Some k -> (k < length l)%nat.
Proof.
  unfold PyVal.index. intros H.
  destruct (Z.leb_spec 0 i), (Z.ltb_spec i (Z.of_nat (length l))); cbn in H;
    try (injection H as <-; lia);
    destruct (Z.leb_spec (- Z.of_nat (length l)) i), (Z.ltb_spec i 0); cbn in H;
    try discriminate; injection H as <-; lia.
Qed.

Lemma get_in_range (l : list Z) (i : Z) :
  0 <= i < Z.of_nat (length l) -> PyVal.get l i = Ok (l !!! Z.to_nat i).
Proof.
  intros H. unfold PyVal.get. rewrite index_in_range by assumption.
  rewrite (list_lookup_lookup_total_lt l (Z.to_nat i)) by lia. reflexivity.
Qed.

Lemma set_in_range {A} (l : list A) (i : Z) (v : A) :
  0 <= i < Z.of_nat (length l) -> PyVal.set l i v = Ok (<[Z.to_nat i := v]> l).
Proof. intros H. unfold PyVal.set. rewrite index_in_range by assumption. reflexivity. Qed.

Lemma set_length {A} (l l' : list A) (i : Z) (v : A) :
  PyVal.set l i v = Ok l' -> length l' = length l.
Proof.
  unfold PyVal.set. destruct (PyVal.index l i); [|discriminate].
  intros [= <-]. apply length_insert.
Qed.

(** ** Noise points (C2) *)

Lemma lcg_next_mod (x : Z) : lcg_next x = (1103515245 * x + 12345) mod 2 ^ 31.
Proof. unfold lcg_next. change 2147483647 with (Z.ones 31). apply Z.land_ones. lia. Qed.

Lemma elem_of_enumerate_from (k i v : Z) (l : list Z) :
  (i, v) ∈ zip (seqZ k (Z.of_nat (length l))) l
  <-> k <= i /\ l !! Z.to_nat (i - k) = Some v.
Proof.
  revert k. induction l as [|a l IH]; intros k.
  - cbn. rewrite zip_with_nil_r. split; [intros H; inversion H|intros [_ H]; discriminate].
  - cbn [length]. rewrite Nat2Z.inj_succ, seqZ_cons by lia.
    replace (Z.pred (Z.succ (Z.of_nat (length l)))) with (Z.of_nat (length l)) by lia.
    cbn. rewrite elem_of_cons, IH. split.
    + intros [[= -> ->]|[Hk Hl]].
      * split; [lia|]. replace (Z.to_nat (k - k)) with 0%nat by lia. reflexivity.
      * split; [lia|]. replace (Z.to_nat (i - k)) with (S (Z.to_nat (i - Z.succ k))) by lia.
        exact Hl.
    + intros [Hk Hl]. destruct (decide (i = k)) as [->|Hne].
      * left. replace (Z.to_nat (k - k)) with 0%nat in Hl by lia. cbn in Hl. congruence.
      * right. split; [lia|].
        replace (Z.to_nat (i - k)) with (S (Z.to_nat (i - Z.succ k))) in Hl by lia.
        exact Hl.
Qed.

(** The eligible list holds exactly the indices of the non-zero mask
    pixels. *)
Lemma elem_of_eligible (mask : list Z) (i : Z) :
  i ∈ eligible_of mask
  <-> 0 <= i /\ exists v, mask !! Z.to_nat i = Some v /\ v <> 0.
Proof.
  unfold eligible_of, Layers.enumerate. rewrite list_elem_of_fmap. split.
  - intros [[j v] [-> H]]. apply list_elem_of_filter in H as [Hv H].
    apply elem_of_enumerate_from in H as [Hj H]. cbn in *.
    replace (j - 0) with j in H by lia. eauto.
  - intros [Hi [v [Hv Hne]]]. exists (i, v). split; [reflexivity|].
    apply list_elem_of_filter. split; [exact Hne|].
    apply elem_of_enumerate_from. replace (i - 0) with i by lia. auto.
Qed.

Lemma eligible_from_sorted (k : Z) (l : list Z) :
  StronglySorted Z.lt
    (fst <$> filter (fun iv : Z * Z => iv.2 <> 0) (zip (seqZ k (Z.of_nat (length l))) l)).
Proof.
  revert k. induction l as [|a l IH]; intros k.
  - cbn. rewrite zip_with_nil_r. constructor.
  - cbn [length]. rewrite Nat2Z.inj_succ, seqZ_cons by lia.
    replace (Z.pred (Z.succ (Z.of_nat (length l)))) with (Z.of_nat (length l)) by lia.
    cbn [zip_with]. rewrite filter_cons. destruct (decide ((k, a).2 <> 0)).
    + cbn [fmap list_fmap fst]. constructor; [apply IH|].
      apply Forall_forall. intros i Hi. apply list_elem_of_fmap in Hi as [[j v] [-> H]].
      apply list_elem_of_filter in H as [_ H].
      apply elem_of_enumerate_from in H as [Hj _]. cbn. lia.
    + apply IH.
Qed.

(** Row-major order: the eligible indices come in increasing order. *)
Lemma eligible_sorted (mask : list Z) : StronglySorted Z.lt (eligible_of mask).
Proof. apply eligible_from_sorted. Qed.

Lemma eligible_lookup_bound (mask : list Z) (k : nat) :
  (k < length (eligible_of mask))%nat ->
  0 <= eligible_of mask !!! k < Z.of_nat (length mask).
Proof.
  intros Hk.
  assert (H : eligible_of mask !!! k ∈ eligible_of mask)
    by (apply list_elem_of_lookup_total_2; exact Hk).
  apply elem_of_eligible in H as [H0 [v [Hv _]]].
  apply lookup_lt_Some in Hv. lia.
Qed.

Lemma paint_length (c : Z) (picks buf : list Z) : length (paint c picks buf) = length buf.
Proof.
  unfold paint. revert buf. induction picks as [|i picks IH]; intros buf; cbn; [reflexivity|].
  rewrite IH. apply length_insert.
Qed.

(** A painted buffer holds [c] at the picked pixels and is unchanged
    elsewhere. *)
Lemma paint_lookup (c : Z) (picks buf : list Z) (j : nat) :
  Forall (fun i => 0 <= i) picks ->
  paint c picks buf !! j
  = if decide (Z.of_nat j ∈ picks) then (fun _ => c) <$> buf !! j else buf !! j.
Proof.
  unfold paint. revert buf. induction picks as [|i picks IH]; intros buf Hpos; cbn.
  - rewrite decide_False by (intros H; inversion H). reflexivity.
  - apply Forall_cons in Hpos as [Hi Hpos]. rewrite IH by exact Hpos.
    destruct (decide (Z.of_nat j ∈ picks)) as [Hin|Hnin].
    + rewrite decide_True by (apply elem_of_cons; right; exact Hin).
      destruct (decide (Z.to_nat i = j)) as [<-|Hne].
      * destruct (decide (Z.to_nat i < length buf)%nat).
        -- rewrite list_lookup_insert_eq by assumption.
           rewrite (list_lookup_lookup_total_lt buf (Z.to_nat i)) by assumption. reflexivity.
        -- rewrite list_insert_ge by lia. reflexivity.
      * rewrite list_lookup_insert_ne by assumption. reflexivity.
    + destruct (decide (Z.to_nat i = j)) as [<-|Hne].
      * rewrite decide_True by (apply elem_of_cons; left; lia).
        destruct (decide (Z.to_nat i < length buf)%nat).
        -- rewrite list_lookup_insert_eq by assumption.
           rewrite (list_lookup_lookup_total_lt buf (Z.to_nat i)) by assumption. reflexivity.
        -- rewrite list_insert_ge by lia. rewrite !lookup_ge_None_2 by lia. reflexivity.
      * rewrite decide_False by (intros H; apply elem_of_cons in H as [H|H]; [lia|tauto]).
        rewrite list_lookup_insert_ne by assumption. reflexivity.
Qed.

(** The loop of [noise_points], from the generator's state after [from]
    steps. *)
Lemma noise_loop_run (n from : nat) (mask : list Z) (c seed : Z) (m : mem) :
  eligible_of mask <> [] ->
  length (cells m) = length mask ->
  noise_loop n (eligible_of mask) c (lcg_state seed from) m
  = (Ok tt, Mem (paint c (noise_picks (eligible_of mask) seed from n) (cells m))
                (rev (noise_picks (eligible_of mask) seed from n) ++ writes m)).
Proof.
  intros Hne. revert from m. induction n as [|n IH]; intros from m Hlen.
  - cbn. destruct m; reflexivity.
  - cbn [noise_loop]. unfold Buf.bind at 1. unfold lift at 1.
    rewrite lcg_next_mod. change ((1103515245 * lcg_state seed from + 12345) mod 2 ^ 31)
      with (lcg_state seed (S from)).
    set (len := Z.of_nat (length (eligible_of mask))).
    assert (Hlenpos : 0 < len)
      by (subst len; destruct (eligible_of mask); [congruence|cbn; lia]).
    assert (Hmod : 0 <= lcg_state seed (S from) mod len < len)
      by (apply Z.mod_pos_bound; exact Hlenpos).
    rewrite get_in_range by exact Hmod.
    fold (noise_pick (eligible_of mask) seed (S from)).
    assert (Hpick : 0 <= noise_pick (eligible_of mask) seed (S from)
                    < Z.of_nat (length mask))
      by (apply eligible_lookup_bound; subst len; lia).
    unfold Buf.bind at 1. unfold store at 1.
    rewrite set_in_range by (rewrite Hlen; exact Hpick).
    rewrite IH by (cbn; rewrite length_insert; exact Hlen).
    cbn [cells writes]. unfold noise_picks. cbn [seq fmap list_fmap paint fold_left rev].
    rewrite <- app_assoc. reflexivity.
Qed.



(** ** Merging layers *)

Lemma fold_m_app {A S} (f : S -> A -> outcome S) (l1 l2 : list A) (s : S) :
  fold_m f (l1 ++ l2) s = (let* s' := fold_m f l1 s in fold_m f l2 s').
Proof.
  revert s. induction l1 as [|a l1 IH]; intros s; cbn; [reflexivity|].
  destruct (f s a); cbn; [apply IH|reflexivity].
Qed.

Lemma overlay_length (src out : list Z) : length (overlay src out) = length out.
Proof.
  revert out. induction src as [|s src IH]; intros [|o out]; cbn; try reflexivity.
  rewrite IH. reflexivity.
Qed.

Lemma overlay_zeros (src : list Z) (n : nat) :
  length src = n -> overlay src (replicate n 0) = src.
Proof.
  revert n. induction src as [|s src IH]; intros [|n] Hn; cbn in *; try congruence.
  rewrite IH by congruence. destruct (Z.eqb_spec s 0); congruence.
Qed.

Lemma overlay_lookup (src out : list Z) (i : nat) (v : Z) :
  length src = length out ->
  src !! i = Some v ->
  overlay src out !! i = if v =? 0 then out !! i else Some v.
Proof.
  revert out i. induction src as [|s src IH]; intros [|o out] [|i] Hlen Hv; cbn in *;
    try discriminate.
  - injection Hv as ->. destruct (v =? 0); reflexivity.
  - apply IH; [congruence|exact Hv].
Qed.

(** One round of [merge_layers], started after a prefix [pre] that was
    already visited. *)
Lemma merge_round_from (pre src out : list Z) :
  (length src <= length out)%nat ->
  fold_m (fun (o : list Z) '(i, v) => if negb (v =? 0) then PyVal.set o i v else Ok o)
         (zip (seqZ (Z.of_nat (length pre)) (Z.of_nat (length src))) src) (pre ++ out)
  = Ok (pre ++ overlay src out).
Proof.
  revert pre out. induction src as [|s src IH]; intros pre out Hlen.
  - cbn. rewrite zip_with_nil_r. destruct out; reflexivity.
  - destruct out as [|o out]; [cbn in Hlen; lia|].
    cbn [length]. rewrite Nat2Z.inj_succ, seqZ_cons by lia.
    replace (Z.pred (Z.succ (Z.of_nat (length src)))) with (Z.of_nat (length src)) by lia.
    cbn [zip_with fold_m overlay].
    assert (Hstep : (if negb (s =? 0)
                     then PyVal.set (pre ++ o :: out) (Z.of_nat (length pre)) s
                     else Ok (pre ++ o :: out))
                    = Ok ((pre ++ [if s =? 0 then o else s]) ++ out)).
    { destruct (s =? 0); cbn [negb].
      - rewrite <- app_assoc. reflexivity.
      - rewrite set_in_range by (rewrite length_app; cbn; lia).
        rewrite Nat2Z.id, insert_app_r_alt, Nat.sub_diag by lia. cbn.
        rewrite <- app_assoc. reflexivity. }
    rewrite Hstep. cbn [Py.bind].
    replace (Z.succ (Z.of_nat (length pre)))
      with (Z.of_nat (length (pre ++ [if s =? 0 then o else s])))
      by (rewrite length_app; cbn; lia).
    rewrite IH by (cbn in Hlen; lia).
    rewrite <- app_assoc. reflexivity.
Qed.

Lemma merge_round (src out : list Z) :
  (length src <= length out)%nat ->
  fold_m (fun (o : list Z) '(i, v) => if negb (v =? 0) then PyVal.set o i v else Ok o)
         (Layers.enumerate src) out
  = Ok (overlay src out).
Proof. intros H. apply (merge_round_from [] src out H). Qed.

Lemma merge_round_length (l : list (Z * Z)) (out out' : list Z) :
  fold_m (fun (o : list Z) '(i, v) => if negb (v =? 0) then PyVal.set o i v else Ok o) l out
  = Ok out' ->
  length out' = length out.
Proof.
  revert out. induction l as [|[i v] l IH]; intros out H; cbn in H.
  - congruence.
  - destruct (negb (v =? 0)).
    + destruct (PyVal.set out i v) as [o|] eqn:E; cbn in H; [|discriminate].
      rewrite (IH _ H). eapply set_length, E.
    + cbn in H. apply IH, H.
Qed.

(** The merged view has [w * h] pixels. *)
Lemma merge_layers_length (ls : gmap string (list Z)) (order : list string) (w h : Z)
    (m : list Z) :
  merge_layers ls order w h = Ok m -> length m = Z.to_nat (w * h).
Proof.
  unfold merge_layers.
  assert (Hgen : forall out, fold_m
            (fun out lname =>
               match ls !! lname with
               | Some src =>
                   fold_m (fun (o : list Z) '(i, v) =>
                             if negb (v =? 0) then PyVal.set o i v else Ok o)
                          (Layers.enumerate src) out
               | None => Ok out
               end) order out = Ok m -> length m = length out).
  { induction order as [|n order IH]; intros out H; cbn in H; [congruence|].
    destruct (ls !! n) as [src|].
    - destruct (fold_m _ (Layers.enumerate src) out) as [o|] eqn:E; cbn in H; [|discriminate].
      rewrite (IH _ H). eapply merge_round_length, E.
    - cbn in H. apply IH, H. }
  intros H. rewrite (Hgen _ H). unfold filled. apply length_replicate.
Qed.

(** ** [layer_merge] into another layer, then [layer_end] (C9) *)

(** C9: [layer_merge t] with [t <> "base"] leaves the single layer [t]
    (no ["base"], order [[t]], current [t]); [layer_end] then makes
    ["base"] current although it does not exist; the next drawing op
    (any primitive run through [ensure_layer], such as [pixel]) recreates
    ["base"] zero-filled and appends it after [t]; and the merged view of
    the result is the new ["base"] laid over [t]: its non-zero pixels
    overwrite [t]'s. *)
Theorem layer_merge_then_layer_end_recreates_base
    (w h : Z) (st : state) (t : string) (m : list Z) (prim : M unit) (buf' : list Z) :
  t <> "base" ->
  merged st w h = Ok m ->
  exec prim (filled 0 w h) = Ok buf' ->
  length buf' = Z.to_nat (w * h) ->
  let st1 := State {[ t := m ]} [t] t in
  let st2 := State {[ t := m ]} [t] "base" in
  let st3 := State (<["base" := buf']> {[ t := m ]}) [t; "base"] "base" in
  step w h st (JList [JStr "layer_merge"; JStr t]) = Ok st1
  /\ layers st1 !! "base" = None
  /\ step w h st1 (JList [JStr "layer_end"]) = Ok st2
  /\ ensure_layer (layers st2) (layer_order st2) (current st2) w h
     = (<["base" := filled 0 w h]> {[ t := m ]}, [t; "base"], filled 0 w h)
  /\ draw st2 w h prim = Ok st3
  /\ (forall c x y, step w h st2 (int_op "pixel" [c; x; y]) = draw st2 w h (plot w h c x y))
  /\ merged st3 w h = Ok (overlay buf' m)
  /\ (forall (i : nat) (v : Z),
        buf' !! i = Some v -> overlay buf' m !! i = if v =? 0 then m !! i else Some v).
Proof.
  intros Ht Hm Hprim Hlen st1 st2 st3.
  assert (Hml : length m = Z.to_nat (w * h)) by (eapply merge_layers_length, Hm).
  assert (Hnone : ({[ t := m ]} : gmap string (list Z)) !! "base" = None)
    by (apply lookup_singleton_ne; exact Ht).
  assert (Hens : ensure_layer (layers st2) (layer_order st2) (current st2) w h
                 = (<["base" := filled 0 w h]> {[ t := m ]}, [t; "base"], filled 0 w h)).
  { unfold ensure_layer. cbn [layers layer_order current st2]. rewrite Hnone. reflexivity. }
  split.
  { unfold step. cbn -[merged]. rewrite Hm. reflexivity. }
  split; [exact Hnone|].
  split; [reflexivity|].
  split; [exact Hens|].
  split.
  { unfold draw. rewrite Hens, Hprim. cbn [Py.bind current st2].
    rewrite insert_insert_eq. reflexivity. }
  split; [intros c x y; reflexivity|].
  split.
  - unfold merged, merge_layers. cbn [layers layer_order st3 fold_m].
    rewrite lookup_insert_ne by congruence. rewrite lookup_singleton_eq.
    rewrite merge_round by (unfold filled; rewrite length_replicate; lia).
    cbn [Py.bind]. rewrite lookup_insert_eq.
    unfold filled. rewrite overlay_zeros by exact Hml.
    rewrite merge_round by lia. reflexivity.
  - intros i v Hv. apply overlay_lookup; [lia|exact Hv].
Qed.

Lemma layer_merge_then_layer_end_recreates_base_witness :
  let st1 := State {[ "ink" := [5; 0] ]} ["ink"] "ink" in
  let st2 := State {[ "ink" := [5; 0] ]} ["ink"] "base" in
  let st3 := State (<["base" := [7; 0]]> {[ "ink" := [5; 0] ]}) ["ink"; "base"] "base" in
  step 2 1 (State {[ "base" := [5; 0] ]} ["base"] "base")
       (JList [JStr "layer_merge"; JStr "ink"]) = Ok st1
  /\ layers st1 !! "base" = None
  /\ step 2 1 st1 (JList [JStr "layer_end"]) = Ok st2
  /\ ensure_layer (layers st2) (layer_order st2) (current st2) 2 1
     = (<["base" := filled 0 2 1]> {[ "ink" := [5; 0] ]}, ["ink"; "base"], filled 0 2 1)
  /\ draw st2 2 1 (plot 2 1 7 0 0) = Ok st3
  /\ (forall c x y, step 2 1 st2 (int_op "pixel" [c; x; y]) = draw st2 2 1 (plot 2 1 c x y))
  /\ merged st3 2 1 = Ok (overlay [7; 0] [5; 0])
  /\ (forall (i : nat) (v : Z),
        [7; 0] !! i = Some v -> overlay [7; 0] [5; 0] !! i = if v =? 0 then [5; 0] !! i else Some v).
Proof.
  apply (layer_merge_then_layer_end_recreates_base 2 1
           (State {[ "base" := [5; 0] ]} ["base"] "base") "ink" [5; 0]
           (plot 2 1 7 0 0) [7; 0]);
    [discriminate | vm_compute; reflexivity | vm_compute; reflexivity | reflexivity].
Defined.

(** ** Derived frames in the validator and the resolver *)

(** What [validate_frame] reports for a frame with a [base]. *)
Lemma validate_frame_derived (items : list (string * json)) (base : json)
    (frame_idx palette_size : Z) (strict : bool) :
  PyVal.lookup_key "base" items = Some base ->
  validate_frame (JDict items) frame_idx palette_size strict
  = Ok (base_diagnostics base frame_idx
        ++ if has_changes items then []
           else [Diag InheritedNeedsChanges (Some frame_idx) None]).
Proof.
  intros Hb. unfold validate_frame, base_diagnostics, has_changes. cbn.
  rewrite Hb. cbn.
  destruct (bool_decide (is_Some (PyVal.lookup_key "ops" items))); cbn;
    [rewrite app_nil_r; reflexivity|].
  destruct (bool_decide (is_Some (PyVal.lookup_key "overrides" items))); cbn;
    [rewrite app_nil_r; reflexivity|].
  destruct (bool_decide (is_Some (PyVal.lookup_key "append_ops" items))); cbn;
    [rewrite app_nil_r|]; reflexivity.
Qed.

Lemma resolve_more_length (frames acc P : list json) :
  resolve_more frames acc = Ok P -> length P = (length acc + length frames)%nat.
Proof.
  unfold resolve_more. revert acc. induction frames as [|fr frames IH]; intros acc H; cbn in H.
  - injection H as <-. cbn. lia.
  - destruct (resolve_frame acc fr) as [ops|]; cbn in H; [|discriminate].
    rewrite (IH _ H), length_app. cbn. lia.
Qed.

(** [lst[-k]] is [lst[len(lst) - k]]. *)
Lemma get_negative {A} (l : list A) (k : Z) (a : A) :
  1 <= k <= Z.of_nat (length l) ->
  l !! Z.to_nat (Z.of_nat (length l) - k) = Some a ->
  PyVal.get l (- k) = Ok a.
Proof.
  intros Hk Ha. unfold PyVal.get, PyVal.index.
  destruct (Z.leb_spec 0 (- k)); [lia|]. cbn [andb].
  destruct (Z.leb_spec (- Z.of_nat (length l)) (- k)); [|lia].
  destruct (Z.ltb_spec (- k) 0); [|lia]. cbn [andb].
  replace (Z.of_nat (length l) + - k) with (Z.of_nat (length l) - k) by lia.
  rewrite Ha. reflexivity.
Qed.

(** ** A negative [base] (C10) *)

(** C10: for the frame at index [i] with [base = -k], [1 <= k <= i], the
    validator reports nothing about [base] (its only possible diagnostic
    is the one about missing [overrides]/[append_ops]), and the resolver,
    whose list of resolved frames has [i] entries at that point, takes
    [processed_ops[-k]], the resolved ops of frame [i - k], and derives
    the frame from them. *)
Theorem negative_base_resolves_from_earlier_frame
    (pre post P : list json) (items : list (string * json)) (k palette_size : Z)
    (strict : bool) :
  let i := Z.of_nat (length pre) in
  PyVal.lookup_key "base" items = Some (JInt (- k)) ->
  1 <= k <= i ->
  process_frame_inheritance pre = Ok P ->
  base_diagnostics (JInt (- k)) i = []
  /\ validate_frame (JDict items) i palette_size strict
     = Ok (if has_changes items then []
           else [Diag InheritedNeedsChanges (Some i) None])
  /\ Z.of_nat (length P) = i
  /\ exists base,
       P !! Z.to_nat (i - k) = Some base
       /\ PyVal.get P (- k) = Ok base
       /\ resolve_frame P (JDict items) = derive base (JDict items)
       /\ process_frame_inheritance (pre ++ JDict items :: post)
          = (let* ops := derive base (JDict items) in resolve_more post (P ++ [ops])).
Proof.
  intros i Hb Hk HP.
  assert (Hdiag : base_diagnostics (JInt (- k)) i = []).
  { unfold base_diagnostics. cbn. destruct (Z.geb_spec (- k) i); [lia|reflexivity]. }
  assert (Hlen : Z.of_nat (length P) = i).
  { apply resolve_more_length in HP. cbn in HP. subst i. lia. }
  split; [exact Hdiag|].
  split; [rewrite (validate_frame_derived items (JInt (- k))) by exact Hb;
          rewrite Hdiag; reflexivity|].
  split; [exact Hlen|].
  destruct (lookup_lt_is_Some_2 P (Z.to_nat (i - k))) as [base Hbase]; [lia|].
  assert (Hget : PyVal.get P (- k) = Ok base).
  { apply get_negative; [lia|]. rewrite Hlen. exact Hbase. }
  assert (Hres : resolve_frame P (JDict items) = derive base (JDict items)).
  { unfold resolve_frame. cbn. rewrite Hb. cbn. rewrite Hget. reflexivity. }
  exists base. repeat split; try assumption.
  unfold process_frame_inheritance in *. rewrite fold_m_app.
  change (fold_m _ pre []) with (resolve_more pre []).
  unfold resolve_more. rewrite HP. cbn [Py.bind fold_m]. rewrite Hres.
  destruct (derive base (JDict items)); reflexivity.
Qed.

Lemma negative_base_resolves_from_earlier_frame_witness :
  let pre := [JDict [("ops", JList [int_op "clear" [0]])];
              JDict [("ops", JList [int_op "clear" [1]])]] in
  let items := [("base", JInt (- 2)); ("append_ops", JList [int_op "pixel" [1; 0; 0]])] in
  let P := [JList [int_op "clear" [0]]; JList [int_op "clear" [1]]] in
  let i := Z.of_nat (length pre) in
  base_diagnostics (JInt (- 2)) i = []
  /\ validate_frame (JDict items) i 2 false
     = Ok (if has_changes items then []
           else [Diag InheritedNeedsChanges (Some i) None])
  /\ Z.of_nat (length P) = i
  /\ exists base,
       P !! Z.to_nat (i - 2) = Some base
       /\ PyVal.get P (- 2) = Ok base
       /\ resolve_frame P (JDict items) = derive base (JDict items)
       /\ process_frame_inheritance (pre ++ JDict items :: [])
          = (let* ops := derive base (JDict items) in resolve_more [] (P ++ [ops])).
Proof.
  apply (negative_base_resolves_from_earlier_frame
           [JDict [("ops", JList [int_op "clear" [0]])];
            JDict [("ops", JList [int_op "clear" [1]])]]
           []
           [JList [int_op "clear" [0]]; JList [int_op "clear" [1]]]
           [("base", JInt (- 2)); ("append_ops", JList [int_op "pixel" [1; 0; 0]])]
           2 2 false);
    [reflexivity | cbn; lia | reflexivity].
Defined.

(** ** Loops that write nothing *)

Lemma bind_run {A B} (c : M A) (k : A -> M B) (m : mem) :
  Buf.bind c k m = match c m with
                   | (Ok a, m') => k a m'
                   | (Fail f, m') => (Fail f, m')
                   end.
Proof. reflexivity. Qed.

Lemma for_each_quiet {A} (l : list A) (body : A -> M unit) (m : mem) :
  (forall a, a ∈ l -> quiet (body a) m) -> quiet (for_each l body) m.
Proof.
  unfold quiet. induction l as [|a l IH]; intros H; cbn [for_each].
  - left. reflexivity.
  - rewrite bind_run. destruct (H a) as [E|[e E]]; [left| |]; rewrite E.
    + apply IH. intros b Hb. apply H. right. exact Hb.
    + right. eauto.
Qed.

Lemma for_each_quiet_raises {A} (l : list A) (body : A -> M unit) (m : mem) (a : A) :
  (forall b, b ∈ l -> quiet (body b) m) ->
  a ∈ l ->
  (exists e, body a m = (Fail (Exn e), m)) ->
  exists e, for_each l body m = (Fail (Exn e), m).
Proof.
  unfold quiet. induction l as [|b l IH]; intros H Ha Hr; [inversion Ha|].
  cbn [for_each]. rewrite bind_run.
  destruct (H b) as [E|[e E]]; [left| |]; rewrite E; [|eauto].
  apply elem_of_cons in Ha as [->|Ha].
  - destruct Hr as [e Hr]. congruence.
  - apply IH; [|exact Ha|exact Hr]. intros c Hc. apply H. right. exact Hc.
Qed.

Lemma elem_of_range (a b i : Z) : i ∈ range a b <-> a <= i < b.
Proof.
  unfold range. rewrite list_elem_of_lookup. split.
  - intros [k Hk]. apply lookup_seqZ in Hk. lia.
  - intros H. exists (Z.to_nat (i - a)). apply lookup_seqZ. lia.
Qed.

Lemma get_outcome {A} (l : list A) (i : Z) :
  (exists a, PyVal.get l i = Ok a) \/ PyVal.get l i = Fail (Exn IndexError).
Proof.
  unfold PyVal.get. destruct (PyVal.index l i) as [k|]; [|right; reflexivity].
  destruct (l !! k); [left; eauto|right; reflexivity].
Qed.

Lemma mask_get_content (mk : maskref) (i : Z) (m : mem) :
  mask_get mk i m = (PyVal.get (mask_content mk m) i, m).
Proof. destruct mk; reflexivity. Qed.

(** ** [shade_band] with an unsupported side *)

(** With an unsupported side, the body of [shade_band]'s loops skips a
    zero mask pixel and raises at any other one; it never writes. *)
Lemma shade_band_raises (mk : maskref) (w h c thickness : Z) (side : string)
    (m : mem) (i v : Z) :
  supported_side (PyVal.lower side) = false ->
  0 < w -> 0 <= i < w * h ->
  mask_content mk m !! Z.to_nat i = Some v -> v <> 0 ->
  exists e, shade_band mk w h c side thickness m = (Fail (Exn e), m).
Proof.
  intros Hside Hw Hi Hv Hne.
  assert (Hs : String.eqb (PyVal.lower side) "right" = false
               /\ String.eqb (PyVal.lower side) "bottom" = false
               /\ String.eqb (PyVal.lower side) "top_left" = false
               /\ String.eqb (PyVal.lower side) "edge" = false).
  { unfold supported_side in Hside. apply bool_decide_eq_false in Hside.
    repeat split; apply String.eqb_neq; intros E; apply Hside; rewrite E;
      repeat constructor. }
  destruct Hs as (Hs1 & Hs2 & Hs3 & Hs4).
  assert (Hbody : forall x y,
            quiet (let idx := y * w + x in
                   let! v := mask_get mk idx in
                   if v =? 0 then skip
                   else if String.eqb (PyVal.lower side) "right" then
                     let! near := near_right mk w x y thickness in
                     if (near : bool) then store idx c else skip
                   else if String.eqb (PyVal.lower side) "bottom" then
                     let! near := near_bottom mk w h x y thickness in
                     if (near : bool) then store idx c else skip
                   else if String.eqb (PyVal.lower side) "top_left" then
                     let! near := near_top_left mk w x y thickness in
                     if (near : bool) then store idx c else skip
                   else if String.eqb (PyVal.lower side) "edge" then
                     let! boundary := on_boundary mk w h x y in
                     if (boundary : bool) then store idx c else skip
                   else lift (raise (UnsupportedSide (PyVal.lower side)))) m).
  { intros x y. unfold quiet. cbn zeta. rewrite bind_run, mask_get_content.
    destruct (get_outcome (mask_content mk m) (y * w + x)) as [[a ->]| ->];
      [|right; eauto].
    destruct (a =? 0); [left; reflexivity|].
    rewrite Hs1, Hs2, Hs3, Hs4. right. eexists. reflexivity. }
  unfold shade_band.
  apply (for_each_quiet_raises _ _ m (i / w)).
  - intros y _. apply for_each_quiet. intros x _. apply Hbody.
  - apply elem_of_range. split; [apply Z.div_pos; lia|].
    apply Z.div_lt_upper_bound; lia.
  - apply (for_each_quiet_raises _ _ m (i mod w)).
    + intros x _. apply Hbody.
    + apply elem_of_range. apply Z.mod_pos_bound. lia.
    + cbn zeta. rewrite bind_run, mask_get_content.
      replace (i / w * w + i mod w) with i by (rewrite (Z.div_mod i w) at 1; lia).
      rewrite get_in_range by (apply lookup_lt_Some in Hv; lia).
      rewrite (list_lookup_total_correct _ _ _ Hv).
      destruct (Z.eqb_spec v 0); [contradiction|].
      rewrite Hs1, Hs2, Hs3, Hs4. eexists. reflexivity.
Qed.

Lemma exec_raises (c : M unit) (buf : list Z) (e : exn) (m : mem) :
  c (Mem buf []) = (Fail (Exn e), m) -> exec c buf = Fail (Exn e).
Proof. intros H. unfold exec. rewrite H. reflexivity. Qed.

(** ** Unsupported [shade_band] sides (C7) *)

(** The claim, at a frame whose [shade_band] has the side ["RIGHT"], which
    is not one of the four names: strict validation has no diagnostic and
    the frame renders, shaded on the right. *)
Lemma uppercase_side_is_rendered :
  validate_sprite (document 2 1 ["#000000"; "#ffffff"]
                     [JDict [("ops", JList ops_shading_uppercase_side)]]) true = Ok []
  /\ render_frame ops_shading_uppercase_side 2 1 = Ok [1; 1]
  /\ render_frame [int_op "rect_fill" [1; 0; 0; 2; 1];
                   JList [JStr "shade_band"; JInt 1; JStr "base"; JStr "right"]] 2 1
     = Ok [1; 1].
Proof. repeat split; vm_compute; reflexivity. Qed.

(** The side is only looked at for a non-zero mask pixel: on an empty mask
    an unknown side passes validation and rendering. *)
Lemma unsupported_side_on_empty_mask_is_rendered :
  validate_sprite (document 2 1 ["#000000"; "#ffffff"]
                     [JDict [("ops", JList ops_shading_empty_mask)]]) true = Ok []
  /\ render_frame ops_shading_empty_mask 2 1 = Ok [0; 0].
Proof. split; vm_compute; reflexivity. Qed.

(** C7, amended: sides are matched after lowercasing. When the run of a
    frame on a canvas of positive width reaches a [shade_band] op whose
    lowercased side is none of [right], [bottom], [top_left], [edge], and
    the layer it names has, at that point, a non-zero pixel inside the
    canvas, rendering the frame raises. *)
Theorem unsupported_side_raises
    (w h : Z) (pre post : list json) (op : json) (st : state)
    (c thickness i v : Z) (layer_name side : string) (mask : list Z) :
  arg op 0 = Ok (JStr "shade_band") ->
  arg_int op 1 = Ok c ->
  arg_str op 2 = Ok layer_name ->
  arg_str op 3 = Ok side ->
  opt_int op 4 1 = Ok thickness ->
  supported_side (PyVal.lower side) = false ->
  0 < w ->
  run_ops w h pre (initial w h) = Ok st ->
  (ensure_layer (layers st) (layer_order st) (current st) w h).1.1 !! layer_name
    = Some mask ->
  0 <= i < w * h -> mask !! Z.to_nat i = Some v -> v <> 0 ->
  raises (render_frame (pre ++ op :: post) w h).
Proof.
  intros Hname Hc Hl Hs Ht Hside Hw Hpre Hmask Hi Hv Hne.
  assert (Hstep : exists e, step w h st op = Fail (Exn e)).
  { unfold step. rewrite Hname. cbn -[ensure_layer draw]. rewrite Hc, Hl, Hs, Ht.
    cbn -[ensure_layer draw]. unfold draw.
    destruct (ensure_layer (layers st) (layer_order st) (current st) w h)
      as [[ls order] buf] eqn:Hens.
    cbn [fst] in Hmask. rewrite Hmask.
    set (mk := mask_of st layer_name mask).
    assert (Hcontent : mask_content mk (Mem buf []) = mask).
    { subst mk. unfold mask_of, mask_content.
      destruct (String.eqb_spec layer_name (current st)) as [->|]; [|reflexivity].
      cbn. unfold ensure_layer in Hens.
      destruct (layers st !! current st) as [b|] eqn:Hcur.
      - injection Hens as <- <- <-. congruence.
      - injection Hens as <- <- <-. rewrite lookup_insert_eq in Hmask. congruence. }
    destruct (shade_band_raises mk w h c thickness side (Mem buf []) i v) as [e He];
      try assumption; [rewrite Hcontent; exact Hv|].
    exists e. rewrite (exec_raises _ _ _ _ He). reflexivity. }
  destruct Hstep as [e He]. exists e.
  unfold render_frame, run_ops. rewrite fold_m_app.
  change (fold_m (step w h) pre (initial w h)) with (run_ops w h pre (initial w h)).
  rewrite Hpre. cbn [Py.bind fold_m]. rewrite He. reflexivity.
Qed.

Lemma unsupported_side_raises_witness :
  raises (render_frame
            ([int_op "rect_fill" [1; 0; 0; 2; 1]]
             ++ JList [JStr "shade_band"; JInt 1; JStr "base"; JStr "diagonal"] :: [])
            2 1).
Proof.
  apply (unsupported_side_raises 2 1
           [int_op "rect_fill" [1; 0; 0; 2; 1]] []
           (JList [JStr "shade_band"; JInt 1; JStr "base"; JStr "diagonal"])
           (State {[ "base" := [1; 1] ]} ["base"] "base")
           1 1 0 1 "base" "diagonal" [1; 1]);
    try reflexivity; try lia; vm_compute; reflexivity.
Defined.

(** ** The thick line (C8) *)


Lemma steps_agree_small : forallb steps_agree (seqZ 1 4096) = true.
Proof. vm_compute. reflexivity. Qed.

Lemma thick_line_steps_small (x0 y0 x1 y1 : Z) :
  let d2 := (x1 - x0) * (x1 - x0) + (y1 - y0) * (y1 - y0) in
  0 < d2 <= 4096 ->
  thick_line_steps x0 y0 x1 y1 = Ok (Z.sqrt (4 * d2)).
Proof.
  intros d2 Hd.
  pose proof steps_agree_small as H. rewrite forallb_forall in H.
  specialize (H d2). unfold steps_agree in H. unfold thick_line_steps. fold d2.
  destruct (let* f := Float.of_int d2 in
            let* dist := Float.math_sqrt f in
            let* twice := Float.mul_int dist 2 in
            Float.to_int twice) as [steps|] eqn:E.
  - f_equal. apply Z.eqb_eq, H. apply list_elem_of_In, list_elem_of_lookup.
    exists (Z.to_nat (d2 - 1)). apply lookup_seqZ. lia.
  - assert (false = true); [|discriminate].
    apply H. apply list_elem_of_In, list_elem_of_lookup.
    exists (Z.to_nat (d2 - 1)). apply lookup_seqZ. lia.
Qed.

(** A zero length gives zero steps. *)
Lemma zero_length_zero_steps (dist : Float.float) :
  Float.is_zero dist = true ->
  (let* twice := Float.mul_int dist 2 in Float.to_int twice) = Ok 0.
Proof. destruct dist as [[|]| | |]; try discriminate; intros _; reflexivity. Qed.



(** ** Bounds safety of the monad's operations *)

Section Safety.
Variables w h : Z.

Lemma safe_ret {A} (a : A) : safe w h (ret a).
Proof. intros m. split; [reflexivity|]. exists []. split; [reflexivity|constructor]. Qed.

Lemma safe_skip : safe w h skip.
Proof. apply safe_ret. Qed.

Lemma safe_lift {A} (c : outcome A) : safe w h (lift c).
Proof. intros m. split; [reflexivity|]. exists []. split; [reflexivity|constructor]. Qed.

Lemma safe_load (i : Z) : safe w h (load i).
Proof. intros m. split; [reflexivity|]. exists []. split; [reflexivity|constructor]. Qed.

Lemma safe_snapshot : safe w h snapshot.
Proof. intros m. split; [reflexivity|]. exists []. split; [reflexivity|constructor]. Qed.

Lemma safe_size : safe w h size.
Proof. intros m. split; [reflexivity|]. exists []. split; [reflexivity|constructor]. Qed.

Lemma safe_mask_get (mk : maskref) (i : Z) : safe w h (mask_get mk i).
Proof. destruct mk; [apply safe_load|apply safe_lift]. Qed.

Lemma safe_mask_cells (mk : maskref) : safe w h (mask_cells mk).
Proof. destruct mk; [apply safe_snapshot|apply safe_ret]. Qed.

Lemma safe_store (i v : Z) : inside w h i -> safe w h (store i v).
Proof.
  intros Hi m. unfold store.
  destruct (PyVal.set (cells m) i v) as [l|f] eqn:E; cbn.
  - split; [eapply set_length, E|]. exists [i]. split; [reflexivity|].
    constructor; [exact Hi|constructor].
  - split; [reflexivity|]. exists [i]. split; [reflexivity|].
    constructor; [exact Hi|constructor].
Qed.

Lemma safe_bind {A B} (c : M A) (k : A -> M B) :
  safe w h c -> (forall a, safe w h (k a)) -> safe w h (Buf.bind c k).
Proof.
  intros Hc Hk m. rewrite bind_run.
  destruct (Hc m) as [Hlen [l [Hw Hl]]].
  destruct (c m) as [[a|f] m']; cbn in *.
  - destruct (Hk a m') as [Hlen' [l' [Hw' Hl']]].
    split; [congruence|]. exists (l' ++ l). split.
    + rewrite Hw', Hw. apply app_assoc.
    + apply Forall_app. split; assumption.
  - split; [exact Hlen|]. eauto.
Qed.

(** A pure step keeps its result at hand for what follows. *)
Lemma safe_bind_lift {A B} (c : outcome A) (k : A -> M B) :
  (forall a, c = Ok a -> safe w h (k a)) -> safe w h (Buf.bind (lift c) k).
Proof.
  intros Hk m. rewrite bind_run. cbn [lift]. destruct c as [a|f].
  - apply Hk. reflexivity.
  - split; [reflexivity|]. exists []. split; [reflexivity|constructor].
Qed.

Lemma safe_for_each {A} (l : list A) (body : A -> M unit) :
  (forall a, a ∈ l -> safe w h (body a)) -> safe w h (for_each l body).
Proof.
  induction l as [|a l IH]; intros H; cbn [for_each].
  - apply safe_skip.
  - apply safe_bind; [apply H; left|intros _; apply IH; intros b Hb; apply H; right; exact Hb].
Qed.

Lemma safe_fold_M {A S} (l : list A) (body : S -> A -> M S) (s : S) :
  (forall s a, a ∈ l -> safe w h (body s a)) -> safe w h (fold_M l body s).
Proof.
  revert s. induction l as [|a l IH]; intros s H; cbn [fold_M].
  - apply safe_ret.
  - apply safe_bind; [apply H; left|].
    intros s'. apply IH. intros s'' b Hb. apply H. right. exact Hb.
Qed.

Lemma in_bounds_inside (x y : Z) : in_bounds x y w h = true -> inside w h (y * w + x).
Proof.
  unfold in_bounds, inside. rewrite !andb_true_iff, !Z.leb_le, !Z.ltb_lt. nia.
Qed.

Lemma row_inside (x y : Z) :
  (0 <=? y) && (y <? h) = true -> (0 <=? x) && (x <? w) = true -> inside w h (y * w + x).
Proof.
  unfold inside. rewrite !andb_true_iff, !Z.leb_le, !Z.ltb_lt. nia.
Qed.

Lemma safe_plot (color x y : Z) : safe w h (plot w h color x y).
Proof.
  unfold plot. destruct (in_bounds x y w h) eqn:E; [|apply safe_skip].
  apply safe_store, in_bounds_inside, E.
Qed.

End Safety.

(** The structure of a primitive is taken apart down to its element
    assignments. *)
Create HintDb safe discriminated.

Ltac safe_step :=
  match goal with
  | |- safe _ _ skip => apply safe_skip
  | |- safe _ _ (ret _) => apply safe_ret
  | |- safe _ _ (lift _) => apply safe_lift
  | |- safe _ _ (load _) => apply safe_load
  | |- safe _ _ snapshot => apply safe_snapshot
  | |- safe _ _ size => apply safe_size
  | |- safe _ _ (plot _ _ _ _ _) => apply safe_plot
  | |- safe _ _ (mask_get _ _) => apply safe_mask_get
  | |- safe _ _ (mask_cells _) => apply safe_mask_cells
  | |- safe _ _ (Buf.bind (lift _) _) => apply safe_bind_lift; intros ? ?
  | |- safe _ _ (Buf.bind _ _) => apply safe_bind; [|intros ?]
  | |- safe _ _ (for_each _ _) => apply safe_for_each; intros ? ?
  | |- safe _ _ (fold_M _ _ _) => apply safe_fold_M; intros ? ? ?
  | |- safe _ _ (if ?b then _ else _) => destruct b eqn:?
  | |- safe _ _ (match ?x with _ => _ end) => destruct x eqn:?
  | |- safe _ _ _ => solve [auto with safe nocore]
  end.
Ltac safe_steps := repeat safe_step.

(** ** Bounds safety of the primitives *)

Section Primitives.
Variables w h : Z.

Lemma safe_draw_line_loop (n : nat) (color x1 y1 dx dy sx sy err x y : Z) :
  safe w h (draw_line_loop n w h color x1 y1 dx dy sx sy err x y).
Proof.
  revert err x y. induction n as [|n IH]; intros err x y; cbn [draw_line_loop].
  - apply safe_lift.
  - safe_steps.
Qed.

Lemma safe_draw_line (color x0 y0 x1 y1 : Z) : safe w h (draw_line w h color x0 y0 x1 y1).
Proof. apply safe_draw_line_loop. Qed.
#[local] Hint Resolve safe_draw_line : safe.

Lemma safe_ellipse_fill (color cx cy rx ry : Z) :
  safe w h (ellipse_fill w h color cx cy rx ry).
Proof.
  unfold ellipse_fill. safe_steps.
  apply safe_store, row_inside; [|assumption].
  match goal with H : negb _ = false |- _ => apply negb_false_iff in H; exact H end.
Qed.
#[local] Hint Resolve safe_ellipse_fill : safe.

Lemma safe_draw_thick_line (color x0 y0 x1 y1 thickness : Z) :
  safe w h (draw_thick_line w h color x0 y0 x1 y1 thickness).
Proof.
  unfold draw_thick_line. safe_steps.
Qed.
#[local] Hint Resolve safe_draw_thick_line : safe.

Lemma safe_rect_stroke (color x y rw rh : Z) : safe w h (rect_stroke w h color x y rw rh).
Proof. unfold rect_stroke. safe_steps. Qed.

Lemma safe_rect_fill (color x y rw rh : Z) : safe w h (rect_fill w h color x y rw rh).
Proof. unfold rect_fill. safe_steps. apply safe_store, row_inside; assumption. Qed.

Lemma safe_plot4 (color cx cy px py : Z) : safe w h (plot4 w h color cx cy px py).
Proof. unfold plot4. safe_steps. Qed.
#[local] Hint Resolve safe_plot4 : safe.

Lemma safe_stroke_region1 (n : nat) (color cx cy ry2 two_rx2 two_ry2 x y px py p : Z) :
  safe w h (stroke_region1 n w h color cx cy ry2 two_rx2 two_ry2 x y px py p).
Proof.
  revert x y px py p. induction n as [|n IH]; intros x y px py p; cbn [stroke_region1].
  - apply safe_lift.
  - destruct (px <? py); [|apply safe_ret].
    destruct (p <? 0); (apply safe_bind; [apply safe_plot4|intros _; apply IH]).
Qed.

Lemma safe_stroke_region2 (n : nat) (color cx cy rx2 two_rx2 two_ry2 x y px py p : Z) :
  safe w h (stroke_region2 n w h color cx cy rx2 two_rx2 two_ry2 x y px py p).
Proof.
  revert x y px py p. induction n as [|n IH]; intros x y px py p; cbn [stroke_region2].
  - apply safe_lift.
  - destruct (y >? 0); [|apply safe_skip].
    destruct (p >? 0); (apply safe_bind; [apply safe_plot4|intros _; apply IH]).
Qed.

Lemma safe_ellipse_stroke (color cx cy rx ry : Z) :
  safe w h (ellipse_stroke w h color cx cy rx ry).
Proof.
  unfold ellipse_stroke. destruct ((rx <=? 0) || (ry <=? 0)); [apply safe_skip|].
  apply safe_bind; [apply safe_plot4|intros _].
  apply safe_bind; [apply safe_lift|intros p].
  apply safe_bind; [apply safe_stroke_region1|intros [[[x y] px] py]].
  apply safe_bind; [apply safe_lift|intros p'].
  apply safe_stroke_region2.
Qed.

Lemma safe_draw_bezier (color x0 y0 cx cy x1 y1 : Z) :
  safe w h (draw_bezier w h color x0 y0 cx cy x1 y1).
Proof. unfold draw_bezier. safe_steps. Qed.

Lemma safe_dither_rect (color x y rw rh : Z) (pattern : string) :
  safe w h (dither_rect w h color x y rw rh pattern).
Proof. unfold dither_rect. safe_steps; apply safe_store, row_inside; assumption. Qed.

Lemma safe_gradient_radial (palette_indices : list Z) (cx cy r : Z) :
  safe w h (gradient_radial w h palette_indices cx cy r).
Proof.
  unfold gradient_radial. safe_steps. apply safe_store, in_bounds_inside. assumption.
Qed.

Lemma safe_gradient_linear (palette_indices : list Z) (x0 y0 x1 y1 : Z) :
  safe w h (gradient_linear w h palette_indices x0 y0 x1 y1).
Proof.
  unfold gradient_linear. safe_steps. apply safe_store.
  repeat match goal with H : _ ∈ range _ _ |- _ => apply elem_of_range in H end.
  unfold inside. nia.
Qed.

Lemma safe_color_replace (old_c new_c : Z) (mask_layer : option maskref) :
  safe w h (color_replace w h old_c new_c mask_layer).
Proof.
  unfold color_replace, mask_skips. safe_steps; apply safe_store;
    match goal with H : _ ∈ range _ _ |- _ => apply elem_of_range in H end;
    unfold inside; lia.
Qed.

Lemma fold_m_invariant {A S} (P : S -> Prop) (f : S -> A -> outcome S) (l : list A)
    (s s' : S) :
  (forall s a s', a ∈ l -> P s -> f s a = Ok s' -> P s') ->
  P s -> fold_m f l s = Ok s' -> P s'.
Proof.
  revert s. induction l as [|a l IH]; intros s Hf Hs H; cbn in H.
  - congruence.
  - destruct (f s a) as [s1|] eqn:E; cbn in H; [|discriminate].
    apply (IH s1); [|eapply Hf; [left|exact Hs|exact E]|exact H].
    intros s2 b s3 Hb. apply Hf. right. exact Hb.
Qed.

(** A dilation pass only proposes pixels of the canvas. *)
Lemma dilation_pass_inside (work add : list Z) :
  dilation_pass work w h = Ok add -> Forall (inside w h) add.
Proof.
  unfold dilation_pass. intros Hpass.
  eapply (fold_m_invariant (Forall (inside w h))); [|constructor|exact Hpass].
  intros add1 y add2 Hy Hadd1 Hrow.
  eapply (fold_m_invariant (Forall (inside w h))); [|exact Hadd1|exact Hrow].
  intros add3 x add4 Hx Hadd3 H. cbn beta in H.
  destruct (PyVal.get work (y * w + x)) as [v|]; cbn [Py.bind] in H; [|discriminate].
  destruct (negb (v =? 0)); [congruence|].
  destruct (touches work w h x y) as [[|]|]; cbn [Py.bind] in H; try discriminate;
    injection H as <-; [|exact Hadd3].
  apply Forall_app. split; [exact Hadd3|]. constructor; [|constructor].
  apply elem_of_range in Hx, Hy. unfold inside. nia.
Qed.

Lemma safe_dilate (work : list Z) (color thickness : Z) :
  safe w h (dilate work w h color thickness).
Proof.
  unfold dilate. apply safe_bind; [|intros _; apply safe_skip].
  apply safe_fold_M. intros work' _ _.
  apply safe_bind_lift. intros add Hadd. apply dilation_pass_inside in Hadd.
  revert work'. induction add as [|idx add IH]; intros wk; cbn [fold_M].
  - apply safe_ret.
  - inversion Hadd as [|? ? Hidx Hrest]; subst.
    apply safe_bind.
    + apply safe_bind; [apply safe_store, Hidx|intros _; apply safe_lift].
    + intros wk'. apply IH, Hrest.
Qed.

Lemma safe_outline_layer (thickness color : Z) :
  safe w h (outline_layer w h thickness color).
Proof.
  unfold outline_layer. apply safe_bind; [apply safe_snapshot|intros buf].
  apply safe_dilate.
Qed.

Lemma safe_outline_from_mask (mask : list Z) (outline_color thickness : Z) :
  safe w h (outline_from_mask mask w h outline_color thickness).
Proof. unfold outline_from_mask. apply safe_dilate. Qed.

(** The crossings are consumed two at a time: induction on a bound of
    the list's length. *)
Lemma safe_fill_pairs_bounded (n : nat) (color y : Z) (nodes : list Float.float) :
  (length nodes <= n)%nat ->
  (0 <=? y) && (y <? h) = true ->
  safe w h (fill_pairs w color y nodes).
Proof.
  intros Hn Hy. revert nodes Hn. induction n as [|n IH]; intros nodes Hn.
  - destruct nodes; [apply safe_skip|cbn in Hn; lia].
  - destruct nodes as [|a [|b rest]]; cbn [fill_pairs]; try apply safe_skip.
    safe_steps.
    + apply safe_store, row_inside; assumption.
    + apply IH. cbn in Hn. lia.
Qed.

Lemma safe_fill_pairs (color y : Z) (nodes : list Float.float) :
  (0 <=? y) && (y <? h) = true -> safe w h (fill_pairs w color y nodes).
Proof. apply (safe_fill_pairs_bounded (length nodes)). lia. Qed.

Lemma safe_draw_poly (color : Z) (points : list (Float.float * Float.float)) :
  safe w h (draw_poly w h color points).
Proof.
  unfold draw_poly. destruct points as [|p0 ps]; [apply safe_skip|].
  safe_steps. apply safe_fill_pairs.
  match goal with H : negb _ = false |- _ => apply negb_false_iff in H; exact H end.
Qed.

Lemma safe_flood_loop (n : nat) (color target : Z) (q : list (Z * Z)) :
  safe w h (flood_loop n w h color target q).
Proof.
  revert q. induction n as [|n IH]; intros q; cbn [flood_loop].
  - apply safe_lift.
  - destruct q as [|[x y] q]; [apply safe_skip|].
    destruct (negb (in_bounds x y w h)) eqn:Hin; [apply IH|].
    apply negb_false_iff in Hin.
    apply safe_bind; [apply safe_load|intros v].
    destruct (negb (v =? target)); [apply IH|].
    apply safe_bind; [apply safe_store, in_bounds_inside, Hin|intros _; apply IH].
Qed.

Lemma safe_flood_fill (color sx sy : Z) : safe w h (flood_fill w h color sx sy).
Proof.
  unfold flood_fill. destruct (negb (in_bounds sx sy w h)); [apply safe_skip|].
  apply safe_bind; [apply safe_load|intros target].
  destruct (target =? color); [apply safe_skip|apply safe_flood_loop].
Qed.

Lemma safe_call (p : primitive) : safe w h (call w h p).
Proof.
  destruct p; cbn [call].
  - apply safe_draw_line.
  - apply safe_draw_thick_line.
  - apply safe_draw_thick_line.
  - apply safe_rect_stroke.
  - apply safe_rect_fill.
  - apply safe_ellipse_fill.
  - apply safe_ellipse_stroke.
  - apply safe_draw_bezier.
  - apply safe_draw_poly.
  - apply safe_flood_fill.
  - apply safe_dither_rect.
  - apply safe_gradient_radial.
  - apply safe_gradient_linear.
  - apply safe_color_replace.
  - apply safe_outline_layer.
  - apply safe_outline_from_mask.
Qed.

End Primitives.

(** ** The primitives return or raise *)

Lemma definite_bind {A B} (c : outcome A) (k : A -> outcome B) :
  definite c -> (forall a, definite (k a)) -> definite (Py.bind c k).
Proof. destruct c as [a|[e| |]]; cbn; auto. Qed.

Lemma definite_get {A} (l : list A) (i : Z) : definite (PyVal.get l i).
Proof. unfold PyVal.get. destruct (PyVal.index l i) as [k|]; [destruct (l !! k)|]; exact I. Qed.

Lemma definite_set {A} (l : list A) (i : Z) (v : A) : definite (PyVal.set l i v).
Proof. unfold PyVal.set. destruct (PyVal.index l i); exact I. Qed.

Lemma definite_of_int (z : Z) : definite (Float.of_int z).
Proof. unfold Float.of_int. destruct (Float.of_Z z); exact I. Qed.

Lemma definite_int_truediv (a b : Z) : definite (Float.int_truediv a b).
Proof.
  unfold Float.int_truediv. destruct (b =? 0); [exact I|].
  cbv zeta. destruct (binary_normalize _ _ _ _ _); exact I.
Qed.

Lemma definite_truediv (x y : Float.float) : definite (Float.truediv x y).
Proof. unfold Float.truediv. destruct (Float.is_zero y); exact I. Qed.

Lemma definite_math_sqrt (x : Float.float) : definite (Float.math_sqrt x).
Proof. destruct x as [s|[|]| |[|] m e]; exact I. Qed.

Lemma definite_not_finite {A} (x : Float.float) : definite (@Float.not_finite A x).
Proof. destruct x; exact I. Qed.

Lemma definite_to_int (x : Float.float) : definite (Float.to_int x).
Proof.
  destruct x as [s|s| |s m e]; try exact I. cbn.
  destruct (Float.split_pos m e) as [[q r] d]. exact I.
Qed.

Lemma definite_floor (x : Float.float) : definite (Float.floor x).
Proof.
  destruct x as [s|s| |s m e]; try exact I. cbn.
  destruct (Float.split_pos m e) as [[q r] d]. exact I.
Qed.

Lemma definite_ceil (x : Float.float) : definite (Float.ceil x).
Proof.
  destruct x as [s|s| |s m e]; try exact I. cbn.
  destruct (Float.split_pos m e) as [[q r] d]. exact I.
Qed.

Lemma definite_round (x : Float.float) : definite (Float.round x).
Proof.
  destruct x as [s|s| |s m e]; try exact I. cbn.
  destruct (Float.split_pos m e) as [[q r] d]. exact I.
Qed.

Create HintDb definite discriminated.
#[local] Hint Resolve definite_get definite_set definite_of_int definite_int_truediv
  definite_truediv definite_math_sqrt definite_to_int definite_floor definite_ceil
  definite_round : definite.

Ltac definite_step :=
  match goal with
  | |- definite (Ok _) => exact I
  | |- definite (raise _) => exact I
  | |- definite (Py.bind _ _) => apply definite_bind; [|intros ?]
  | |- definite (if ?b then _ else _) => destruct b
  | |- definite (match ?x with _ => _ end) => destruct x
  | |- definite _ => solve [auto with definite nocore]
  end.
Ltac definite_steps := repeat definite_step.

Lemma definite_mixed (x : Float.float) (z : Z) :
  definite (Float.int_mul z x) /\ definite (Float.mul_int x z)
  /\ definite (Float.int_add z x) /\ definite (Float.add_int x z)
  /\ definite (Float.int_sub z x) /\ definite (Float.sub_int x z).
Proof.
  unfold Float.int_mul, Float.mul_int, Float.int_add, Float.add_int, Float.int_sub,
    Float.sub_int.
  repeat split; definite_steps.
Qed.

Lemma definite_int_mul (z : Z) (x : Float.float) : definite (Float.int_mul z x).
Proof. apply (definite_mixed x z). Qed.
Lemma definite_mul_int (x : Float.float) (z : Z) : definite (Float.mul_int x z).
Proof. apply (definite_mixed x z). Qed.
Lemma definite_int_add (z : Z) (x : Float.float) : definite (Float.int_add z x).
Proof. apply (definite_mixed x z). Qed.
Lemma definite_add_int (x : Float.float) (z : Z) : definite (Float.add_int x z).
Proof. apply (definite_mixed x z). Qed.
Lemma definite_int_sub (z : Z) (x : Float.float) : definite (Float.int_sub z x).
Proof. apply (definite_mixed x z). Qed.
Lemma definite_sub_int (x : Float.float) (z : Z) : definite (Float.sub_int x z).
Proof. apply (definite_mixed x z). Qed.
#[local] Hint Resolve definite_int_mul definite_mul_int definite_int_add definite_add_int
  definite_int_sub definite_sub_int : definite.

Lemma definite_fold_m {A S} (f : S -> A -> outcome S) (l : list A) (s : S) :
  (forall s a, definite (f s a)) -> definite (fold_m f l s).
Proof.
  intros H. revert s. induction l as [|a l IH]; intros s; cbn [fold_m]; [exact I|].
  apply definite_bind; [apply H|apply IH].
Qed.

Lemma definite_any_m {A} (f : A -> outcome bool) (l : list A) :
  (forall a, definite (f a)) -> definite (any_m f l).
Proof.
  intros H. induction l as [|a l IH]; cbn [any_m]; [exact I|].
  apply definite_bind; [apply H|]. intros [|]; [exact I|apply IH].
Qed.

Lemma definite_thick_line_sample (x0 y0 x1 y1 steps i : Z) :
  definite (thick_line_sample x0 y0 x1 y1 steps i).
Proof. unfold thick_line_sample. definite_steps. Qed.

Lemma definite_clamped_index (t : Float.float) (n : Z) : definite (clamped_index t n).
Proof. unfold clamped_index. definite_steps. Qed.

Lemma definite_bezier_coord (t : Float.float) (a c b : Z) : definite (bezier_coord t a c b).
Proof. unfold bezier_coord. definite_steps. Qed.

Lemma definite_touches (work : list Z) (w h x y : Z) : definite (touches work w h x y).
Proof. unfold touches. apply definite_any_m. intros [dx dy]. definite_steps. Qed.

Lemma definite_dilation_pass (work : list Z) (w h : Z) : definite (dilation_pass work w h).
Proof.
  unfold dilation_pass. apply definite_fold_m. intros add y.
  apply definite_fold_m. intros add' x. cbv zeta.
  apply definite_bind; [apply definite_get|intros v].
  destruct (negb (v =? 0)); [exact I|].
  apply definite_bind; [apply definite_touches|intros [|]; exact I].
Qed.

Lemma definite_crossings (y : Z) (pj : Float.float * Float.float)
    (points : list (Float.float * Float.float)) :
  definite (crossings y pj points).
Proof.
  revert pj. induction points as [|pi rest IH]; intros pj; cbn [crossings]; [exact I|].
  apply definite_bind; [definite_steps|intros here].
  apply definite_bind; [apply IH|intros more; exact I].
Qed.
#[local] Hint Resolve definite_thick_line_sample definite_clamped_index
  definite_bezier_coord definite_dilation_pass definite_crossings : definite.

Section Steady.
Variables w h : Z.

Lemma steady_ret {A} (a : A) : steady w h (ret a).
Proof. intros m Hm. split; [exact I|exact Hm]. Qed.

Lemma steady_skip : steady w h skip.
Proof. apply steady_ret. Qed.

Lemma steady_lift {A} (c : outcome A) : definite c -> steady w h (lift c).
Proof. intros Hc m Hm. split; [exact Hc|exact Hm]. Qed.

Lemma steady_load (i : Z) : steady w h (load i).
Proof. intros m Hm. split; [apply definite_get|exact Hm]. Qed.

Lemma steady_snapshot : steady w h snapshot.
Proof. intros m Hm. split; [exact I|exact Hm]. Qed.

Lemma steady_store (i v : Z) : steady w h (store i v).
Proof.
  intros m Hm. unfold store.
  destruct (PyVal.set (cells m) i v) as [l|f] eqn:E; cbn.
  - split; [exact I|]. rewrite (set_length _ _ _ _ E). exact Hm.
  - split; [|exact Hm]. pose proof (definite_set (cells m) i v) as H. rewrite E in H. exact H.
Qed.

Lemma steady_mask_get (mk : maskref) (i : Z) : steady w h (mask_get mk i).
Proof. destruct mk; [apply steady_load|apply steady_lift, definite_get]. Qed.

Lemma steady_mask_cells (mk : maskref) : steady w h (mask_cells mk).
Proof. destruct mk; [apply steady_snapshot|apply steady_ret]. Qed.

Lemma steady_bind {A B} (c : M A) (k : A -> M B) :
  steady w h c -> (forall a, steady w h (k a)) -> steady w h (Buf.bind c k).
Proof.
  intros Hc Hk m Hm. rewrite bind_run. destruct (Hc m Hm) as [Hd Hl].
  destruct (c m) as [[a|f] m']; cbn in *.
  - apply Hk, Hl.
  - split; assumption.
Qed.

Lemma steady_for_each {A} (l : list A) (body : A -> M unit) :
  (forall a, steady w h (body a)) -> steady w h (for_each l body).
Proof.
  intros H. induction l as [|a l IH]; cbn [for_each].
  - apply steady_skip.
  - apply steady_bind; [apply H|intros _; apply IH].
Qed.

Lemma steady_fold_M {A S} (l : list A) (body : S -> A -> M S) (s : S) :
  (forall s a, steady w h (body s a)) -> steady w h (fold_M l body s).
Proof.
  intros H. revert s. induction l as [|a l IH]; intros s; cbn [fold_M].
  - apply steady_ret.
  - apply steady_bind; [apply H|intros s'; apply IH].
Qed.

Lemma steady_plot (color x y : Z) : steady w h (plot w h color x y).
Proof. unfold plot. destruct (in_bounds x y w h); [apply steady_store|apply steady_skip]. Qed.

End Steady.

Create HintDb steady discriminated.

Ltac steady_step :=
  match goal with
  | |- steady _ _ skip => apply steady_skip
  | |- steady _ _ (ret _) => apply steady_ret
  | |- steady _ _ (lift _) => apply steady_lift; definite_steps
  | |- steady _ _ (load _) => apply steady_load
  | |- steady _ _ (store _ _) => apply steady_store
  | |- steady _ _ snapshot => apply steady_snapshot
  | |- steady _ _ (plot _ _ _ _ _) => apply steady_plot
  | |- steady _ _ (mask_get _ _) => apply steady_mask_get
  | |- steady _ _ (mask_cells _) => apply steady_mask_cells
  | |- steady _ _ (Buf.bind _ _) => apply steady_bind; [|intros ?]
  | |- steady _ _ (for_each _ _) => apply steady_for_each; intros ?
  | |- steady _ _ (fold_M _ _ _) => apply steady_fold_M; intros ? ?
  | |- steady _ _ (if ?b then _ else _) => destruct b
  | |- steady _ _ (match ?x with _ => _ end) => destruct x
  | |- steady _ _ _ => solve [auto with steady nocore]
  end.
Ltac steady_steps := repeat steady_step.

Section SteadyPrimitives.
Variables w h : Z.

Lemma plot_outcome (color x y : Z) (m : mem) :
  (exists m', plot w h color x y m = (Ok tt, m'))
  \/ (exists e m', plot w h color x y m = (Fail (Exn e), m')).
Proof.
  unfold plot. destruct (in_bounds x y w h); [|left; eexists; reflexivity].
  unfold store, PyVal.set. destruct (PyVal.index (cells m) (y * w + x)).
  - left. eexists. reflexivity.
  - right. do 2 eexists. reflexivity.
Qed.

(** Bresenham's loop, after [i] steps along x and [j] along y: the error
    term is [(1 + i) * dy + (1 + j) * dx], neither coordinate overshoots
    its end, and each iteration advances one of them. *)
Lemma draw_line_loop_returns (n : nat) (color x0 y0 dx ady sx sy i j err x y : Z)
    (m : mem) :
  0 <= i <= dx -> 0 <= j <= ady ->
  sx = 1 \/ sx = -1 -> sy = 1 \/ sy = -1 ->
  err = (1 + i) * (- ady) + (1 + j) * dx ->
  x = x0 + sx * i -> y = y0 + sy * j ->
  (Z.to_nat (dx - i + (ady - j)) < n)%nat ->
  definite
    (draw_line_loop n w h color (x0 + sx * dx) (y0 + sy * ady) dx (- ady) sx sy err x y m).1.
Proof.
  revert i j err x y m. induction n as [|n IH]; intros i j err x y m Hi Hj Hsx Hsy He Hx Hy Hn;
    [lia|].
  cbn [draw_line_loop]. rewrite bind_run.
  destruct (plot_outcome color x y m) as [[m' ->]|[e [m' ->]]]; [|exact I].
  destruct ((x =? x0 + sx * dx) && (y =? y0 + sy * ady)) eqn:Hend; [exact I|].
  assert (Hnot : ~ (i = dx /\ j = ady)).
  { intros [-> ->]. subst x y. rewrite !Z.eqb_refl in Hend. discriminate. }
  destruct (Z.geb_spec (2 * err) (- ady)) as [Hge|Hlt];
    destruct (Z.leb_spec (2 * err) dx) as [Hle|Hgt].
  - apply (IH (i + 1) (j + 1)); try assumption; try nia.
  - apply (IH (i + 1) j); try assumption; try nia.
  - apply (IH i (j + 1)); try assumption; try nia.
  - nia.
Qed.

Lemma safe_length {A} (c : M A) (m : mem) :
  safe w h c -> length (cells m) = Z.to_nat (w * h) ->
  length (cells (c m).2) = Z.to_nat (w * h).
Proof. intros Hs Hm. destruct (Hs m) as [Hl _]. congruence. Qed.

(** [draw_line]'s loop ends within [dx + |dy| + 1] iterations. *)
Lemma steady_draw_line (color x0 y0 x1 y1 : Z) : steady w h (draw_line w h color x0 y0 x1 y1).
Proof.
  intros m Hm. split; [|apply safe_length; [apply safe_draw_line|exact Hm]].
  unfold draw_line.
  set (sx := if x0 <? x1 then 1 else -1). set (sy := if y0 <? y1 then 1 else -1).
  assert (Hx1 : x1 = x0 + sx * Z.abs (x1 - x0))
    by (subst sx; destruct (Z.ltb_spec x0 x1); lia).
  assert (Hy1 : y1 = y0 + sy * Z.abs (y1 - y0))
    by (subst sy; destruct (Z.ltb_spec y0 y1); lia).
  pose proof (draw_line_loop_returns
                (S (Z.to_nat (Z.abs (x1 - x0) - - Z.abs (y1 - y0)))) color x0 y0
                (Z.abs (x1 - x0)) (Z.abs (y1 - y0)) sx sy 0 0
                (Z.abs (x1 - x0) + - Z.abs (y1 - y0)) x0 y0 m) as H.
  rewrite <- Hx1, <- Hy1 in H.
  apply H; try lia;
    [subst sx; destruct (x0 <? x1); auto|subst sy; destruct (y0 <? y1); auto].
Qed.
#[local] Hint Resolve steady_draw_line : steady.

Lemma steady_ellipse_fill (color cx cy rx ry : Z) :
  steady w h (ellipse_fill w h color cx cy rx ry).
Proof. unfold ellipse_fill. steady_steps. Qed.
#[local] Hint Resolve steady_ellipse_fill : steady.

Lemma steady_draw_thick_line (color x0 y0 x1 y1 thickness : Z) :
  steady w h (draw_thick_line w h color x0 y0 x1 y1 thickness).
Proof. unfold draw_thick_line. steady_steps. Qed.

Lemma steady_rect_stroke (color x y rw rh : Z) : steady w h (rect_stroke w h color x y rw rh).
Proof. unfold rect_stroke. steady_steps. Qed.

Lemma steady_rect_fill (color x y rw rh : Z) : steady w h (rect_fill w h color x y rw rh).
Proof. unfold rect_fill. steady_steps. Qed.

Lemma steady_plot4 (color cx cy px py : Z) : steady w h (plot4 w h color cx cy px py).
Proof. unfold plot4. steady_steps. Qed.
#[local] Hint Resolve steady_plot4 : steady.

(** The first region's loop: [py - px] drops by at least two per
    iteration. *)
Lemma steady_stroke_region1 (n : nat) (color cx cy ry2 two_rx2 two_ry2 x y px py p : Z) :
  0 <= two_rx2 -> 2 <= two_ry2 ->
  py - px <= 2 * Z.of_nat n ->
  steady w h (stroke_region1 (S n) w h color cx cy ry2 two_rx2 two_ry2 x y px py p).
Proof.
  intros Hrx Hry. revert x y px py p.
  induction n as [|n IH]; intros x y px py p Hn; cbn [stroke_region1].
  - destruct (Z.ltb_spec px py); [lia|apply steady_ret].
  - destruct (Z.ltb_spec px py); [|apply steady_ret].
    destruct (p <? 0); (apply steady_bind; [apply steady_plot4|intros _; apply IH; lia]).
Qed.

(** The second region's loop: [y] drops by one per iteration. *)
Lemma steady_stroke_region2 (n : nat) (color cx cy rx2 two_rx2 two_ry2 x y px py p : Z) :
  y <= Z.of_nat n ->
  steady w h (stroke_region2 (S n) w h color cx cy rx2 two_rx2 two_ry2 x y px py p).
Proof.
  revert x y px py p. induction n as [|n IH]; intros x y px py p Hn; cbn [stroke_region2].
  - destruct (Z.gtb_spec y 0); [lia|apply steady_skip].
  - destruct (Z.gtb_spec y 0); [|apply steady_skip].
    destruct (p >? 0); (apply steady_bind; [apply steady_plot4|intros _; apply IH; lia]).
Qed.

Lemma steady_ellipse_stroke (color cx cy rx ry : Z) :
  steady w h (ellipse_stroke w h color cx cy rx ry).
Proof.
  unfold ellipse_stroke.
  destruct (Z.leb_spec rx 0); [apply steady_skip|].
  destruct (Z.leb_spec ry 0); [apply steady_skip|]. cbn [orb].
  apply steady_bind; [apply steady_plot4|intros _].
  apply steady_bind; [apply steady_lift; definite_steps|intros p].
  apply steady_bind; [apply steady_stroke_region1; nia|intros [[[x y] px] py]].
  apply steady_bind; [apply steady_lift; definite_steps|intros p'].
  apply steady_stroke_region2. lia.
Qed.

Lemma steady_draw_bezier (color x0 y0 cx cy x1 y1 : Z) :
  steady w h (draw_bezier w h color x0 y0 cx cy x1 y1).
Proof. unfold draw_bezier. steady_steps. Qed.

Lemma steady_dither_rect (color x y rw rh : Z) (pattern : string) :
  steady w h (dither_rect w h color x y rw rh pattern).
Proof. unfold dither_rect. steady_steps. Qed.

Lemma steady_gradient_radial (palette_indices : list Z) (cx cy r : Z) :
  steady w h (gradient_radial w h palette_indices cx cy r).
Proof. unfold gradient_radial. steady_steps. Qed.

Lemma steady_gradient_linear (palette_indices : list Z) (x0 y0 x1 y1 : Z) :
  steady w h (gradient_linear w h palette_indices x0 y0 x1 y1).
Proof. unfold gradient_linear. steady_steps. Qed.

Lemma steady_color_replace (old_c new_c : Z) (mask_layer : option maskref) :
  steady w h (color_replace w h old_c new_c mask_layer).
Proof. unfold color_replace, mask_skips. steady_steps. Qed.

Lemma steady_dilate (work : list Z) (color thickness : Z) :
  steady w h (dilate work w h color thickness).
Proof. unfold dilate. steady_steps. Qed.

Lemma steady_fill_pairs_bounded (n : nat) (color y : Z) (nodes : list Float.float) :
  (length nodes <= n)%nat -> steady w h (fill_pairs w color y nodes).
Proof.
  revert nodes. induction n as [|n IH]; intros nodes Hn.
  - destruct nodes; [apply steady_skip|cbn in Hn; lia].
  - destruct nodes as [|a [|b rest]]; cbn [fill_pairs]; try apply steady_skip.
    apply steady_bind; [apply steady_lift; definite_steps|intros x0].
    apply steady_bind; [apply steady_lift; definite_steps|intros x1].
    apply steady_bind; [steady_steps|intros _]. apply IH. cbn in Hn. lia.
Qed.

Lemma steady_draw_poly (color : Z) (points : list (Float.float * Float.float)) :
  steady w h (draw_poly w h color points).
Proof.
  unfold draw_poly. destruct points as [|p0 ps]; [apply steady_skip|].
  apply steady_bind; [apply steady_lift; definite_steps|intros min_y].
  apply steady_bind; [apply steady_lift; definite_steps|intros max_y].
  apply steady_for_each. intros y. destruct (negb _); [apply steady_skip|].
  apply steady_bind; [apply steady_lift; definite_steps|intros nodes].
  apply (steady_fill_pairs_bounded (length (sort_floats nodes))). lia.
Qed.

Lemma steady_outline_layer (thickness color : Z) :
  steady w h (outline_layer w h thickness color).
Proof.
  unfold outline_layer. apply steady_bind; [apply steady_snapshot|intros buf].
  apply steady_dilate.
Qed.

Lemma steady_outline_from_mask (mask : list Z) (outline_color thickness : Z) :
  steady w h (outline_from_mask mask w h outline_color thickness).
Proof. unfold outline_from_mask. apply steady_dilate. Qed.

Lemma count_of_le (t : Z) (l : list Z) : (count_of t l <= length l)%nat.
Proof. unfold count_of. apply length_filter. Qed.

(** Overwriting a pixel that holds [t] with another colour leaves one
    pixel fewer that holds [t]. *)
Lemma count_of_insert (t c : Z) (l : list Z) (i : nat) :
  l !! i = Some t -> c <> t ->
  (count_of t (<[i := c]> l) + 1 = count_of t l)%nat.
Proof.
  intros Hi Hc. unfold count_of.
  rewrite insert_take_drop by (eapply lookup_lt_Some, Hi).
  rewrite <- (take_drop_middle l i t Hi) at 3.
  rewrite !filter_app, !filter_cons, !length_app.
  rewrite decide_False by exact Hc. rewrite decide_True by reflexivity.
  cbn [length]. lia.
Qed.

(** Each iteration of the flood loop takes one entry off the queue; a
    fill adds four and uses up one pixel of the target colour. *)
Lemma flood_loop_returns (n : nat) (color target : Z) (q : list (Z * Z)) (m : mem) :
  color <> target ->
  length (cells m) = Z.to_nat (w * h) ->
  (length q + 4 * count_of target (cells m) < n)%nat ->
  definite (flood_loop n w h color target q m).1
  /\ length (cells (flood_loop n w h color target q m).2) = Z.to_nat (w * h).
Proof.
  intros Hc. revert q m. induction n as [|n IH]; intros q m Hm Hn; [lia|].
  cbn [flood_loop]. destruct q as [|[x y] q]; [split; [exact I|exact Hm]|].
  cbn [length] in Hn.
  destruct (in_bounds x y w h) eqn:Hin; cbn [negb]; [|apply IH; [exact Hm|lia]].
  apply in_bounds_inside in Hin. unfold inside in Hin.
  rewrite bind_run. unfold load.
  rewrite get_in_range by lia.
  destruct (Z.eqb_spec (cells m !!! Z.to_nat (y * w + x)) target) as [Ht|Ht]; cbn [negb];
    [|apply IH; [exact Hm|lia]].
  rewrite bind_run. unfold store. rewrite set_in_range by lia.
  assert (Hlook : cells m !! Z.to_nat (y * w + x) = Some target).
  { rewrite <- Ht. apply list_lookup_lookup_total_lt. lia. }
  pose proof (count_of_insert target color (cells m) _ Hlook Hc) as Hcount.
  apply IH; cbn [cells].
  - rewrite length_insert. exact Hm.
  - rewrite length_app. cbn [length]. lia.
Qed.

Lemma steady_flood_fill (color sx sy : Z) : steady w h (flood_fill w h color sx sy).
Proof.
  intros m Hm. unfold flood_fill.
  destruct (in_bounds sx sy w h) eqn:Hin; cbn [negb]; [|split; [exact I|exact Hm]].
  apply in_bounds_inside in Hin. unfold inside in Hin.
  rewrite bind_run. unfold load. rewrite get_in_range by lia.
  destruct (Z.eqb_spec (cells m !!! Z.to_nat (sy * w + sx)) color) as [Ht|Ht];
    [split; [exact I|exact Hm]|].
  apply flood_loop_returns; [congruence|exact Hm|].
  pose proof (count_of_le (cells m !!! Z.to_nat (sy * w + sx)) (cells m)).
  cbn [length]. lia.
Qed.

Lemma steady_call (p : primitive) : steady w h (call w h p).
Proof.
  destruct p; cbn [call].
  - apply steady_draw_line.
  - apply steady_draw_thick_line.
  - apply steady_draw_thick_line.
  - apply steady_rect_stroke.
  - apply steady_rect_fill.
  - apply steady_ellipse_fill.
  - apply steady_ellipse_stroke.
  - apply steady_draw_bezier.
  - apply steady_draw_poly.
  - apply steady_flood_fill.
  - apply steady_dither_rect.
  - apply steady_gradient_radial.
  - apply steady_gradient_linear.
  - apply steady_color_replace.
  - apply steady_outline_layer.
  - apply steady_outline_from_mask.
Qed.

End SteadyPrimitives.

(** ** Bounds safety (C4) *)

(** C4: whatever the canvas, the primitive, its integer (or float)
    arguments and the buffer, and whether the primitive returns or stops
    early, every element assignment it performs has its index in
    [[0, w * h)], and the buffer keeps its length. On a buffer of
    [w * h] pixels the run is the whole run of the code: it returns or
    raises, and never stops on the bound of a loop. *)
Theorem bounds_safety (w h : Z) (p : primitive) (buf : list Z) :
  Forall (inside w h) (trace (call w h p) buf)
  /\ length (run (call w h p) buf).2 = length buf
  /\ (length buf = Z.to_nat (w * h) -> definite (run (call w h p) buf).1).
Proof.
  unfold trace, run.
  destruct (safe_call w h p (Mem buf [])) as [Hlen [l [Hw Hl]]].
  pose proof (steady_call w h p (Mem buf [])) as Hsteady.
  destruct (call w h p (Mem buf [])) as [r m]. cbn [snd fst cells] in *.
  split; [|split; [exact Hlen|]].
  - rewrite Hw, app_nil_r. apply Forall_rev. exact Hl.
  - intros Hbuf. apply Hsteady, Hbuf.
Qed.

Lemma bounds_safety_witness :
  let p := EllipseFill 7 (-5) 1 1000000 1000000 in
  Forall (inside 3 2) (trace (call 3 2 p) [0; 0; 0; 0; 0; 0])
  /\ length (run (call 3 2 p) [0; 0; 0; 0; 0; 0]).2 = 6%nat
  /\ definite (run (call 3 2 p) [0; 0; 0; 0; 0; 0]).1.
Proof.
  destruct (bounds_safety 3 2 (EllipseFill 7 (-5) 1 1000000 1000000) [0; 0; 0; 0; 0; 0])
    as (Htrace & Hlen & Hdef).
  split; [exact Htrace|]. split; [exact Hlen|]. apply Hdef. reflexivity.
Defined.

(** * Further properties of the engine *)

(** ** The interpreter keeps the layer store well formed *)
(** ** Primitives keep the buffer's length *)

Lemma keeps_ret {A} (a : A) : keeps_length (ret a).
Proof. intros m. reflexivity. Qed.

Lemma keeps_lift {A} (c : outcome A) : keeps_length (lift c).
Proof. intros m. reflexivity. Qed.

Lemma keeps_load (i : Z) : keeps_length (load i).
Proof. intros m. reflexivity. Qed.

Lemma keeps_snapshot : keeps_length snapshot.
Proof. intros m. reflexivity. Qed.

Lemma keeps_size : keeps_length size.
Proof. intros m. reflexivity. Qed.

Lemma keeps_store (i v : Z) : keeps_length (store i v).
Proof.
  intros m. unfold store. destruct (PyVal.set (cells m) i v) as [l|f] eqn:E; cbn.
  - eapply set_length, E.
  - reflexivity.
Qed.

Lemma keeps_mask_get (mk : maskref) (i : Z) : keeps_length (mask_get mk i).
Proof. destruct mk; intros m; reflexivity. Qed.

Lemma keeps_mask_cells (mk : maskref) : keeps_length (mask_cells mk).
Proof. destruct mk; intros m; reflexivity. Qed.

Lemma keeps_bind {A B} (c : M A) (k : A -> M B) :
  keeps_length c -> (forall a, keeps_length (k a)) -> keeps_length (Buf.bind c k).
Proof.
  intros Hc Hk m. rewrite bind_run. specialize (Hc m).
  destruct (c m) as [[a|f] m']; cbn in *; [|exact Hc].
  rewrite (Hk a m'). exact Hc.
Qed.

Lemma keeps_for_each {A} (l : list A) (body : A -> M unit) :
  (forall a, keeps_length (body a)) -> keeps_length (for_each l body).
Proof.
  intros H. induction l as [|a l IH]; cbn [for_each].
  - apply keeps_ret.
  - apply keeps_bind; [apply H|intros _; apply IH].
Qed.

Lemma keeps_fold_M {A S} (l : list A) (body : S -> A -> M S) (s : S) :
  (forall s a, keeps_length (body s a)) -> keeps_length (fold_M l body s).
Proof.
  intros H. revert s. induction l as [|a l IH]; intros s; cbn [fold_M].
  - apply keeps_ret.
  - apply keeps_bind; [apply H|intros s'; apply IH].
Qed.

Lemma keeps_of_safe {A} (w h : Z) (c : M A) : safe w h c -> keeps_length c.
Proof. intros Hs m. apply (Hs m). Qed.

Lemma keeps_call (w h : Z) (p : primitive) : keeps_length (call w h p).
Proof. apply (keeps_of_safe w h), safe_call. Qed.

Lemma keeps_noise_loop (n : nat) (eligible : list Z) (color x : Z) :
  keeps_length (noise_loop n eligible color x).
Proof.
  revert x. induction n as [|n IH]; intros x; cbn [noise_loop].
  - apply keeps_ret.
  - apply keeps_bind; [apply keeps_lift|intros idx].
    apply keeps_bind; [apply keeps_store|intros _; apply IH].
Qed.

Ltac keeps_step :=
  match goal with
  | |- keeps_length skip => apply keeps_ret
  | |- keeps_length (ret _) => apply keeps_ret
  | |- keeps_length (lift _) => apply keeps_lift
  | |- keeps_length (load _) => apply keeps_load
  | |- keeps_length (store _ _) => apply keeps_store
  | |- keeps_length snapshot => apply keeps_snapshot
  | |- keeps_length size => apply keeps_size
  | |- keeps_length (mask_get _ _) => apply keeps_mask_get
  | |- keeps_length (mask_cells _) => apply keeps_mask_cells
  | |- keeps_length (noise_loop _ _ _ _) => apply keeps_noise_loop
  | |- keeps_length (Buf.bind _ _) => apply keeps_bind; [|intros ?]
  | |- keeps_length (for_each _ _) => apply keeps_for_each; intros ?
  | |- keeps_length (fold_M _ _ _) => apply keeps_fold_M; intros ? ?
  | |- keeps_length (if ?b then _ else _) => destruct b
  | |- keeps_length (match ?x with _ => _ end) => destruct x
  end.
Ltac keeps_steps := repeat keeps_step.

Lemma keeps_plot (w h color x y : Z) : keeps_length (plot w h color x y).
Proof. unfold plot. keeps_steps. Qed.

Lemma keeps_mirror_x (w h : Z) : keeps_length (mirror_x w h).
Proof. unfold mirror_x. keeps_steps. Qed.

Lemma keeps_mirror_y (w h : Z) : keeps_length (mirror_y w h).
Proof. unfold mirror_y. keeps_steps. Qed.

Lemma keeps_translate (w h dx dy : Z) : keeps_length (translate w h dx dy).
Proof. unfold translate. keeps_steps. Qed.

Lemma keeps_mask_layer_fn (mask : maskref) : keeps_length (mask_layer_fn mask).
Proof. unfold mask_layer_fn. keeps_steps. Qed.

Lemma keeps_inset_fill_on_mask (mask : list Z) (w h color x y rw rh inset : Z) :
  keeps_length (inset_fill_on_mask mask w h color x y rw rh inset).
Proof. unfold inset_fill_on_mask. keeps_steps. Qed.

Lemma keeps_shade_band (mask : maskref) (w h c : Z) (side : string) (thickness : Z) :
  keeps_length (shade_band mask w h c side thickness).
Proof.
  unfold shade_band, near_right, near_bottom, near_top_left, on_boundary. keeps_steps.
Qed.

Lemma keeps_noise_points (mask : maskref) (w h color count seed : Z) :
  keeps_length (noise_points mask w h color count seed).
Proof. unfold noise_points. keeps_steps. Qed.

(** ** The interpreter keeps its state well formed *)

Lemma well_formed_current (w h : Z) (ls : gmap string (list Z)) (order : list string)
    (c1 c2 : string) :
  well_formed w h (State ls order c1) -> well_formed w h (State ls order c2).
Proof. intros H. exact H. Qed.

Lemma well_formed_initial (w h : Z) : well_formed w h (initial w h).
Proof.
  unfold well_formed, initial. cbn [layers layer_order]. split; [|split].
  - apply NoDup_singleton.
  - intros n. rewrite list_elem_of_singleton. split.
    + intros ->. rewrite lookup_singleton_eq. eauto.
    + intros [l Hl]. apply lookup_singleton_Some in Hl as [<- _]. reflexivity.
  - intros n l Hl. apply lookup_singleton_Some in Hl as [_ <-].
    unfold filled. apply length_replicate.
Qed.

Lemma ensure_layer_well_formed (w h : Z) (st : state) (name cur : string)
    (ls : gmap string (list Z)) (order : list string) (buf : list Z) :
  well_formed w h st ->
  ensure_layer (layers st) (layer_order st) name w h = (ls, order, buf) ->
  well_formed w h (State ls order cur)
  /\ ls !! name = Some buf
  /\ length buf = Z.to_nat (w * h).
Proof.
  intros (Hnd & Hdom & Hlen) He. unfold ensure_layer in He.
  destruct (layers st !! name) as [b|] eqn:Hn.
  - injection He as <- <- <-. split; [|split].
    + split; [exact Hnd|]. split; [exact Hdom|exact Hlen].
    + exact Hn.
    + eapply Hlen, Hn.
  - injection He as <- <- <-. split; [|split].
    + unfold well_formed. cbn [layers layer_order]. split; [|split].
      * apply NoDup_app. split; [exact Hnd|]. split; [|apply NoDup_singleton].
        intros x Hx Hx'. apply list_elem_of_singleton in Hx'. subst x.
        apply Hdom in Hx. rewrite Hn in Hx. destruct Hx; discriminate.
      * intros n. rewrite elem_of_app, list_elem_of_singleton, Hdom.
        destruct (decide (name = n)) as [->|Hne].
        -- rewrite lookup_insert_eq. split; eauto.
        -- rewrite lookup_insert_ne by exact Hne. split; [intros [?|?]; congruence || assumption|auto].
      * intros n l. destruct (decide (name = n)) as [->|Hne].
        -- rewrite lookup_insert_eq. intros [= <-]. unfold filled. apply length_replicate.
        -- rewrite lookup_insert_ne by exact Hne. apply Hlen.
    + apply lookup_insert_eq.
    + unfold filled. apply length_replicate.
Qed.

Lemma exec_keeps_length (prim : M unit) (buf buf' : list Z) :
  keeps_length prim -> exec prim buf = Ok buf' -> length buf' = length buf.
Proof.
  intros Hk He. unfold exec in He. specialize (Hk (Mem buf [])).
  destruct (prim (Mem buf [])) as [[u|f] m]; [|discriminate].
  injection He as <-. exact Hk.
Qed.

Lemma insert_well_formed (w h : Z) (st : state) (cur name : string) (old new : list Z) :
  well_formed w h st ->
  layers st !! name = Some old ->
  length new = Z.to_nat (w * h) ->
  well_formed w h (State (<[name := new]> (layers st)) (layer_order st) cur).
Proof.
  intros (Hnd & Hdom & Hlen) Hold Hnew. unfold well_formed. cbn [layers layer_order] in *.
  split; [exact Hnd|]. split.
  - intros n. rewrite Hdom. destruct (decide (name = n)) as [->|Hne].
    + rewrite lookup_insert_eq, Hold. split; eauto.
    + rewrite lookup_insert_ne by exact Hne. reflexivity.
  - intros n l. destruct (decide (name = n)) as [->|Hne].
    + rewrite lookup_insert_eq. congruence.
    + rewrite lookup_insert_ne by exact Hne. apply Hlen.
Qed.

Lemma draw_well_formed (w h : Z) (st st' : state) (prim : M unit) :
  keeps_length prim ->
  well_formed w h st ->
  draw st w h prim = Ok st' ->
  well_formed w h st'.
Proof.
  intros Hk Hwf Hd. unfold draw in Hd.
  destruct (ensure_layer (layers st) (layer_order st) (current st) w h)
    as [[ls order] buf] eqn:He.
  destruct (ensure_layer_well_formed w h st _ (current st) _ _ _ Hwf He) as (Hwf' & Hb & Hl).
  destruct (exec prim buf) as [buf'|] eqn:Hx; cbn in Hd; [|discriminate].
  injection Hd as <-.
  apply (insert_well_formed w h (State ls order (current st)) (current st) (current st)
           buf buf' Hwf' Hb).
  rewrite (exec_keeps_length _ _ _ Hk Hx). exact Hl.
Qed.

Create HintDb keeps discriminated.
#[local] Hint Resolve keeps_plot keeps_mirror_x keeps_mirror_y keeps_translate
  keeps_mask_layer_fn keeps_inset_fill_on_mask keeps_shade_band keeps_noise_points
  keeps_ret : keeps.
#[local] Hint Extern 1 (keeps_length (draw_line ?w ?h _ _ _ _ _)) =>
  apply (keeps_of_safe w h), safe_draw_line : keeps.
#[local] Hint Extern 1 (keeps_length (draw_thick_line ?w ?h _ _ _ _ _ _)) =>
  apply (keeps_of_safe w h), safe_draw_thick_line : keeps.
#[local] Hint Extern 1 (keeps_length (capsule_fill ?w ?h _ _ _ _ _ _)) =>
  apply (keeps_of_safe w h), safe_draw_thick_line : keeps.
#[local] Hint Extern 1 (keeps_length (rect_stroke ?w ?h _ _ _ _ _)) =>
  apply (keeps_of_safe w h), safe_rect_stroke : keeps.
#[local] Hint Extern 1 (keeps_length (rect_fill ?w ?h _ _ _ _ _)) =>
  apply (keeps_of_safe w h), safe_rect_fill : keeps.
#[local] Hint Extern 1 (keeps_length (ellipse_fill ?w ?h _ _ _ _ _)) =>
  apply (keeps_of_safe w h), safe_ellipse_fill : keeps.
#[local] Hint Extern 1 (keeps_length (ellipse_stroke ?w ?h _ _ _ _ _)) =>
  apply (keeps_of_safe w h), safe_ellipse_stroke : keeps.
#[local] Hint Extern 1 (keeps_length (draw_bezier ?w ?h _ _ _ _ _ _ _)) =>
  apply (keeps_of_safe w h), safe_draw_bezier : keeps.
#[local] Hint Extern 1 (keeps_length (draw_poly ?w ?h _ _)) =>
  apply (keeps_of_safe w h), safe_draw_poly : keeps.
#[local] Hint Extern 1 (keeps_length (flood_fill ?w ?h _ _ _)) =>
  apply (keeps_of_safe w h), safe_flood_fill : keeps.
#[local] Hint Extern 1 (keeps_length (dither_rect ?w ?h _ _ _ _ _ _)) =>
  apply (keeps_of_safe w h), safe_dither_rect : keeps.
#[local] Hint Extern 1 (keeps_length (gradient_radial ?w ?h _ _ _ _)) =>
  apply (keeps_of_safe w h), safe_gradient_radial : keeps.
#[local] Hint Extern 1 (keeps_length (gradient_linear ?w ?h _ _ _ _ _)) =>
  apply (keeps_of_safe w h), safe_gradient_linear : keeps.
#[local] Hint Extern 1 (keeps_length (color_replace ?w ?h _ _ _)) =>
  apply (keeps_of_safe w h), safe_color_replace : keeps.
#[local] Hint Extern 1 (keeps_length (outline_layer ?w ?h _ _)) =>
  apply (keeps_of_safe w h), safe_outline_layer : keeps.
#[local] Hint Extern 1 (keeps_length (outline_from_mask _ ?w ?h _ _)) =>
  apply (keeps_of_safe w h), safe_outline_from_mask : keeps.

(** Taking apart a successful run of one op. *)
Ltac peel H :=
  repeat match type of H with
  | Py.bind ?c _ = Ok _ =>
      let E := fresh "E" in destruct c eqn:E; cbn [Py.bind] in H; [|discriminate H]
  | raise _ = Ok _ => discriminate H
  | Fail _ = Ok _ => discriminate H
  | (let '(_, _) := ?x in _) = Ok _ =>
      let E := fresh "E" in destruct x eqn:E
  | match ?x with _ => _ end = Ok _ =>
      let E := fresh "E" in destruct x eqn:E; try discriminate H
  end.

Lemma fmap_well_formed (w h c : Z) (st : state) :
  well_formed w h st ->
  well_formed w h (State ((fun _ => filled c w h) <$> layers st) (layer_order st) (current st)).
Proof.
  intros (Hnd & Hdom & Hlen). unfold well_formed. cbn [layers layer_order].
  split; [exact Hnd|]. split.
  - intros n. rewrite Hdom, lookup_fmap. unfold is_Some.
    destruct (layers st !! n); cbn; split; intros [x Hx]; eauto; discriminate.
  - intros n l. rewrite lookup_fmap. destruct (layers st !! n); cbn; [|discriminate].
    intros [= <-]. unfold filled. apply length_replicate.
Qed.

Lemma singleton_well_formed (w h : Z) (name cur : string) (m : list Z) :
  length m = Z.to_nat (w * h) -> well_formed w h (State {[ name := m ]} [name] cur).
Proof.
  intros Hm. unfold well_formed. cbn [layers layer_order]. split; [|split].
  - apply NoDup_singleton.
  - intros n. rewrite list_elem_of_singleton. split.
    + intros ->. rewrite lookup_singleton_eq. eauto.
    + intros [l Hl]. apply lookup_singleton_Some in Hl as [<- _]. reflexivity.
  - intros n l Hl. apply lookup_singleton_Some in Hl as [_ <-]. exact Hm.
Qed.

Lemma copy_well_formed (w h : Z) (st : state) (src dst : string) (l : list Z) :
  well_formed w h st ->
  layers st !! src = Some l ->
  well_formed w h
    (State (<[dst := l]> (layers st))
           (if bool_decide (dst ∈ layer_order st) then layer_order st
            else layer_order st ++ [dst])
           (current st)).
Proof.
  intros Hwf Hsrc. pose proof Hwf as (Hnd & Hdom & Hlen).
  assert (Hl : length l = Z.to_nat (w * h)) by (eapply Hlen, Hsrc).
  destruct (bool_decide (dst ∈ layer_order st)) eqn:Hin.
  - apply bool_decide_eq_true in Hin. apply Hdom in Hin as [old Hold].
    apply (insert_well_formed w h st (current st) dst old l Hwf Hold Hl).
  - apply bool_decide_eq_false in Hin.
    assert (Hnone : layers st !! dst = None).
    { destruct (layers st !! dst) eqn:E; [|reflexivity].
      exfalso. apply Hin, Hdom. rewrite E. eauto. }
    unfold well_formed. cbn [layers layer_order]. split; [|split].
    + apply NoDup_app. split; [exact Hnd|]. split; [|apply NoDup_singleton].
      intros x Hx Hx'. apply list_elem_of_singleton in Hx'. subst x. contradiction.
    + intros n. rewrite elem_of_app, list_elem_of_singleton, Hdom.
      destruct (decide (dst = n)) as [->|Hne].
      * rewrite lookup_insert_eq. split; eauto.
      * rewrite lookup_insert_ne by exact Hne.
        split; [intros [?|?]; congruence || assumption|auto].
    + intros n l'. destruct (decide (dst = n)) as [->|Hne].
      * rewrite lookup_insert_eq. congruence.
      * rewrite lookup_insert_ne by exact Hne. apply Hlen.
Qed.

Lemma step_well_formed (w h : Z) (st st' : state) (op : json) :
  well_formed w h st -> step w h st op = Ok st' -> well_formed w h st'.
Proof.
  intros Hwf H. unfold step in H.
  destruct (arg op 0) as [name|] eqn:Hname; cbn [Py.bind] in H; [|discriminate].
  cbv zeta in H.
  repeat match type of H with
  | (if PyVal.json_eqb name (JStr ?s) then _ else _) = Ok _ =>
      destruct (PyVal.json_eqb name (JStr s)); [peel H|]
  end.
  all: try discriminate H.
  all: try (eapply draw_well_formed; [|exact Hwf|exact H]; auto with keeps nocore; fail).
  all: try (injection H as <-).
  all: try exact Hwf.
  - apply fmap_well_formed, Hwf.
  - match goal with E : ensure_layer _ _ _ _ _ = _ |- _ =>
      apply (ensure_layer_well_formed w h st _ _ _ _ _ Hwf E) end.
  - apply singleton_well_formed.
    match goal with E : merged _ _ _ = Ok _ |- _ =>
      eapply merge_layers_length, E end.
  - eapply draw_well_formed; [|exact Hwf|exact H].
    repeat match goal with |- keeps_length (if ?b then _ else _) => destruct b end;
      first [apply keeps_mirror_x | apply keeps_mirror_y | apply keeps_ret].
  - match goal with E : layers st !! _ = Some _ |- _ =>
      apply (copy_well_formed w h st _ _ _ Hwf E) end.
Qed.

Lemma run_ops_well_formed (w h : Z) (ops : list json) (st st' : state) :
  well_formed w h st -> run_ops w h ops st = Ok st' -> well_formed w h st'.
Proof.
  unfold run_ops.
  apply (fold_m_invariant (well_formed w h)). intros s a s' _. apply step_well_formed.
Qed.

(** ** The merged view, pixel by pixel *)

Lemma overlay_lookup_total (src out : list Z) (i : nat) :
  length src = length out ->
  overlay src out !! i
  = match src !! i with
    | Some v => if v =? 0 then out !! i else Some v
    | None => None
    end.
Proof.
  revert out i. induction src as [|s src IH]; intros [|o out] [|i] Hlen; cbn in *;
    try discriminate; try reflexivity.
  - destruct (s =? 0); reflexivity.
  - apply IH. congruence.
Qed.

Lemma merge_layers_from (ls : gmap string (list Z)) (order : list string) (n : nat)
    (out : list Z) :
  (forall name l, name ∈ order -> ls !! name = Some l -> length l = n) ->
  length out = n ->
  exists out',
    fold_m (fun out lname =>
              match ls !! lname with
              | None => Ok out
              | Some src =>
                  fold_m (fun (o : list Z) '(i, v) =>
                            if negb (v =? 0) then PyVal.set o i v else Ok o)
                         (Layers.enumerate src) out
              end) order out = Ok out'
    /\ length out' = n
    /\ forall i v, out !! i = Some v ->
         out' !! i
         = Some (fold_left (fun acc name =>
                              match ls !! name with
                              | Some src =>
                                  match src !! i with
                                  | Some v => if v =? 0 then acc else v
                                  | None => acc
                                  end
                              | None => acc
                              end) order v).
Proof.
  revert out. induction order as [|name order IH]; intros out Hls Hout.
  - exists out. cbn. auto.
  - cbn [fold_m fold_left].
    assert (Hrest : forall name' l, name' ∈ order -> ls !! name' = Some l -> length l = n)
      by (intros name' l Hin; apply Hls; right; exact Hin).
    destruct (ls !! name) as [src|] eqn:Hsrc.
    + assert (Hsl : length src = n) by (eapply Hls; [left|exact Hsrc]).
      rewrite merge_round by lia. cbn [Py.bind].
      destruct (IH (overlay src out) Hrest) as (out' & Hf & Hl & Hp);
        [rewrite overlay_length; exact Hout|].
      exists out'. split; [exact Hf|]. split; [exact Hl|].
      intros i v Hv.
      assert (Hi : (i < length src)%nat) by (apply lookup_lt_Some in Hv; lia).
      destruct (lookup_lt_is_Some_2 src i Hi) as [s Hs].
      rewrite Hs.
      apply Hp. rewrite overlay_lookup_total by lia. rewrite Hs, Hv.
      destruct (s =? 0); reflexivity.
    + cbn [Py.bind]. destruct (IH out Hrest Hout) as (out' & Hf & Hl & Hp).
      exists out'. auto.
Qed.

Lemma top_pixel_snoc (ls : gmap string (list Z)) (order : list string) (n : string) (i : nat) :
  top_pixel ls (order ++ [n]) i
  = match ls !! n with
    | Some src =>
        match src !! i with
        | Some v => if v =? 0 then top_pixel ls order i else v
        | None => top_pixel ls order i
        end
    | None => top_pixel ls order i
    end.
Proof. unfold top_pixel. rewrite fold_left_app. reflexivity. Qed.

Lemma top_pixel_topmost (ls : gmap string (list Z)) (order : list string) (len i : nat) :
  (forall name l, name ∈ order -> ls !! name = Some l -> length l = len) ->
  (i < len)%nat ->
  topmost ls order i (top_pixel ls order i).
Proof.
  intros Hls Hi. induction order as [|n order IH] using rev_ind.
  - left. split; [reflexivity|constructor].
  - rewrite top_pixel_snoc.
    assert (Hrest : forall name l, name ∈ order -> ls !! name = Some l -> length l = len).
    { intros name l Hin. apply Hls. apply elem_of_app. left. exact Hin. }
    specialize (IH Hrest).
    assert (Hkeep : transparent_at ls i n -> topmost ls (order ++ [n]) i (top_pixel ls order i)).
    { intros Ht. destruct IH as [[H0 Hall]|[Hv (pre & m & post & src & -> & Hm & Hs & Hall)]].
      - left. split; [exact H0|]. apply Forall_app. split; [exact Hall|].
        constructor; [exact Ht|constructor].
      - right. split; [exact Hv|]. exists pre, m, (post ++ [n])%list, src.
        rewrite <- app_assoc. split; [reflexivity|]. split; [exact Hm|]. split; [exact Hs|].
        apply Forall_app. split; [exact Hall|]. constructor; [exact Ht|constructor]. }
    destruct (ls !! n) as [src|] eqn:Hn.
    + assert (Hl : length src = len).
      { eapply Hls; [|exact Hn]. apply elem_of_app. right. left. }
      destruct (lookup_lt_is_Some_2 src i ltac:(lia)) as [v Hv]. rewrite Hv.
      destruct (Z.eqb_spec v 0) as [->|Hne].
      * apply Hkeep. intros src' Hs'. rewrite Hn in Hs'. injection Hs' as <-. exact Hv.
      * right. split; [exact Hne|]. exists order, n, [], src.
        split; [reflexivity|]. split; [exact Hn|]. split; [exact Hv|]. constructor.
    + apply Hkeep. intros src' Hs'. rewrite Hn in Hs'. discriminate.
Qed.

Lemma merge_layers_pointwise (ls : gmap string (list Z)) (order : list string) (w h : Z) :
  (forall name l, name ∈ order -> ls !! name = Some l -> length l = Z.to_nat (w * h)) ->
  exists out,
    merge_layers ls order w h = Ok out
    /\ length out = Z.to_nat (w * h)
    /\ forall i, (i < Z.to_nat (w * h))%nat -> out !! i = Some (top_pixel ls order i).
Proof.
  intros Hls.
  destruct (merge_layers_from ls order (Z.to_nat (w * h)) (filled 0 w h) Hls)
    as (out & Hf & Hl & Hp).
  { unfold filled. apply length_replicate. }
  exists out. split; [exact Hf|]. split; [exact Hl|].
  intros i Hi. apply Hp. unfold filled. apply lookup_replicate. auto.
Qed.

(** X: [merge_layers] on layers of the canvas size returns a buffer of that
    size in which every pixel is the pixel of the last layer, in layer
    order, that is not zero there, and zero when every layer is zero there:
    later layers overwrite earlier ones and zero is transparent. *)
Theorem merge_layers_shows_topmost (ls : gmap string (list Z)) (order : list string) (w h : Z) :
  (forall name l, name ∈ order -> ls !! name = Some l -> length l = Z.to_nat (w * h)) ->
  exists out,
    merge_layers ls order w h = Ok out
    /\ length out = Z.to_nat (w * h)
    /\ forall i, (i < Z.to_nat (w * h))%nat ->
         exists v, out !! i = Some v /\ topmost ls order i v.
Proof.
  intros Hls. destruct (merge_layers_pointwise ls order w h Hls) as (out & Hm & Hl & Hp).
  exists out. split; [exact Hm|]. split; [exact Hl|].
  intros i Hi. exists (top_pixel ls order i). split; [apply Hp, Hi|].
  eapply top_pixel_topmost; [exact Hls|exact Hi].
Qed.

Lemma merge_layers_shows_topmost_witness :
  exists out,
    merge_layers {[ "a" := [1; 0; 0; 4]; "b" := [0; 7; 0; 9] ]} ["a"; "b"] 2 2 = Ok out
    /\ length out = Z.to_nat (2 * 2)
    /\ forall i, (i < Z.to_nat (2 * 2))%nat ->
         exists v, out !! i = Some v
                   /\ topmost {[ "a" := [1; 0; 0; 4]; "b" := [0; 7; 0; 9] ]} ["a"; "b"] i v.
Proof.
  apply (merge_layers_shows_topmost {[ "a" := [1; 0; 0; 4]; "b" := [0; 7; 0; 9] ]}
           ["a"; "b"] 2 2).
  intros name l Hin Hl.
  apply elem_of_cons in Hin as [->|Hin].
  - vm_compute in Hl. injection Hl as <-. reflexivity.
  - apply elem_of_cons in Hin as [->|Hin]; [|inversion Hin].
    vm_compute in Hl. injection Hl as <-. reflexivity.
Defined.





(** ** What the integer primitives paint *)

Lemma paints_skip (n : nat) (c : Z) : paints n c (fun _ => false) skip.
Proof.
  intros m Hm. exists m. split; [reflexivity|]. split; [exact Hm|]. reflexivity.
Qed.

Lemma paints_store (n : nat) (c i : Z) :
  0 <= i < Z.of_nat n -> paints n c (fun j => bool_decide (j = Z.to_nat i)) (store i c).
Proof.
  intros Hi m Hm. unfold store. rewrite set_in_range by lia.
  eexists. split; [reflexivity|]. cbn [cells].
  split; [rewrite length_insert; exact Hm|].
  intros j Hj. case_bool_decide as Hji.
  - subst j. apply list_lookup_insert_eq. lia.
  - apply list_lookup_insert_ne. congruence.
Qed.

Lemma paints_ext (n : nat) (c : Z) (P Q : nat -> bool) (cmd : M unit) :
  (forall j, (j < n)%nat -> P j = Q j) -> paints n c P cmd -> paints n c Q cmd.
Proof.
  intros Hpq Hp m Hm. destruct (Hp m Hm) as (m' & Hr & Hl & Hpix).
  exists m'. split; [exact Hr|]. split; [exact Hl|].
  intros j Hj. rewrite <- Hpq by exact Hj. apply Hpix, Hj.
Qed.

Lemma paints_seq (n : nat) (c : Z) (P Q : nat -> bool) (a b : M unit) :
  paints n c P a -> paints n c Q b -> paints n c (fun j => P j || Q j) (a ;;; b).
Proof.
  intros Ha Hb m Hm. rewrite bind_run.
  destruct (Ha m Hm) as (m1 & -> & Hl1 & Hp1).
  destruct (Hb m1 Hl1) as (m2 & -> & Hl2 & Hp2).
  exists m2. split; [reflexivity|]. split; [exact Hl2|].
  intros j Hj. rewrite Hp2, Hp1 by exact Hj.
  destruct (P j), (Q j); reflexivity.
Qed.

Lemma paints_for_each {A} (n : nat) (c : Z) (P : A -> nat -> bool) (l : list A)
    (body : A -> M unit) :
  (forall a, a ∈ l -> paints n c (P a) (body a)) ->
  paints n c (fun j => existsb (fun a => P a j) l) (for_each l body).
Proof.
  induction l as [|a l IH]; intros Hb; cbn [for_each existsb].
  - apply paints_skip.
  - apply (paints_seq n c (P a) (fun j => existsb (fun a => P a j) l)).
    + apply Hb. left.
    + apply IH. intros b Hb'. apply Hb. right. exact Hb'.
Qed.

(** A pixel inside the canvas has its index inside the buffer, and two
    pixels of the canvas with the same index are the same pixel. *)
Lemma pixel_index_bound (w h x y : Z) :
  0 <= x < w -> 0 <= y < h -> 0 <= y * w + x < w * h.
Proof. intros Hx Hy. nia. Qed.

Lemma pixel_index_inj (w x y x' y' : Z) :
  0 <= x < w -> 0 <= x' < w -> 0 <= y -> 0 <= y' ->
  pixel_index w x y = pixel_index w x' y' -> x = x' /\ y = y'.
Proof.
  unfold pixel_index. intros Hx Hx' Hy Hy' H.
  assert (E : y * w + x = y' * w + x') by nia.
  assert (y = y') by nia. subst. lia.
Qed.

(** ** rect_fill *)

Lemma existsb_range (a b : Z) (f : Z -> bool) :
  existsb f (range a b) = true <-> exists i, a <= i < b /\ f i = true.
Proof.
  rewrite existsb_exists. split; intros (i & Hi & Hf); exists i; (split; [|exact Hf]).
  - apply elem_of_range, list_elem_of_In, Hi.
  - apply list_elem_of_In, elem_of_range, Hi.
Qed.

Lemma paints_if (n : nat) (c : Z) (b : bool) (P : nat -> bool) (cmd : M unit) :
  (b = true -> paints n c P cmd) ->
  paints n c (fun j => b && P j) (if b then cmd else skip).
Proof.
  destruct b; intros H; [apply H; reflexivity|apply paints_skip].
Qed.

(** The nested loops over the rows and columns of a rectangle, clipped to
    the canvas. *)
Lemma paints_grid (n : nat) (w h c ya yb xa xb : Z) (sel : Z -> Z -> bool)
    (cell : Z -> Z -> M unit) :
  (forall xx yy, 0 <= xx < w -> 0 <= yy < h ->
     paints n c (fun j => sel xx yy && bool_decide (j = pixel_index w xx yy)) (cell xx yy)) ->
  paints n c
    (fun j => existsb (fun yy =>
                ((0 <=? yy) && (yy <? h))
                && existsb (fun xx =>
                     ((0 <=? xx) && (xx <? w))
                     && (sel xx yy && bool_decide (j = pixel_index w xx yy)))
                   (range xa xb))
              (range ya yb))
    (for_each (range ya yb) (fun yy =>
       if (0 <=? yy) && (yy <? h) then
         for_each (range xa xb) (fun xx =>
           if (0 <=? xx) && (xx <? w) then cell xx yy else skip)
       else skip)).
Proof.
  intros Hcell.
  apply (paints_for_each n c
           (fun yy j => ((0 <=? yy) && (yy <? h))
                        && existsb (fun xx =>
                             ((0 <=? xx) && (xx <? w))
                             && (sel xx yy && bool_decide (j = pixel_index w xx yy)))
                           (range xa xb))).
  intros yy _. apply paints_if. intros Hy.
  apply (paints_for_each n c
           (fun xx j => ((0 <=? xx) && (xx <? w))
                        && (sel xx yy && bool_decide (j = pixel_index w xx yy)))).
  intros xx _. apply paints_if. intros Hx.
  apply Hcell; lia.
Qed.

Lemma grid_pixel (w h ya yb xa xb : Z) (sel : Z -> Z -> bool) (x y : Z) :
  0 <= x < w -> 0 <= y < h ->
  existsb (fun yy =>
     ((0 <=? yy) && (yy <? h))
     && existsb (fun xx =>
          ((0 <=? xx) && (xx <? w))
          && (sel xx yy && bool_decide (pixel_index w x y = pixel_index w xx yy)))
        (range xa xb))
    (range ya yb)
  = (ya <=? y) && (y <? yb) && ((xa <=? x) && (x <? xb)) && sel x y.
Proof.
  intros Hx Hy. apply eq_true_iff_eq. rewrite existsb_range. split.
  - intros (yy & Hyy & H). apply andb_true_iff in H as [Hrow H].
    apply existsb_range in H as (xx & Hxx & H).
    apply andb_true_iff in H as [Hcol H]. apply andb_true_iff in H as [Hsel H].
    apply bool_decide_eq_true in H.
    apply pixel_index_inj in H as [-> ->]; [|lia..].
    rewrite Hsel. repeat (apply andb_true_iff; split); try reflexivity; lia.
  - intros H. repeat (apply andb_true_iff in H as [H ?]).
    exists y. split; [lia|]. apply andb_true_iff. split; [lia|].
    apply existsb_range. exists x. split; [lia|].
    repeat (apply andb_true_iff; split); try lia; try assumption.
    apply bool_decide_eq_true. reflexivity.
Qed.

Lemma paints_to_pixels (w h c : Z) (P : nat -> bool) (R : Z -> Z -> bool) (cmd : M unit) :
  paints (Z.to_nat (w * h)) c P cmd ->
  (forall x y, 0 <= x < w -> 0 <= y < h -> P (pixel_index w x y) = R x y) ->
  paints_pixels w h c R cmd.
Proof.
  intros Hp Hr buf Hbuf. unfold run.
  destruct (Hp (Mem buf []) Hbuf) as (m' & -> & Hl & Hpix).
  exists (cells m'). split; [reflexivity|]. split; [exact Hl|].
  intros x y Hx Hy. rewrite <- Hr by assumption. apply Hpix.
  unfold pixel_index. pose proof (pixel_index_bound w h x y Hx Hy). lia.
Qed.

Lemma paints_cell (w h c : Z) (b : bool) (xx yy : Z) :
  0 <= xx < w -> 0 <= yy < h ->
  paints (Z.to_nat (w * h)) c (fun j => b && bool_decide (j = pixel_index w xx yy))
    (if b then store (yy * w + xx) c else skip).
Proof.
  intros Hx Hy. apply paints_if. intros _. apply paints_store.
  pose proof (pixel_index_bound w h xx yy Hx Hy). lia.
Qed.

Lemma rect_fill_paints (w h c x y rw rh : Z) :
  paints_pixels w h c (in_rect x y rw rh) (rect_fill w h c x y rw rh).
Proof.
  eapply paints_to_pixels.
  - unfold rect_fill.
    apply (paints_grid _ w h c y (y + rh) x (x + rw) (fun _ _ => true)
             (fun xx yy => store (yy * w + xx) c)).
    intros xx yy Hx Hy. apply (paints_cell w h c true xx yy Hx Hy).
  - intros px py Hx Hy. cbv beta. rewrite (grid_pixel w h) by assumption.
    unfold in_rect. destruct (x <=? px), (px <? x + rw), (y <=? py), (py <? y + rh); reflexivity.
Qed.

Lemma dither_rect_paints (w h c x y rw rh : Z) (pattern : string) :
  paints_pixels w h c (fun px py => in_rect x y rw rh px py && dithered pattern px py)
    (dither_rect w h c x y rw rh pattern).
Proof.
  eapply paints_to_pixels.
  - unfold dither_rect.
    apply (paints_grid _ w h c y (y + rh) x (x + rw) (dithered pattern)
             (fun xx yy =>
                if String.eqb pattern "checker" then
                  (if (xx + yy) mod 2 =? 0 then store (yy * w + xx) c else skip)
                else if String.eqb pattern "dots" then
                  (if (xx mod 2 =? 0) && (yy mod 2 =? 0) then store (yy * w + xx) c else skip)
                else skip)).
    intros xx yy Hx Hy. unfold dithered.
    destruct (String.eqb pattern "checker"); [apply (paints_cell w h c _ xx yy Hx Hy)|].
    destruct (String.eqb pattern "dots"); [apply (paints_cell w h c _ xx yy Hx Hy)|].
    apply paints_skip.
  - intros px py Hx Hy. cbv beta. rewrite (grid_pixel w h) by assumption.
    unfold in_rect.
    destruct (x <=? px), (px <? x + rw), (y <=? py), (py <? y + rh); reflexivity.
Qed.

(** ** plot, rect_stroke *)

Lemma paints_plot (w h c x y : Z) :
  paints (Z.to_nat (w * h)) c
    (fun j => in_bounds x y w h && bool_decide (j = pixel_index w x y)) (plot w h c x y).
Proof.
  unfold plot. apply paints_if. intros Hin. apply paints_store.
  apply in_bounds_inside in Hin. unfold inside in Hin. lia.
Qed.

Lemma plot_hits (w h a b px py : Z) :
  0 <= px < w -> 0 <= py < h ->
  in_bounds a b w h && bool_decide (pixel_index w px py = pixel_index w a b) = true
  <-> a = px /\ b = py.
Proof.
  intros Hx Hy. rewrite andb_true_iff, bool_decide_eq_true. unfold in_bounds. split.
  - intros [Hin He]. apply pixel_index_inj in He; [lia|lia..].
  - intros [-> ->]. split; [|reflexivity]. lia.
Qed.

Lemma rect_stroke_paints (w h c x y rw rh : Z) :
  paints_pixels w h c (on_stroke x y rw rh) (rect_stroke w h c x y rw rh).
Proof.
  eapply paints_to_pixels.
  - unfold rect_stroke. apply paints_seq.
    + apply (paints_for_each _ c
               (fun i j =>
                  in_bounds (x + i) y w h && bool_decide (j = pixel_index w (x + i) y)
                  || in_bounds (x + i) (y + rh - 1) w h
                     && bool_decide (j = pixel_index w (x + i) (y + rh - 1)))).
      intros i _. apply paints_seq; apply paints_plot.
    + apply (paints_for_each _ c
               (fun i j =>
                  in_bounds x (y + i) w h && bool_decide (j = pixel_index w x (y + i))
                  || in_bounds (x + rw - 1) (y + i) w h
                     && bool_decide (j = pixel_index w (x + rw - 1) (y + i)))).
      intros i _. apply paints_seq; apply paints_plot.
  - intros px py Hx Hy. cbv beta. apply eq_true_iff_eq.
    unfold on_stroke. rewrite !orb_true_iff, !existsb_range. split.
    + intros [(i & Hi & H)|(i & Hi & H)]; apply orb_true_iff in H as [H|H];
        apply (plot_hits w h) in H as [Ha Hb]; try assumption; [left|left|right|right]; lia.
    + intros [H|H].
      * left. exists (px - x). split; [lia|]. apply orb_true_iff.
        destruct (Z.eq_dec py y) as [->|Hne]; [left|right]; apply (plot_hits w h); lia.
      * right. exists (py - y). split; [lia|]. apply orb_true_iff.
        destruct (Z.eq_dec px x) as [->|Hne]; [left|right]; apply (plot_hits w h); lia.
Qed.

(** X: on a buffer of the canvas size [rect_fill] returns and leaves
    exactly the pixels of the rectangle, clipped to the canvas, set to the
    colour; all the other pixels are as they were. A width or height that
    is zero or negative paints nothing. *)
Theorem rect_fill_paints_rectangle (w h c x y rw rh : Z) (buf : list Z) :
  length buf = Z.to_nat (w * h) ->
  exists buf',
    run (rect_fill w h c x y rw rh) buf = (Ok tt, buf')
    /\ length buf' = Z.to_nat (w * h)
    /\ forall px py, 0 <= px < w -> 0 <= py < h ->
         buf' !! pixel_index w px py
         = if in_rect x y rw rh px py then Some c else buf !! pixel_index w px py.
Proof. apply rect_fill_paints. Qed.

Lemma rect_fill_paints_rectangle_witness :
  exists buf',
    run (rect_fill 3 2 7 1 (-1) 5 2) [0; 0; 0; 0; 0; 0] = (Ok tt, buf')
    /\ length buf' = Z.to_nat (3 * 2)
    /\ forall px py, 0 <= px < 3 -> 0 <= py < 2 ->
         buf' !! pixel_index 3 px py
         = if in_rect 1 (-1) 5 2 px py then Some 7
           else [0; 0; 0; 0; 0; 0] !! pixel_index 3 px py.
Proof. apply (rect_fill_paints_rectangle 3 2 7 1 (-1) 5 2 [0; 0; 0; 0; 0; 0]). reflexivity. Defined.

(** X: on a buffer of the canvas size [rect_stroke] returns and sets
    exactly these pixels of the canvas: rows [y] and [y + rh - 1] over the
    columns [x .. x + rw - 1], and columns [x] and [x + rw - 1] over the
    rows [y .. y + rh - 1]. So with a width of zero and a positive height
    it still draws the columns [x] and [x - 1]. *)
Theorem rect_stroke_paints_border (w h c x y rw rh : Z) (buf : list Z) :
  length buf = Z.to_nat (w * h) ->
  exists buf',
    run (rect_stroke w h c x y rw rh) buf = (Ok tt, buf')
    /\ length buf' = Z.to_nat (w * h)
    /\ forall px py, 0 <= px < w -> 0 <= py < h ->
         buf' !! pixel_index w px py
         = if on_stroke x y rw rh px py then Some c else buf !! pixel_index w px py.
Proof. apply rect_stroke_paints. Qed.

Lemma rect_stroke_paints_border_witness :
  exists buf',
    run (rect_stroke 3 2 7 1 0 0 2) [0; 0; 0; 0; 0; 0] = (Ok tt, buf')
    /\ length buf' = Z.to_nat (3 * 2)
    /\ forall px py, 0 <= px < 3 -> 0 <= py < 2 ->
         buf' !! pixel_index 3 px py
         = if on_stroke 1 0 0 2 px py then Some 7
           else [0; 0; 0; 0; 0; 0] !! pixel_index 3 px py.
Proof. apply (rect_stroke_paints_border 3 2 7 1 0 0 2 [0; 0; 0; 0; 0; 0]). reflexivity. Defined.

(** X: on a buffer of the canvas size [dither_rect] returns and sets
    exactly the pixels of the clipped rectangle that the pattern selects:
    [(x + y) % 2 == 0] for ["checker"], both coordinates even for
    ["dots"], in canvas coordinates; any other pattern name paints
    nothing and raises nothing. *)
Theorem dither_rect_paints_pattern (w h c x y rw rh : Z) (pattern : string) (buf : list Z) :
  length buf = Z.to_nat (w * h) ->
  exists buf',
    run (dither_rect w h c x y rw rh pattern) buf = (Ok tt, buf')
    /\ length buf' = Z.to_nat (w * h)
    /\ forall px py, 0 <= px < w -> 0 <= py < h ->
         buf' !! pixel_index w px py
         = if in_rect x y rw rh px py && dithered pattern px py then Some c
           else buf !! pixel_index w px py.
Proof. apply dither_rect_paints. Qed.

Lemma dither_rect_paints_pattern_witness :
  exists buf',
    run (dither_rect 3 2 7 0 0 3 2 "stripes") [0; 0; 0; 0; 0; 0] = (Ok tt, buf')
    /\ length buf' = Z.to_nat (3 * 2)
    /\ forall px py, 0 <= px < 3 -> 0 <= py < 2 ->
         buf' !! pixel_index 3 px py
         = if in_rect 0 0 3 2 px py && dithered "stripes" px py then Some 7
           else [0; 0; 0; 0; 0; 0] !! pixel_index 3 px py.
Proof.
  apply (dither_rect_paints_pattern 3 2 7 0 0 3 2 "stripes" [0; 0; 0; 0; 0; 0]). reflexivity.
Defined.

(** ** draw_line *)

(** Bresenham's loop paints the pixel it is at, reaches the end point, and
    stays on the grid between the two. *)
Lemma draw_line_loop_paints (n : nat) (w h color x0 y0 dx ady sx sy i j err x y : Z) :
  0 <= i <= dx -> 0 <= j <= ady ->
  sx = 1 \/ sx = -1 -> sy = 1 \/ sy = -1 ->
  err = (1 + i) * (- ady) + (1 + j) * dx ->
  x = x0 + sx * i -> y = y0 + sy * j ->
  (Z.to_nat (dx - i + (ady - j)) < n)%nat ->
  exists P,
    paints (Z.to_nat (w * h)) color P
      (draw_line_loop n w h color (x0 + sx * dx) (y0 + sy * ady) dx (- ady) sx sy err x y)
    /\ (in_bounds x y w h = true -> P (pixel_index w x y) = true)
    /\ (in_bounds (x0 + sx * dx) (y0 + sy * ady) w h = true ->
        P (pixel_index w (x0 + sx * dx) (y0 + sy * ady)) = true)
    /\ (forall k, P k = true ->
          exists i' j', 0 <= i' <= dx /\ 0 <= j' <= ady
                        /\ in_bounds (x0 + sx * i') (y0 + sy * j') w h = true
                        /\ k = pixel_index w (x0 + sx * i') (y0 + sy * j')).
Proof.
  revert i j err x y. induction n as [|n IH]; intros i j err x y Hi Hj Hsx Hsy He Hx Hy Hn;
    [lia|].
  cbn [draw_line_loop].
  set (here := fun k : nat => in_bounds x y w h && bool_decide (k = pixel_index w x y)).
  assert (Hhere : forall k, here k = true ->
            exists i' j', 0 <= i' <= dx /\ 0 <= j' <= ady
                          /\ in_bounds (x0 + sx * i') (y0 + sy * j') w h = true
                          /\ k = pixel_index w (x0 + sx * i') (y0 + sy * j')).
  { intros k Hk. apply andb_true_iff in Hk as [Hin Hk]. apply bool_decide_eq_true in Hk.
    exists i, j. subst x y. auto. }
  assert (Hself : in_bounds x y w h = true -> here (pixel_index w x y) = true).
  { intros Hin. unfold here. rewrite Hin. apply bool_decide_eq_true. reflexivity. }
  destruct ((x =? x0 + sx * dx) && (y =? y0 + sy * ady)) eqn:Hend.
  - apply andb_true_iff in Hend as [Ex Ey].
    apply Z.eqb_eq in Ex, Ey.
    exists (fun k => here k || false). split; [apply paints_seq; [apply paints_plot|apply paints_skip]|].
    split; [intros Hin; rewrite Hself by exact Hin; reflexivity|].
    split; [rewrite <- Ex, <- Ey; intros Hin; rewrite Hself by exact Hin; reflexivity|].
    intros k Hk. rewrite orb_false_r in Hk. apply Hhere, Hk.
  - assert (Hnot : ~ (i = dx /\ j = ady)).
    { intros [-> ->]. subst x y. rewrite !Z.eqb_refl in Hend. discriminate. }
    assert (Hstep : forall i2 j2 err2 x2 y2,
              x2 = x0 + sx * i2 -> y2 = y0 + sy * j2 ->
              0 <= i2 <= dx -> 0 <= j2 <= ady ->
              err2 = (1 + i2) * (- ady) + (1 + j2) * dx ->
              (Z.to_nat (dx - i2 + (ady - j2)) < n)%nat ->
              exists P,
                paints (Z.to_nat (w * h)) color P
                  (plot w h color x y;;;
                   draw_line_loop n w h color (x0 + sx * dx) (y0 + sy * ady) dx (- ady) sx sy
                     err2 x2 y2)
                /\ (in_bounds x y w h = true -> P (pixel_index w x y) = true)
                /\ (in_bounds (x0 + sx * dx) (y0 + sy * ady) w h = true ->
                    P (pixel_index w (x0 + sx * dx) (y0 + sy * ady)) = true)
                /\ (forall k, P k = true ->
                      exists i' j', 0 <= i' <= dx /\ 0 <= j' <= ady
                                    /\ in_bounds (x0 + sx * i') (y0 + sy * j') w h = true
                                    /\ k = pixel_index w (x0 + sx * i') (y0 + sy * j'))).
    { intros i2 j2 err2 x2 y2 -> -> Hi2 Hj2 He2 Hn2.
      destruct (IH i2 j2 err2 _ _ Hi2 Hj2 Hsx Hsy He2 eq_refl eq_refl Hn2)
        as (P & Hp & _ & Hlast & Hgrid).
      exists (fun k => here k || P k).
      split; [apply paints_seq; [apply paints_plot|exact Hp]|].
      split; [intros Hin; rewrite Hself by exact Hin; reflexivity|].
      split; [intros Hin; rewrite Hlast by exact Hin; apply orb_true_r|].
      intros k Hk. apply orb_true_iff in Hk as [Hk|Hk]; [apply Hhere, Hk|apply Hgrid, Hk]. }
    cbv zeta.
    destruct (Z.geb_spec (2 * err) (- ady)) as [Hge|Hlt];
      destruct (Z.leb_spec (2 * err) dx) as [Hle|Hgt].
    + apply (Hstep (i + 1) (j + 1)); nia.
    + apply (Hstep (i + 1) j); nia.
    + apply (Hstep i (j + 1)); nia.
    + nia.
Qed.

(** X: on a buffer of the canvas size [draw_line] returns, whatever the
    end points; both end points, when they are on the canvas, hold the
    colour afterwards; every pixel either holds the colour or is as it
    was; and no pixel outside the bounding box of the end points changes. *)
Theorem draw_line_paints_segment (w h c x0 y0 x1 y1 : Z) (buf : list Z) :
  length buf = Z.to_nat (w * h) ->
  exists buf',
    run (draw_line w h c x0 y0 x1 y1) buf = (Ok tt, buf')
    /\ length buf' = Z.to_nat (w * h)
    /\ (in_bounds x0 y0 w h = true -> buf' !! pixel_index w x0 y0 = Some c)
    /\ (in_bounds x1 y1 w h = true -> buf' !! pixel_index w x1 y1 = Some c)
    /\ forall x y, 0 <= x < w -> 0 <= y < h ->
         (buf' !! pixel_index w x y = Some c
          /\ Z.min x0 x1 <= x <= Z.max x0 x1 /\ Z.min y0 y1 <= y <= Z.max y0 y1)
         \/ buf' !! pixel_index w x y = buf !! pixel_index w x y.
Proof.
  intros Hbuf. unfold draw_line.
  set (sx := if x0 <? x1 then 1 else -1). set (sy := if y0 <? y1 then 1 else -1).
  assert (Hx1 : x1 = x0 + sx * Z.abs (x1 - x0))
    by (subst sx; destruct (Z.ltb_spec x0 x1); lia).
  assert (Hy1 : y1 = y0 + sy * Z.abs (y1 - y0))
    by (subst sy; destruct (Z.ltb_spec y0 y1); lia).
  assert (Hsx : sx = 1 \/ sx = -1) by (subst sx; destruct (x0 <? x1); auto).
  assert (Hsy : sy = 1 \/ sy = -1) by (subst sy; destruct (y0 <? y1); auto).
  destruct (draw_line_loop_paints
              (S (Z.to_nat (Z.abs (x1 - x0) - - Z.abs (y1 - y0)))) w h c x0 y0
              (Z.abs (x1 - x0)) (Z.abs (y1 - y0)) sx sy 0 0
              (Z.abs (x1 - x0) + - Z.abs (y1 - y0)) x0 y0)
    as (P & Hp & Hfirst & Hlast & Hgrid); try lia; try assumption.
  rewrite <- Hx1, <- Hy1 in Hp, Hlast.
  unfold run. destruct (Hp (Mem buf []) Hbuf) as (m' & -> & Hl & Hpix).
  cbn [cells] in Hpix.
  assert (Hidx : forall x y, in_bounds x y w h = true -> (pixel_index w x y < Z.to_nat (w * h))%nat).
  { intros x y Hin. apply in_bounds_inside in Hin. unfold inside, pixel_index in *. lia. }
  exists (cells m'). split; [reflexivity|]. split; [exact Hl|].
  split; [intros Hin; rewrite Hpix, Hfirst by auto; reflexivity|].
  split; [intros Hin; rewrite Hpix, Hlast by auto; reflexivity|].
  intros x y Hx Hy.
  assert (Hin : in_bounds x y w h = true) by (unfold in_bounds; lia).
  rewrite Hpix by auto.
  destruct (P (pixel_index w x y)) eqn:HP; [left|right; reflexivity].
  split; [reflexivity|].
  destruct (Hgrid _ HP) as (i' & j' & Hi' & Hj' & Hin' & He).
  unfold in_bounds in Hin'.
  apply pixel_index_inj in He as [-> ->]; [|lia..].
  destruct Hsx as [-> | ->], Hsy as [-> | ->]; lia.
Qed.

Lemma draw_line_paints_segment_witness :
  exists buf',
    run (draw_line 3 2 7 0 0 5 1) [0; 0; 0; 0; 0; 0] = (Ok tt, buf')
    /\ length buf' = Z.to_nat (3 * 2)
    /\ (in_bounds 0 0 3 2 = true -> buf' !! pixel_index 3 0 0 = Some 7)
    /\ (in_bounds 5 1 3 2 = true -> buf' !! pixel_index 3 5 1 = Some 7)
    /\ forall x y, 0 <= x < 3 -> 0 <= y < 2 ->
         (buf' !! pixel_index 3 x y = Some 7
          /\ Z.min 0 5 <= x <= Z.max 0 5 /\ Z.min 0 1 <= y <= Z.max 0 1)
         \/ buf' !! pixel_index 3 x y = [0; 0; 0; 0; 0; 0] !! pixel_index 3 x y.
Proof. apply (draw_line_paints_segment 3 2 7 0 0 5 1 [0; 0; 0; 0; 0; 0]). reflexivity. Defined.

(** ** flood_fill *)

(** The flood loop returns; it only ever turns a pixel that holds the
    target colour into the fill colour. *)
Lemma flood_loop_recolours (n : nat) (w h color target : Z) (q : list (Z * Z)) (m : mem) :
  color <> target ->
  length (cells m) = Z.to_nat (w * h) ->
  (length q + 4 * count_of target (cells m) < n)%nat ->
  exists m',
    flood_loop n w h color target q m = (Ok tt, m')
    /\ length (cells m') = Z.to_nat (w * h)
    /\ forall j, cells m' !! j = cells m !! j
                 \/ (cells m !! j = Some target /\ cells m' !! j = Some color).
Proof.
  intros Hc. revert q m. induction n as [|n IH]; intros q m Hm Hn; [lia|].
  cbn [flood_loop]. destruct q as [|[x y] q]; [exists m; auto|].
  cbn [length] in Hn.
  destruct (in_bounds x y w h) eqn:Hin; cbn [negb]; [|apply IH; [exact Hm|lia]].
  apply in_bounds_inside in Hin. unfold inside in Hin.
  rewrite bind_run. unfold load.
  rewrite get_in_range by lia.
  destruct (Z.eqb_spec (cells m !!! Z.to_nat (y * w + x)) target) as [Ht|Ht]; cbn [negb];
    [|apply IH; [exact Hm|lia]].
  rewrite bind_run. unfold store. rewrite set_in_range by lia.
  assert (Hlook : cells m !! Z.to_nat (y * w + x) = Some target).
  { rewrite <- Ht. apply list_lookup_lookup_total_lt. lia. }
  pose proof (count_of_insert target color (cells m) _ Hlook Hc) as Hcount.
  destruct (IH (q ++ [(x + 1, y); (x - 1, y); (x, y + 1); (x, y - 1)])%list
              (Mem (<[Z.to_nat (y * w + x) := color]> (cells m)) (y * w + x :: writes m)))
    as (m' & Hr & Hl & Hpix); cbn [cells].
  - rewrite length_insert. exact Hm.
  - rewrite length_app. cbn [length]. lia.
  - exists m'. split; [exact Hr|]. split; [exact Hl|].
    intros j. cbn [cells] in Hpix.
    destruct (decide (j = Z.to_nat (y * w + x))) as [->|Hne].
    + right. split; [exact Hlook|].
      destruct (Hpix (Z.to_nat (y * w + x))) as [E|[E _]].
      * rewrite E. apply list_lookup_insert_eq. lia.
      * rewrite list_lookup_insert_eq in E by lia. congruence.
    + destruct (Hpix j) as [E|[E1 E2]]; rewrite list_lookup_insert_ne in * by congruence; auto.
Qed.

(** X: on a buffer of the canvas size [flood_fill] returns; a pixel is
    as it was or it held the seed's colour and now holds the fill colour;
    and a seed on the canvas holds the fill colour afterwards. A seed off
    the canvas changes nothing. *)
Theorem flood_fill_recolours_target (w h color sx sy : Z) (buf : list Z) :
  length buf = Z.to_nat (w * h) ->
  exists buf',
    run (flood_fill w h color sx sy) buf = (Ok tt, buf')
    /\ length buf' = Z.to_nat (w * h)
    /\ (in_bounds sx sy w h = false -> buf' = buf)
    /\ (in_bounds sx sy w h = true ->
        buf' !! pixel_index w sx sy = Some color
        /\ forall j, buf' !! j = buf !! j
                     \/ (buf !! j = buf !! pixel_index w sx sy /\ buf' !! j = Some color)).
Proof.
  intros Hbuf. unfold run, flood_fill.
  destruct (in_bounds sx sy w h) eqn:Hin; cbn [negb];
    [|exists buf; split; [reflexivity|]; split; [exact Hbuf|]; split; [reflexivity|discriminate]].
  pose proof Hin as Hb. apply in_bounds_inside in Hin. unfold inside in Hin.
  rewrite bind_run. unfold load. cbn [cells]. rewrite get_in_range by lia.
  assert (Hseed : buf !! pixel_index w sx sy = Some (buf !!! Z.to_nat (sy * w + sx))).
  { apply list_lookup_lookup_total_lt. lia. }
  destruct (Z.eqb_spec (buf !!! Z.to_nat (sy * w + sx)) color) as [Ht|Ht].
  - exists buf. split; [reflexivity|]. split; [exact Hbuf|]. split; [discriminate|].
    intros _. split; [rewrite Hseed, Ht; reflexivity|]. intros j. left. reflexivity.
  - destruct (flood_loop_recolours (S (S (Z.to_nat (4 * (w * h))))) w h color
                (buf !!! Z.to_nat (sy * w + sx)) [(sx, sy)] (Mem buf []))
      as (m' & Hr & Hl & Hpix); [congruence|exact Hbuf| |].
    { pose proof (count_of_le (buf !!! Z.to_nat (sy * w + sx)) buf).
      cbn [length cells]. lia. }
    rewrite Hr. exists (cells m'). split; [reflexivity|]. split; [exact Hl|].
    split; [discriminate|]. intros _. cbn [cells] in Hpix.
    assert (Hall : forall j, cells m' !! j = buf !! j
                     \/ (buf !! j = buf !! pixel_index w sx sy /\ cells m' !! j = Some color)).
    { intros j. destruct (Hpix j) as [E|[E1 E2]]; [left; exact E|right].
      split; [rewrite Hseed; exact E1|exact E2]. }
    split; [|exact Hall].
    (* the first iteration fills the seed *)
    cbn [flood_loop] in Hr.
    rewrite Hb in Hr. cbn [negb] in Hr.
    rewrite bind_run in Hr. unfold load in Hr. cbn [cells] in Hr.
    rewrite get_in_range in Hr by lia. rewrite Z.eqb_refl in Hr. cbn [negb] in Hr.
    rewrite bind_run in Hr. unfold store in Hr. cbn [cells] in Hr.
    rewrite set_in_range in Hr by lia.
    destruct (flood_loop_recolours (S (Z.to_nat (4 * (w * h)))) w h color
                (buf !!! Z.to_nat (sy * w + sx))
                ([] ++ [(sx + 1, sy); (sx - 1, sy); (sx, sy + 1); (sx, sy - 1)])%list
                (Mem (<[Z.to_nat (sy * w + sx) := color]> buf) [sy * w + sx]))
      as (m2 & Hr2 & _ & Hpix2); [congruence|cbn [cells]; rewrite length_insert; exact Hbuf| |].
    { pose proof (count_of_insert (buf !!! Z.to_nat (sy * w + sx)) color buf _ Hseed
                    ltac:(congruence)) as Hc.
      pose proof (count_of_le (buf !!! Z.to_nat (sy * w + sx)) buf).
      unfold pixel_index in Hc. cbn [length cells app]. lia. }
    assert (E : flood_loop (S (Z.to_nat (4 * (w * h)))) w h color
                  (buf !!! Z.to_nat (sy * w + sx))
                  ([] ++ [(sx + 1, sy); (sx - 1, sy); (sx, sy + 1); (sx, sy - 1)])%list
                  (Mem (<[Z.to_nat (sy * w + sx) := color]> buf) [sy * w + sx])
                = (Ok tt, m')) by exact Hr.
    rewrite Hr2 in E. injection E as <-.
    cbn [cells] in Hpix2. unfold pixel_index.
    destruct (Hpix2 (Z.to_nat (sy * w + sx))) as [E|[E _]].
    + rewrite E. apply list_lookup_insert_eq. lia.
    + rewrite list_lookup_insert_eq in E by lia. congruence.
Qed.

Lemma flood_fill_recolours_target_witness :
  exists buf',
    run (flood_fill 3 1 5 0 0) [1; 1; 2] = (Ok tt, buf')
    /\ length buf' = Z.to_nat (3 * 1)
    /\ (in_bounds 0 0 3 1 = false -> buf' = [1; 1; 2])
    /\ (in_bounds 0 0 3 1 = true ->
        buf' !! pixel_index 3 0 0 = Some 5
        /\ forall j, buf' !! j = [1; 1; 2] !! j
                     \/ ([1; 1; 2] !! j = [1; 1; 2] !! pixel_index 3 0 0 /\ buf' !! j = Some 5)).
Proof. apply (flood_fill_recolours_target 3 1 5 0 0 [1; 1; 2]). reflexivity. Defined.

(** ** Pixel-wise effects: color_replace and mask_layer_fn *)

(** A [for] loop that returns at every item, with an invariant indexed by
    the number of items done. *)
Lemma for_each_invariant {A} (l : list A) (body : A -> M unit) (I : nat -> mem -> Prop)
    (m : mem) :
  I 0%nat m ->
  (forall k a m, l !! k = Some a -> I k m -> exists m', body a m = (Ok tt, m') /\ I (S k) m') ->
  exists m', for_each l body m = (Ok tt, m') /\ I (length l) m'.
Proof.
  revert I m. induction l as [|a l IH]; intros I m H0 Hstep; cbn [for_each length].
  - exists m. split; [reflexivity|exact H0].
  - rewrite bind_run. destruct (Hstep 0%nat a m eq_refl H0) as (m1 & -> & H1).
    apply (IH (fun k => I (S k)) m1 H1).
    intros k b m2 Hb. apply (Hstep (S k) b m2). exact Hb.
Qed.

Lemma for_each_range_invariant (n : Z) (body : Z -> M unit) (I : Z -> mem -> Prop) (m : mem) :
  0 <= n -> I 0 m ->
  (forall i m, 0 <= i < n -> I i m -> exists m', body i m = (Ok tt, m') /\ I (i + 1) m') ->
  exists m', for_each (range 0 n) body m = (Ok tt, m') /\ I n m'.
Proof.
  intros Hn H0 Hstep.
  destruct (for_each_invariant (range 0 n) body (fun k => I (Z.of_nat k)) m H0)
    as (m' & Hr & Hi).
  - intros k a m1 Hk Hik. unfold range in Hk. apply lookup_seqZ in Hk as [-> Hk].
    replace (Z.of_nat (S k)) with (0 + Z.of_nat k + 1) by lia.
    apply Hstep; [lia|]. replace (0 + Z.of_nat k) with (Z.of_nat k) by lia. exact Hik.
  - exists m'. split; [exact Hr|]. unfold range in Hi. rewrite length_seqZ in Hi.
    replace (Z.of_nat (Z.to_nat (n - 0))) with n in Hi by lia. exact Hi.
Qed.

Lemma mask_skips_run (mask : option maskref) (i : Z) (m : mem) :
  0 <= i ->
  (forall mk, mask = Some mk ->
     mask_content mk m = [] \/ i < Z.of_nat (length (mask_content mk m))) ->
  mask_skips mask i m
  = (Ok (masked_out ((fun mk => mask_content mk m) <$> mask) (Z.to_nat i)), m).
Proof.
  intros Hi Hmask. destruct mask as [mk|]; [|reflexivity].
  cbn [mask_skips fmap option_fmap option_map masked_out]. rewrite bind_run.
  assert (Hc : mask_cells mk m = (Ok (mask_content mk m), m)) by (destruct mk; reflexivity).
  rewrite Hc. destruct (Hmask mk eq_refl) as [He|Hlen].
  - rewrite He. cbn. reflexivity.
  - case_bool_decide as Hnil; [rewrite Hnil in Hlen; cbn in Hlen; lia|].
    rewrite bind_run, mask_get_content, get_in_range by lia.
    rewrite (list_lookup_lookup_total_lt (mask_content mk m) (Z.to_nat i)) by lia.
    reflexivity.
Qed.

Lemma replaced_lookup (old_c new_c : Z) (mask : option (list Z)) (buf : list Z) (j : nat) :
  replaced old_c new_c mask buf !! j
  = (fun v => if masked_out mask j then v else if v =? old_c then new_c else v) <$> buf !! j.
Proof. unfold replaced. apply list_lookup_imap. Qed.

Lemma range_empty (a b : Z) : b <= a -> range a b = [].
Proof. intros H. unfold range, seqZ. replace (Z.to_nat (b - a)) with 0%nat by lia. reflexivity. Qed.

(** X: on a buffer of the canvas size [color_replace] returns the buffer
    in which [old_c] became [new_c] at every pixel the mask does not
    skip; a pixel is skipped when a non-empty mask is zero there. The mask
    may be missing, empty, the buffer itself, or another list of the same
    size. *)
Theorem color_replace_replaces (w h old_c new_c : Z) (mask : option maskref) (buf : list Z) :
  length buf = Z.to_nat (w * h) ->
  (forall l, mask = Some (Other l) -> l = [] \/ length l = length buf) ->
  run (color_replace w h old_c new_c mask) buf
  = (Ok tt, replaced old_c new_c ((fun mk => mask_content mk (Mem buf [])) <$> mask) buf).
Proof.
  intros Hbuf Hmask. unfold run, color_replace.
  set (content := (fun mk => mask_content mk (Mem buf [])) <$> mask).
  destruct (Z.le_gt_cases 0 (w * h)) as [Hn|Hn].
  2:{ rewrite range_empty by lia. cbn. f_equal.
      destruct buf; [reflexivity|cbn in Hbuf; lia]. }
  destruct (for_each_range_invariant (w * h)
              (fun i =>
                 let! skipped := mask_skips mask i in
                 if (skipped : bool) then skip
                 else let! v := load i in if v =? old_c then store i new_c else skip)
              (fun i m =>
                 length (cells m) = Z.to_nat (w * h)
                 /\ forall j, cells m !! j
                              = if decide (Z.of_nat j < i)
                                then replaced old_c new_c content buf !! j
                                else buf !! j)
              (Mem buf []) Hn) as (m' & Hr & Hl & Hpix).
  - split; [exact Hbuf|]. intros j. rewrite decide_False by lia. reflexivity.
  - intros i m Hi [Hlen Hcells].
    assert (Hcur : cells m !! Z.to_nat i = buf !! Z.to_nat i).
    { rewrite Hcells. rewrite decide_False by lia. reflexivity. }
    assert (Hsame : masked_out ((fun mk => mask_content mk m) <$> mask) (Z.to_nat i)
                    = masked_out content (Z.to_nat i)).
    { subst content. destruct mask as [[|l]|]; cbn; [|reflexivity..]. rewrite Hcur. reflexivity. }
    rewrite bind_run, mask_skips_run; [|lia|].
    2:{ intros mk ->. destruct mk as [|l]; cbn [mask_content].
        - right. lia.
        - destruct (Hmask l eq_refl) as [->|E]; [left; reflexivity|right; lia]. }
    rewrite Hsame.
    assert (Hnext : forall v m2,
              buf !! Z.to_nat i = Some v ->
              length (cells m2) = Z.to_nat (w * h) ->
              cells m2 !! Z.to_nat i
              = Some (if masked_out content (Z.to_nat i) then v
                      else if v =? old_c then new_c else v) ->
              (forall j, j <> Z.to_nat i -> cells m2 !! j = cells m !! j) ->
              length (cells m2) = Z.to_nat (w * h)
              /\ forall j, cells m2 !! j
                           = if decide (Z.of_nat j < i + 1)
                             then replaced old_c new_c content buf !! j
                             else buf !! j).
    { intros v m2 Hv Hl2 Hi2 Hother. split; [exact Hl2|]. intros j.
      destruct (decide (j = Z.to_nat i)) as [->|Hne].
      - rewrite decide_True by lia. rewrite replaced_lookup, Hv. exact Hi2.
      - rewrite Hother, Hcells by exact Hne.
        destruct (decide (Z.of_nat j < i)), (decide (Z.of_nat j < i + 1)); try reflexivity; lia. }
    destruct (lookup_lt_is_Some_2 buf (Z.to_nat i) ltac:(lia)) as [v Hv].
    destruct (masked_out content (Z.to_nat i)) eqn:Hout.
    + exists m. split; [reflexivity|]. apply (Hnext v); auto. congruence.
    + rewrite bind_run. unfold load. rewrite get_in_range by lia.
      assert (Htot : cells m !!! Z.to_nat i = v)
        by (apply list_lookup_total_correct; congruence).
      rewrite Htot.
      destruct (v =? old_c) eqn:Hold.
      * unfold store. rewrite set_in_range by lia. eexists. split; [reflexivity|].
        apply (Hnext v); cbn [cells]; auto.
        -- rewrite length_insert. exact Hlen.
        -- rewrite Hold. apply list_lookup_insert_eq. lia.
        -- intros j Hne. apply list_lookup_insert_ne. congruence.
      * exists m. split; [reflexivity|]. apply (Hnext v); auto. rewrite Hold. congruence.
  - rewrite Hr. f_equal. apply list_eq. intros j. rewrite Hpix.
    destruct (decide (Z.of_nat j < w * h)) as [Hj|Hj]; [reflexivity|].
    rewrite replaced_lookup. rewrite lookup_ge_None_2 by lia. reflexivity.
Qed.

Lemma color_replace_replaces_witness :
  run (color_replace 2 2 0 9 (Some SameAsDest)) [0; 3; 0; 5]
  = (Ok tt, replaced 0 9 ((fun mk => mask_content mk (Mem [0; 3; 0; 5] [])) <$> Some SameAsDest)
              [0; 3; 0; 5]).
Proof.
  apply (color_replace_replaces 2 2 0 9 (Some SameAsDest) [0; 3; 0; 5]);
    [reflexivity|discriminate].
Defined.

Lemma masked_lookup (mask buf : list Z) (j : nat) :
  masked mask buf !! j = (fun v => match mask !! j with Some 0 => 0 | _ => v end) <$> buf !! j.
Proof. unfold masked. apply list_lookup_imap. Qed.

Lemma for_each_app {A} (l1 l2 : list A) (body : A -> M unit) (m : mem) :
  for_each (l1 ++ l2) body m = (for_each l1 body ;;; for_each l2 body) m.
Proof.
  revert m. induction l1 as [|a l1 IH]; intros m; cbn [for_each app].
  - reflexivity.
  - rewrite !bind_run. destruct (body a m) as [[[]|f] m1]; [|reflexivity].
    rewrite IH, bind_run. reflexivity.
Qed.

Lemma range_split (a k b : Z) : a <= k <= b -> range a b = (range a k ++ range k b)%list.
Proof.
  intros H. unfold range. replace (b - a) with ((k - a) + (b - k)) by lia.
  rewrite seqZ_app by lia. do 2 f_equal; lia.
Qed.

Lemma range_cons (a b : Z) : a < b -> range a b = a :: range (a + 1) b.
Proof.
  intros H. unfold range. rewrite seqZ_cons by lia. f_equal. unfold Z.succ, Z.pred.
  f_equal; lia.
Qed.

Lemma get_past_end {A} (l : list A) (i : Z) :
  Z.of_nat (length l) <= i -> PyVal.get l i = Fail (Exn IndexError).
Proof.
  intros H. unfold PyVal.get, PyVal.index.
  destruct (Z.ltb_spec i (Z.of_nat (length l))); [lia|]. rewrite andb_false_r.
  destruct (Z.ltb_spec i 0); [lia|]. rewrite andb_false_r. reflexivity.
Qed.

(** The first [k] rounds of [mask_layer_fn] with a mask that is another
    list of at least [k] items. *)
Lemma mask_layer_rounds (mask buf : list Z) (k : Z) :
  0 <= k <= Z.of_nat (length buf) -> k <= Z.of_nat (length mask) ->
  exists m',
    for_each (range 0 k) (fun i =>
      let! v := mask_get (Other mask) i in
      if v =? 0 then store i 0 else skip) (Mem buf [])
    = (Ok tt, m')
    /\ length (cells m') = length buf
    /\ forall j, cells m' !! j
                 = if decide (Z.of_nat j < k) then masked mask buf !! j else buf !! j.
Proof.
  intros Hk Hmask.
  apply (for_each_range_invariant k _
           (fun i m => length (cells m) = length buf
                       /\ forall j, cells m !! j
                                    = if decide (Z.of_nat j < i) then masked mask buf !! j
                                      else buf !! j)); [lia| |].
  - split; [reflexivity|]. intros j. rewrite decide_False by lia. reflexivity.
  - intros i m Hi [Hlen Hcells].
    assert (Hcur : cells m !! Z.to_nat i = buf !! Z.to_nat i).
    { rewrite Hcells. rewrite decide_False by lia. reflexivity. }
    destruct (lookup_lt_is_Some_2 buf (Z.to_nat i) ltac:(lia)) as [v Hv].
    rewrite bind_run. cbn [mask_get]. unfold lift. rewrite get_in_range by lia.
    assert (Hmk : mask !! Z.to_nat i = Some (mask !!! Z.to_nat i))
      by (apply list_lookup_lookup_total_lt; lia).
    assert (Hnext : forall m2,
              length (cells m2) = length buf ->
              cells m2 !! Z.to_nat i
              = Some (if mask !!! Z.to_nat i =? 0 then 0 else v) ->
              (forall j, j <> Z.to_nat i -> cells m2 !! j = cells m !! j) ->
              length (cells m2) = length buf
              /\ forall j, cells m2 !! j
                           = if decide (Z.of_nat j < i + 1) then masked mask buf !! j
                             else buf !! j).
    { intros m2 Hl2 Hi2 Hother. split; [exact Hl2|]. intros j.
      destruct (decide (j = Z.to_nat i)) as [->|Hne].
      - rewrite decide_True by lia. rewrite masked_lookup, Hv, Hmk, Hi2. cbn.
        destruct (Z.eqb_spec (mask !!! Z.to_nat i) 0) as [->|Hz]; [reflexivity|].
        destruct (mask !!! Z.to_nat i); [contradiction|reflexivity..].
      - rewrite Hother, Hcells by exact Hne.
        destruct (decide (Z.of_nat j < i)), (decide (Z.of_nat j < i + 1)); try reflexivity; lia. }
    destruct (mask !!! Z.to_nat i =? 0) eqn:Hz.
    + unfold store. rewrite set_in_range by lia. eexists. split; [reflexivity|].
      apply Hnext; cbn [cells].
      * rewrite length_insert. exact Hlen.
      * apply list_lookup_insert_eq. lia.
      * intros j Hne. apply list_lookup_insert_ne. congruence.
    + exists m. split; [reflexivity|]. apply Hnext; auto. congruence.
Qed.

(** X: [mask_layer_fn] with a mask that is another list at least as long
    as the buffer clears exactly the pixels where the mask is zero; with a
    shorter mask it clears those among the first [len(mask)] pixels and
    then raises [IndexError]; and when the mask is the buffer itself the
    buffer is left as it was. *)
Theorem mask_layer_fn_clears_where_mask_is_zero (mask buf : list Z) :
  (length buf <= length mask ->
   run (mask_layer_fn (Other mask)) buf = (Ok tt, masked mask buf))%nat
  /\ (length mask < length buf ->
      run (mask_layer_fn (Other mask)) buf = (Fail (Exn IndexError), masked mask buf))%nat
  /\ run (mask_layer_fn SameAsDest) buf = (Ok tt, buf).
Proof.
  unfold run, mask_layer_fn. rewrite !bind_run. unfold size. cbn [cells].
  split; [|split].
  - intros Hlen.
    destruct (mask_layer_rounds mask buf (Z.of_nat (length buf))) as (m' & -> & Hl & Hpix);
      [lia..|].
    f_equal. apply list_eq. intros j. rewrite Hpix.
    destruct (decide (Z.of_nat j < Z.of_nat (length buf))) as [Hj|Hj]; [reflexivity|].
    rewrite masked_lookup. rewrite lookup_ge_None_2 by lia. reflexivity.
  - intros Hlen.
    rewrite (range_split 0 (Z.of_nat (length mask))) by lia.
    rewrite for_each_app, bind_run.
    destruct (mask_layer_rounds mask buf (Z.of_nat (length mask))) as (m' & -> & Hl & Hpix);
      [lia..|].
    rewrite range_cons by lia. cbn [for_each]. rewrite !bind_run.
    cbn [mask_get]. unfold lift. rewrite get_past_end by lia.
    f_equal. apply list_eq. intros j. rewrite Hpix.
    destruct (decide (Z.of_nat j < Z.of_nat (length mask))) as [Hj|Hj]; [reflexivity|].
    rewrite masked_lookup. rewrite (lookup_ge_None_2 mask) by lia.
    destruct (buf !! j); reflexivity.
  - destruct (for_each_range_invariant (Z.of_nat (length buf))
                (fun i => let! v := mask_get SameAsDest i in
                          if v =? 0 then store i 0 else skip)
                (fun _ m => cells m = buf) (Mem buf [])) as (m' & -> & Hc);
      [lia|reflexivity| |rewrite Hc; reflexivity].
    intros i m Hi Hm. rewrite bind_run. cbn [mask_get]. unfold load.
    rewrite Hm, get_in_range by lia.
    destruct (Z.eqb_spec (buf !!! Z.to_nat i) 0) as [Hz|Hz]; [|exists m; auto].
    unfold store. rewrite Hm, set_in_range by lia. eexists. split; [reflexivity|].
    cbn [cells]. apply list_insert_id. rewrite <- Hz.
    apply list_lookup_lookup_total_lt. lia.
Qed.

(** ** Loops over the pixels of the canvas: mirror and translate *)

(** Nested loops over rows [a] and columns [b] that return at every
    step, with an invariant indexed by the position reached. *)
Lemma grid_invariant (rows cols : Z) (body : Z -> Z -> M unit) (I : Z -> Z -> mem -> Prop)
    (m : mem) :
  0 <= rows -> 0 <= cols ->
  I 0 0 m ->
  (forall a b m, 0 <= a < rows -> 0 <= b < cols -> I a b m ->
     exists m', body a b m = (Ok tt, m') /\ I a (b + 1) m') ->
  (forall a m, 0 <= a < rows -> I a cols m -> I (a + 1) 0 m) ->
  exists m',
    for_each (range 0 rows) (fun a => for_each (range 0 cols) (fun b => body a b)) m
    = (Ok tt, m')
    /\ I rows 0 m'.
Proof.
  intros Hrows Hcols H0 Hstep Hrow.
  apply (for_each_range_invariant rows _ (fun a => I a 0)); [exact Hrows|exact H0|].
  intros a m1 Ha Hi.
  destruct (for_each_range_invariant cols (fun b => body a b) (fun b => I a b) m1 Hcols Hi)
    as (m2 & Hr & Hi2).
  - intros b m2 Hb Hi2. apply Hstep; assumption.
  - exists m2. split; [exact Hr|]. apply Hrow; assumption.
Qed.

Lemma pixels_are_store (w h x y v : Z) (m : mem) (f : Z -> Z -> option Z) :
  pixels_are w h (cells m) f -> 0 <= x < w -> 0 <= y < h ->
  exists m',
    store (y * w + x) v m = (Ok tt, m')
    /\ pixels_are w h (cells m')
         (fun px py => if (px =? x) && (py =? y) then Some v else f px py).
Proof.
  intros [Hlen Hpix] Hx Hy. pose proof (pixel_index_bound w h x y Hx Hy) as Hb.
  unfold store. rewrite set_in_range by lia. eexists. split; [reflexivity|].
  cbn [cells]. split; [rewrite length_insert; exact Hlen|].
  intros px py Hpx Hpy.
  destruct (Z.eqb_spec px x) as [->|Hne]; [destruct (Z.eqb_spec py y) as [->|Hne]|]; cbn [andb].
  - apply list_lookup_insert_eq. lia.
  - rewrite list_lookup_insert_ne; [apply Hpix; assumption|].
    intros E. apply (pixel_index_inj w x y x py) in E; lia.
  - rewrite list_lookup_insert_ne; [apply Hpix; assumption|].
    intros E. apply (pixel_index_inj w x y px py) in E; lia.
Qed.

Lemma pixels_are_ext (w h : Z) (buf : list Z) (f g : Z -> Z -> option Z) :
  (forall x y, 0 <= x < w -> 0 <= y < h -> f x y = g x y) ->
  pixels_are w h buf f -> pixels_are w h buf g.
Proof.
  intros Hfg [Hlen Hpix]. split; [exact Hlen|].
  intros x y Hx Hy. rewrite <- Hfg by assumption. apply Hpix; assumption.
Qed.

Lemma pixels_are_load (w h x y : Z) (m : mem) (f : Z -> Z -> option Z) :
  pixels_are w h (cells m) f -> 0 <= x < w -> 0 <= y < h ->
  exists v, f x y = Some v /\ load (y * w + x) m = (Ok v, m).
Proof.
  intros [Hlen Hpix] Hx Hy. pose proof (pixel_index_bound w h x y Hx Hy) as Hb.
  unfold load. rewrite get_in_range by lia.
  exists (cells m !!! Z.to_nat (y * w + x)). split; [|reflexivity].
  rewrite <- Hpix by assumption. apply list_lookup_lookup_total_lt. lia.
Qed.

Ltac compare_all :=
  repeat match goal with
         | |- context [?a <? ?b] => destruct (Z.ltb_spec a b)
         | |- context [?a =? ?b] => destruct (Z.eqb_spec a b)
         end;
  cbn [orb andb]; try reflexivity; try lia.

(** X: on a buffer of the canvas size [mirror x] returns; the left half
    of every row is kept and the right half becomes its reflection, so
    that the result reads the same from both ends of each row. With an odd
    width the middle column is kept. *)
Theorem mirror_x_reflects_left_half (w h : Z) (buf : list Z) :
  length buf = Z.to_nat (w * h) ->
  exists buf',
    run (mirror_x w h) buf = (Ok tt, buf')
    /\ length buf' = Z.to_nat (w * h)
    /\ forall x y, 0 <= x < w -> 0 <= y < h ->
         buf' !! pixel_index w x y = buf !! pixel_index w (Z.min x (w - 1 - x)) y
         /\ buf' !! pixel_index w (w - 1 - x) y = buf' !! pixel_index w x y.
Proof.
  intros Hbuf. unfold run, mirror_x.
  destruct (Z.le_gt_cases h 0) as [Hh|Hh].
  { rewrite range_empty by lia. exists buf. split; [reflexivity|]. split; [exact Hbuf|]. lia. }
  destruct (Z.le_gt_cases w 0) as [Hw|Hw].
  { exists buf. split; [|split; [exact Hbuf|lia]].
    assert (E : range 0 (w / 2) = []).
    { apply range_empty. apply Z.div_le_upper_bound; lia. }
    rewrite E. clear. induction (range 0 h) as [|a l IH]; [reflexivity|].
    cbn [for_each]. rewrite bind_run. cbn. exact IH. }
  set (target := fun x y => buf !! pixel_index w (Z.min x (w - 1 - x)) y).
  destruct (grid_invariant h (w / 2)
              (fun y x => let! v := load (y * w + x) in store (y * w + (w - 1 - x)) v)
              (fun a b m =>
                 pixels_are w h (cells m)
                   (fun x y => if (y <? a) || ((y =? a) && (w - 1 - b <? x))
                               then target x y else buf !! pixel_index w x y))
              (Mem buf [])) as (m' & Hr & Hlen & Hpix).
  - lia.
  - apply Z.div_pos; lia.
  - split; [exact Hbuf|]. intros x y Hx Hy.
    destruct (Z.ltb_spec y 0); [lia|]. destruct (Z.eqb_spec y 0); [|reflexivity].
    destruct (Z.ltb_spec (w - 1 - 0) x); [lia|reflexivity].
  - intros a b m Ha Hb Hi.
    assert (Hbw : 2 * b < w) by (pose proof (Z.mul_div_le w 2); lia).
    rewrite bind_run.
    destruct (pixels_are_load w h b a m _ Hi) as (v & Hv & ->); [lia..|].
    destruct (pixels_are_store w h (w - 1 - b) a v m _ Hi) as (m2 & Hs & Hi2); [lia..|].
    exists m2. split; [exact Hs|].
    eapply pixels_are_ext; [|exact Hi2].
    assert (Hv' : buf !! pixel_index w b a = Some v).
    { rewrite <- Hv. destruct (Z.ltb_spec a a); [lia|].
      destruct (Z.ltb_spec (w - 1 - b) b); [lia|]. rewrite andb_false_r. reflexivity. }
    intros x y Hx Hy. cbv beta.
    destruct (Z.eq_dec x (w - 1 - b)) as [->|Hnx]; [destruct (Z.eq_dec y a) as [->|Hny]|].
    + replace (Some v) with (target (w - 1 - b) a)
        by (unfold target; rewrite <- Hv'; do 2 f_equal; lia).
      compare_all.
    + compare_all.
    + compare_all.
  - intros a m Ha Hi. eapply pixels_are_ext; [|exact Hi].
    intros x y Hx Hy. cbv beta.
    pose proof (Z.mul_div_le w 2). pose proof (Z.mod_pos_bound w 2).
    pose proof (Z.div_mod w 2).
    assert (Hmid : x <= w - 1 - w / 2 -> target x y = buf !! pixel_index w x y).
    { intros Hle. unfold target. do 2 f_equal. lia. }
    destruct (Z.le_gt_cases x (w - 1 - w / 2)) as [Hle|Hgt]; [rewrite Hmid by exact Hle|];
      compare_all.
  - rewrite Hr. exists (cells m'). split; [reflexivity|]. split; [exact Hlen|].
    assert (Hall : forall x y, 0 <= x < w -> 0 <= y < h ->
                     cells m' !! pixel_index w x y = target x y).
    { intros x y Hx Hy. rewrite Hpix by assumption.
      destruct (Z.ltb_spec y h); [reflexivity|lia]. }
    intros x y Hx Hy. split; [apply Hall; assumption|].
    rewrite !Hall by lia. unfold target. do 2 f_equal. lia.
Qed.

(** X: on a buffer of the canvas size [mirror y] returns; the top half
    of every column is kept and the bottom half becomes its reflection. *)
Theorem mirror_y_reflects_top_half (w h : Z) (buf : list Z) :
  length buf = Z.to_nat (w * h) ->
  exists buf',
    run (mirror_y w h) buf = (Ok tt, buf')
    /\ length buf' = Z.to_nat (w * h)
    /\ forall x y, 0 <= x < w -> 0 <= y < h ->
         buf' !! pixel_index w x y = buf !! pixel_index w x (Z.min y (h - 1 - y))
         /\ buf' !! pixel_index w x (h - 1 - y) = buf' !! pixel_index w x y.
Proof.
  intros Hbuf. unfold run, mirror_y.
  destruct (Z.le_gt_cases w 0) as [Hw|Hw].
  { rewrite range_empty by lia. exists buf. split; [reflexivity|]. split; [exact Hbuf|]. lia. }
  destruct (Z.le_gt_cases h 0) as [Hh|Hh].
  { exists buf. split; [|split; [exact Hbuf|lia]].
    assert (E : range 0 (h / 2) = []).
    { apply range_empty. apply Z.div_le_upper_bound; lia. }
    rewrite E. clear. induction (range 0 w) as [|a l IH]; [reflexivity|].
    cbn [for_each]. rewrite bind_run. cbn. exact IH. }
  set (target := fun x y => buf !! pixel_index w x (Z.min y (h - 1 - y))).
  destruct (grid_invariant w (h / 2)
              (fun x y => let! v := load (y * w + x) in store ((h - 1 - y) * w + x) v)
              (fun a b m =>
                 pixels_are w h (cells m)
                   (fun x y => if (x <? a) || ((x =? a) && (h - 1 - b <? y))
                               then target x y else buf !! pixel_index w x y))
              (Mem buf [])) as (m' & Hr & Hlen & Hpix).
  - lia.
  - apply Z.div_pos; lia.
  - split; [exact Hbuf|]. intros x y Hx Hy. compare_all.
  - intros a b m Ha Hb Hi.
    assert (Hbh : 2 * b < h) by (pose proof (Z.mul_div_le h 2); lia).
    rewrite bind_run.
    destruct (pixels_are_load w h a b m _ Hi) as (v & Hv & ->); [lia..|].
    destruct (pixels_are_store w h a (h - 1 - b) v m _ Hi) as (m2 & Hs & Hi2); [lia..|].
    exists m2. split; [exact Hs|].
    eapply pixels_are_ext; [|exact Hi2].
    assert (Hv' : buf !! pixel_index w a b = Some v).
    { rewrite <- Hv. destruct (Z.ltb_spec a a); [lia|].
      destruct (Z.ltb_spec (h - 1 - b) b); [lia|]. rewrite andb_false_r. reflexivity. }
    intros x y Hx Hy. cbv beta.
    destruct (Z.eq_dec x a) as [->|Hnx]; [destruct (Z.eq_dec y (h - 1 - b)) as [->|Hny]|].
    + replace (Some v) with (target a (h - 1 - b))
        by (unfold target; rewrite <- Hv'; do 2 f_equal; lia).
      compare_all.
    + compare_all.
    + compare_all.
  - intros a m Ha Hi. eapply pixels_are_ext; [|exact Hi].
    intros x y Hx Hy. cbv beta.
    pose proof (Z.mul_div_le h 2). pose proof (Z.mod_pos_bound h 2).
    pose proof (Z.div_mod h 2).
    assert (Hmid : y <= h - 1 - h / 2 -> target x y = buf !! pixel_index w x y).
    { intros Hle. unfold target. do 2 f_equal. lia. }
    destruct (Z.le_gt_cases y (h - 1 - h / 2)) as [Hle|Hgt]; [rewrite Hmid by exact Hle|];
      compare_all.
  - rewrite Hr. exists (cells m'). split; [reflexivity|]. split; [exact Hlen|].
    assert (Hall : forall x y, 0 <= x < w -> 0 <= y < h ->
                     cells m' !! pixel_index w x y = target x y).
    { intros x y Hx Hy. rewrite Hpix by assumption.
      destruct (Z.ltb_spec x w); [reflexivity|lia]. }
    intros x y Hx Hy. split; [apply Hall; assumption|].
    rewrite !Hall by lia. unfold target. do 2 f_equal. lia.
Qed.

(** The loop [for i in range(len(buf)): buf[i] = 0]. *)
Lemma clear_loop (buf : list Z) (wr : list Z) :
  exists m',
    for_each (range 0 (Z.of_nat (length buf))) (fun i => store i 0) (Mem buf wr) = (Ok tt, m')
    /\ cells m' = replicate (length buf) 0.
Proof.
  destruct (for_each_range_invariant (Z.of_nat (length buf)) (fun i => store i 0)
              (fun i m => length (cells m) = length buf
                          /\ forall j, (Z.of_nat j < i) -> cells m !! j = Some 0)
              (Mem buf wr)) as (m' & Hr & Hl & Hz); [lia|split; [reflexivity|lia]| |].
  - intros i m Hi [Hl Hz]. unfold store. rewrite set_in_range by lia.
    eexists. split; [reflexivity|]. cbn [cells].
    split; [rewrite length_insert; exact Hl|].
    intros j Hj. destruct (decide (j = Z.to_nat i)) as [->|Hne].
    + apply list_lookup_insert_eq. lia.
    + rewrite list_lookup_insert_ne by congruence. apply Hz. lia.
  - exists m'. split; [exact Hr|]. apply list_eq. intros j.
    destruct (decide (j < length buf)%nat) as [Hj|Hj].
    + rewrite Hz by lia. symmetry. apply lookup_replicate. auto.
    + rewrite !lookup_ge_None_2; [reflexivity|rewrite length_replicate; lia|lia].
Qed.

(** X: on a buffer of the canvas size [translate] returns the picture
    moved by [(dx, dy)]: a pixel takes the value of the pixel [(dx, dy)]
    before it when that one is on the canvas, and zero otherwise. Nothing
    wraps around. *)
Theorem translate_shifts_pixels (w h dx dy : Z) (buf : list Z) :
  length buf = Z.to_nat (w * h) ->
  exists buf',
    run (translate w h dx dy) buf = (Ok tt, buf')
    /\ length buf' = Z.to_nat (w * h)
    /\ forall x y, 0 <= x < w -> 0 <= y < h ->
         buf' !! pixel_index w x y
         = if in_bounds (x - dx) (y - dy) w h then buf !! pixel_index w (x - dx) (y - dy)
           else Some 0.
Proof.
  intros Hbuf. unfold run.
  assert (E : translate w h dx dy (Mem buf [])
              = (for_each (range 0 (Z.of_nat (length buf))) (fun i => store i 0) ;;;
                 for_each (range 0 h) (fun y =>
                   for_each (range 0 w) (fun x =>
                     let sx := x - dx in
                     let sy := y - dy in
                     if (0 <=? sx) && (sx <? w) && (0 <=? sy) && (sy <? h) then
                       let! v := lift (PyVal.get buf (sy * w + sx)) in
                       store (y * w + x) v
                     else skip))) (Mem buf [])) by reflexivity.
  rewrite E. clear E.
  rewrite bind_run. destruct (clear_loop buf []) as (m0 & -> & Hm0).
  destruct (Z.le_gt_cases h 0) as [Hh|Hh].
  { rewrite range_empty by lia. exists (cells m0). split; [reflexivity|].
    split; [rewrite Hm0, length_replicate; exact Hbuf|lia]. }
  destruct (Z.le_gt_cases w 0) as [Hw|Hw].
  { exists (cells m0). split; [|split; [rewrite Hm0, length_replicate; exact Hbuf|lia]].
    rewrite (range_empty 0 w) by lia. clear. induction (range 0 h) as [|a l IH]; [reflexivity|].
    cbn [for_each]. rewrite bind_run. cbn. exact IH. }
  set (target := fun x y => if in_bounds (x - dx) (y - dy) w h
                            then buf !! pixel_index w (x - dx) (y - dy) else Some 0).
  destruct (grid_invariant h w
              (fun y x =>
                 let sx := x - dx in
                 let sy := y - dy in
                 if (0 <=? sx) && (sx <? w) && (0 <=? sy) && (sy <? h) then
                   let! v := lift (PyVal.get buf (sy * w + sx)) in
                   store (y * w + x) v
                 else skip)
              (fun a b m =>
                 pixels_are w h (cells m)
                   (fun x y => if (y <? a) || ((y =? a) && (x <? b))
                               then target x y else Some 0))
              m0) as (m' & Hr & Hlen & Hpix); [lia|lia| | | |].
  - rewrite Hm0. split; [rewrite length_replicate; exact Hbuf|].
    intros x y Hx Hy. pose proof (pixel_index_bound w h x y Hx Hy).
    rewrite lookup_replicate_2 by (unfold pixel_index; lia). compare_all.
  - intros a b m Ha Hb Hi. cbv zeta.
    destruct ((0 <=? b - dx) && (b - dx <? w) && (0 <=? a - dy) && (a - dy <? h)) eqn:Hin.
    + assert (Hsrc : 0 <= b - dx < w /\ 0 <= a - dy < h) by lia.
      pose proof (pixel_index_bound w h (b - dx) (a - dy) ltac:(lia) ltac:(lia)) as Hb'.
      rewrite bind_run. unfold lift. rewrite get_in_range by lia.
      destruct (pixels_are_store w h b a (buf !!! Z.to_nat ((a - dy) * w + (b - dx))) m _ Hi)
        as (m2 & Hs & Hi2); [lia..|].
      exists m2. split; [exact Hs|]. eapply pixels_are_ext; [|exact Hi2].
      intros x y Hx Hy. cbv beta.
      destruct (Z.eq_dec x b) as [->|Hnx]; [destruct (Z.eq_dec y a) as [->|Hny]|].
      * replace (Some (buf !!! Z.to_nat ((a - dy) * w + (b - dx)))) with (target b a).
        { compare_all. }
        unfold target, in_bounds. rewrite Hin. apply list_lookup_lookup_total_lt.
        unfold pixel_index. lia.
      * compare_all.
      * compare_all.
    + exists m. split; [reflexivity|]. eapply pixels_are_ext; [|exact Hi].
      intros x y Hx Hy. cbv beta.
      destruct (Z.eq_dec x b) as [->|Hnx]; [destruct (Z.eq_dec y a) as [->|Hny]|].
      * replace (target b a) with (Some 0) by (unfold target, in_bounds; rewrite Hin; reflexivity).
        compare_all.
      * compare_all.
      * compare_all.
  - intros a m Ha Hi. eapply pixels_are_ext; [|exact Hi].
    intros x y Hx Hy. cbv beta. compare_all.
  - rewrite Hr. exists (cells m'). split; [reflexivity|]. split; [exact Hlen|].
    intros x y Hx Hy. rewrite Hpix by assumption.
    destruct (Z.ltb_spec y h); [reflexivity|lia].
Qed.

Lemma mask_layer_fn_clears_where_mask_is_zero_witness :
  run (mask_layer_fn (Other [1; 0])) [4; 5] = (Ok tt, masked [1; 0] [4; 5])
  /\ run (mask_layer_fn (Other [0])) [4; 5] = (Fail (Exn IndexError), masked [0] [4; 5])
  /\ run (mask_layer_fn SameAsDest) [0; 5] = (Ok tt, [0; 5]).
Proof.
  split; [|split].
  - destruct (mask_layer_fn_clears_where_mask_is_zero [1; 0] [4; 5]) as (H & _ & _).
    apply H. cbn. lia.
  - destruct (mask_layer_fn_clears_where_mask_is_zero [0] [4; 5]) as (_ & H & _).
    apply H. cbn. lia.
  - destruct (mask_layer_fn_clears_where_mask_is_zero [] [0; 5]) as (_ & _ & H).
    exact H.
Defined.

Lemma mirror_x_reflects_left_half_witness :
  exists buf',
    run (mirror_x 3 1) [1; 2; 3] = (Ok tt, buf')
    /\ length buf' = Z.to_nat (3 * 1)
    /\ forall x y, 0 <= x < 3 -> 0 <= y < 1 ->
         buf' !! pixel_index 3 x y = [1; 2; 3] !! pixel_index 3 (Z.min x (3 - 1 - x)) y
         /\ buf' !! pixel_index 3 (3 - 1 - x) y = buf' !! pixel_index 3 x y.
Proof. apply (mirror_x_reflects_left_half 3 1 [1; 2; 3]). reflexivity. Defined.

Lemma mirror_y_reflects_top_half_witness :
  exists buf',
    run (mirror_y 1 3) [1; 2; 3] = (Ok tt, buf')
    /\ length buf' = Z.to_nat (1 * 3)
    /\ forall x y, 0 <= x < 1 -> 0 <= y < 3 ->
         buf' !! pixel_index 1 x y = [1; 2; 3] !! pixel_index 1 x (Z.min y (3 - 1 - y))
         /\ buf' !! pixel_index 1 x (3 - 1 - y) = buf' !! pixel_index 1 x y.
Proof. apply (mirror_y_reflects_top_half 1 3 [1; 2; 3]). reflexivity. Defined.

Lemma translate_shifts_pixels_witness :
  exists buf',
    run (translate 3 1 1 0) [1; 2; 3] = (Ok tt, buf')
    /\ length buf' = Z.to_nat (3 * 1)
    /\ forall x y, 0 <= x < 3 -> 0 <= y < 1 ->
         buf' !! pixel_index 3 x y
         = if in_bounds (x - 1) (y - 0) 3 1 then [1; 2; 3] !! pixel_index 3 (x - 1) (y - 0)
           else Some 0.
Proof. apply (translate_shifts_pixels 3 1 1 0 [1; 2; 3]). reflexivity. Defined.

(** ** The resolver of derived frames *)

(** X: an override whose [op_index] is the integer [i] replaces exactly
    one operation of the base: op [i] when [0 <= i < len], op [len + i]
    when [-len <= i < 0]; it is ignored when [i >= len], and it raises
    [IndexError] when [i < -len]. The number of operations never
    changes. *)
Theorem apply_override_replaces_one_op (base_ops : list json) (items : list (string * json))
    (i : Z) (op : json) :
  PyVal.lookup_key "op_index" items = Some (JInt i) ->
  PyVal.lookup_key "op" items = Some op ->
  let n := Z.of_nat (length base_ops) in
  apply_override base_ops (JDict items)
  = if n <=? i then Ok base_ops
    else if 0 <=? i then Ok (<[Z.to_nat i := op]> base_ops)
    else if - n <=? i then Ok (<[Z.to_nat (n + i) := op]> base_ops)
    else Fail (Exn IndexError).
Proof.
  intros Hidx Hop n. unfold apply_override. cbn [PyVal.dict_get Py.bind]. rewrite Hidx.
  cbn [PyVal.int_value default option_map from_option PyVal.getitem]. unfold id.
  fold n. destruct (Z.ltb_spec i n) as [Hlt|Hge]; destruct (Z.leb_spec n i) as [Hle|Hgt];
    try lia; [|reflexivity].
  rewrite Hop. cbn [Py.bind]. unfold PyVal.set, PyVal.index. fold n.
  destruct (Z.leb_spec 0 i) as [H0|H0]; destruct (Z.ltb_spec i n); try lia; cbn [andb].
  - reflexivity.
  - destruct (Z.leb_spec (- n) i); destruct (Z.ltb_spec i 0); try lia; reflexivity.
Qed.

Lemma apply_override_replaces_one_op_witness :
  let n := Z.of_nat (length [JInt 10; JInt 20; JInt 30]) in
  apply_override [JInt 10; JInt 20; JInt 30]
    (JDict [("op_index", JInt (-1)); ("op", JInt 99)])
  = if n <=? -1 then Ok [JInt 10; JInt 20; JInt 30]
    else if 0 <=? -1 then Ok (<[Z.to_nat (-1) := JInt 99]> [JInt 10; JInt 20; JInt 30])
    else if - n <=? -1 then Ok (<[Z.to_nat (n + -1) := JInt 99]> [JInt 10; JInt 20; JInt 30])
    else Fail (Exn IndexError).
Proof.
  apply (apply_override_replaces_one_op [JInt 10; JInt 20; JInt 30]
           [("op_index", JInt (-1)); ("op", JInt 99)] (-1) (JInt 99)); reflexivity.
Defined.

Lemma apply_override_length (base_ops ops' : list json) (override : json) :
  apply_override base_ops override = Ok ops' -> length ops' = length base_ops.
Proof.
  unfold apply_override. destruct (PyVal.dict_get override "op_index") as [found|]; [|discriminate].
  cbn [Py.bind].
  destruct found as [[| | | | | |]|]; try discriminate; try (intros [= <-]; reflexivity).
  - destruct (_ <? _); [|intros [= <-]; reflexivity].
    destruct (PyVal.getitem override "op"); [|discriminate]. cbn [Py.bind]. apply set_length.
  - destruct (_ <? _); [|intros [= <-]; reflexivity].
    destruct (PyVal.getitem override "op"); [|discriminate]. cbn [Py.bind]. apply set_length.
  - destruct (Float.lt_int _ _); [|intros [= <-]; reflexivity].
    destruct (PyVal.getitem override "op"); discriminate.
Qed.

Lemma overrides_length (ovl : list json) (base_ops ops' : list json) :
  fold_m apply_override ovl base_ops = Ok ops' -> length ops' = length base_ops.
Proof.
  revert base_ops. induction ovl as [|ov ovl IH]; intros base_ops H; cbn [fold_m] in H.
  - injection H as <-. reflexivity.
  - destruct (apply_override base_ops ov) as [mid|] eqn:Hov; [|discriminate].
    cbn [Py.bind] in H. rewrite (IH _ H). eapply apply_override_length, Hov.
Qed.

(** X: a derived frame has the operations of its base, some of them
    replaced, followed by the items of [append_ops] in order: overrides
    never add or remove an operation. *)
Theorem derive_keeps_base_count (base_ops : list json) (items : list (string * json))
    (r : json) :
  derive (JList base_ops) (JDict items) = Ok r ->
  exists ops' appended,
    r = JList ops'
    /\ match PyVal.lookup_key "append_ops" items with
       | Some more => PyVal.iter more = Ok appended
       | None => appended = []
       end
    /\ length ops' = (length base_ops + length appended)%nat
    /\ drop (length base_ops) ops' = appended.
Proof.
  unfold derive. cbn [PyVal.iter PyVal.contains PyVal.getitem Py.bind].
  intros H.
  assert (Hov : exists mid,
            length mid = length base_ops
            /\ (let* base_ops :=
                  (if bool_decide (is_Some (PyVal.lookup_key "append_ops" items)) then
                     let* more := match PyVal.lookup_key "append_ops" items with
                                  | Some v => Ok v
                                  | None => raise KeyError
                                  end in
                     let* morel := PyVal.iter more in
                     Ok (mid ++ morel)%list
                   else Ok mid) in
                Ok (JList base_ops)) = Ok r).
  { destruct (bool_decide (is_Some (PyVal.lookup_key "overrides" items))).
    - destruct (PyVal.lookup_key "overrides" items) as [ovs|]; [|discriminate].
      cbn [Py.bind] in H. destruct (PyVal.iter ovs) as [ovl|]; [|discriminate].
      cbn [Py.bind] in H.
      destruct (fold_m apply_override ovl base_ops) as [mid|] eqn:Hmid; [|discriminate].
      exists mid. split; [eapply overrides_length, Hmid|exact H].
    - exists base_ops. split; [reflexivity|exact H]. }
  destruct Hov as (mid & Hlen & Hr). clear H.
  destruct (PyVal.lookup_key "append_ops" items) as [more|].
  - rewrite bool_decide_eq_true_2 in Hr by eauto. cbn [Py.bind] in Hr.
    destruct (PyVal.iter more) as [morel|]; [|discriminate]. cbn [Py.bind] in Hr.
    injection Hr as <-. exists (mid ++ morel)%list, morel.
    split; [reflexivity|]. split; [reflexivity|].
    split; [rewrite length_app; lia|]. rewrite <- Hlen. apply drop_app_length.
  - rewrite bool_decide_eq_false_2 in Hr by (intros [? ?]; discriminate).
    cbn [Py.bind] in Hr. injection Hr as <-. exists mid, [].
    split; [reflexivity|]. split; [reflexivity|].
    split; [cbn; lia|]. rewrite <- Hlen. apply drop_all.
Qed.

Lemma derive_keeps_base_count_witness :
  exists ops' appended,
    JList [JInt 1; JInt 9; JInt 3; JInt 4] = JList ops'
    /\ match PyVal.lookup_key "append_ops"
               [("base", JInt 0);
                ("overrides", JList [JDict [("op_index", JInt 1); ("op", JInt 9)]]);
                ("append_ops", JList [JInt 4])] with
       | Some more => PyVal.iter more = Ok appended
       | None => appended = []
       end
    /\ length ops' = (length [JInt 1; JInt 2; JInt 3] + length appended)%nat
    /\ drop (length [JInt 1; JInt 2; JInt 3]) ops' = appended.
Proof.
  apply (derive_keeps_base_count [JInt 1; JInt 2; JInt 3]
           [("base", JInt 0);
            ("overrides", JList [JDict [("op_index", JInt 1); ("op", JInt 9)]]);
            ("append_ops", JList [JInt 4])]).
  vm_compute. reflexivity.
Defined.

(** The entries of the resolver, continued from [acc]: each frame's entry
    is resolved from the entries before it. *)
Lemma resolve_more_entries (frames acc P : list json) :
  resolve_more frames acc = Ok P ->
  take (length acc) P = acc
  /\ forall k fr, frames !! k = Some fr ->
       exists ops, P !! (length acc + k)%nat = Some ops
                   /\ resolve_frame (take (length acc + k) P) fr = Ok ops.
Proof.
  unfold resolve_more. revert acc.
  induction frames as [|fr frames IH]; intros acc H; cbn [fold_m] in H.
  - injection H as <-. split; [apply firstn_all|]. intros k fr Hk. inversion Hk.
  - destruct (resolve_frame acc fr) as [ops|] eqn:Hfr; [|discriminate]. cbn [Py.bind] in H.
    destruct (IH _ H) as [Hpre Hent]. rewrite length_app in Hpre, Hent. cbn [length] in *.
    assert (Hacc : take (length acc) P = acc).
    { replace (take (length acc) P) with (take (length acc) (take (length acc + 1) P))
        by (rewrite take_take; f_equal; lia).
      rewrite Hpre. apply take_app_length. }
    assert (Hops : P !! length acc = Some ops).
    { rewrite <- (lookup_take_lt P (length acc + 1)) by lia.
      rewrite Hpre. apply list_lookup_middle. reflexivity. }
    split; [exact Hacc|]. intros [|k] fr' Hk.
    + injection Hk as <-. exists ops. rewrite Nat.add_0_r. split; [exact Hops|].
      rewrite Hacc. exact Hfr.
    + replace (length acc + S k)%nat with (length acc + 1 + k)%nat by lia.
      apply Hent. exact Hk.
Qed.

(** X: when the resolver returns, its result has one entry per frame,
    and the entry of frame [i] is that frame resolved against the entries
    of the frames before it only. A frame without [base] resolves to its
    own [ops] value, whatever the other frames are. *)
Theorem process_frame_inheritance_entries (frames P : list json) :
  process_frame_inheritance frames = Ok P ->
  length P = length frames
  /\ (forall i fr, frames !! i = Some fr ->
        exists ops, P !! i = Some ops /\ resolve_frame (take i P) fr = Ok ops)
  /\ (forall i items, frames !! i = Some (JDict items) ->
        PyVal.lookup_key "base" items = None ->
        P !! i = PyVal.lookup_key "ops" items).
Proof.
  intros H. change (resolve_more frames [] = Ok P) in H.
  pose proof (resolve_more_length frames [] P H) as Hlen.
  destruct (resolve_more_entries frames [] P H) as [_ Hent]. cbn [length] in *.
  split; [lia|]. split; [exact Hent|].
  intros i items Hi Hbase. destruct (Hent i _ Hi) as (ops & Hp & Hr).
  cbn [Nat.add] in Hp, Hr. rewrite Hp. unfold resolve_frame in Hr. cbn [PyVal.contains Py.bind] in Hr.
  rewrite Hbase in Hr. rewrite bool_decide_eq_false_2 in Hr by (intros [? ?]; discriminate).
  cbn [PyVal.getitem] in Hr. destruct (PyVal.lookup_key "ops" items); [|discriminate].
  injection Hr as <-. reflexivity.
Qed.

Lemma process_frame_inheritance_entries_witness :
  let frames := [JDict [("ops", JList [JInt 1])];
                 JDict [("base", JInt 0); ("append_ops", JList [JInt 2])]] in
  let P := [JList [JInt 1]; JList [JInt 1; JInt 2]] in
  length P = length frames
  /\ (forall i fr, frames !! i = Some fr ->
        exists ops, P !! i = Some ops /\ resolve_frame (take i P) fr = Ok ops)
  /\ (forall i items, frames !! i = Some (JDict items) ->
        PyVal.lookup_key "base" items = None ->
        P !! i = PyVal.lookup_key "ops" items).
Proof.
  apply (process_frame_inheritance_entries
           [JDict [("ops", JList [JInt 1])];
            JDict [("base", JInt 0); ("append_ops", JList [JInt 2])]]
           [JList [JInt 1]; JList [JInt 1; JInt 2]]).
  vm_compute. reflexivity.
Defined.

(** ** Strict validation never changes the verdict *)

Lemma strict_extends_refl (e : list ValidationError) : strict_extends e e.
Proof. split; [reflexivity|]. split; [auto|reflexivity]. Qed.

Lemma strict_extends_app (a a' b b' : list ValidationError) :
  strict_extends a a' -> strict_extends b b' -> strict_extends (a ++ b) (a' ++ b').
Proof.
  intros (Hs1 & He1 & Hf1) (Hs2 & He2 & Hf2). split; [apply sublist_app; assumption|].
  split.
  - intros H. apply app_eq_nil in H as [-> ->]. rewrite He1, He2 by reflexivity. reflexivity.
  - rewrite !List.filter_app. congruence.
Qed.

Lemma strict_extends_nil (ef et : list ValidationError) :
  strict_extends ef et -> (et = [] <-> ef = []).
Proof.
  intros (Hs & He & _). split; [|exact He].
  intros ->. apply sublist_nil_r in Hs. exact Hs.
Qed.

Lemma outcomes_agree_refl (r : outcome (list ValidationError)) : outcomes_agree r r.
Proof. destruct r; cbn; [apply strict_extends_refl|reflexivity]. Qed.

(** The seed check of strict mode fires only for a [noise_points] with
    fewer than four arguments, which has a diagnostic already. *)
Lemma validate_op_agree (op : json) (op_idx palette_size : Z) (defined_layers : list string)
    (frame_idx : Z) :
  outcomes_agree (validate_op op op_idx palette_size defined_layers frame_idx false)
                 (validate_op op op_idx palette_size defined_layers frame_idx true).
Proof.
  unfold validate_op.
  destruct op as [| | | | |items|]; try apply outcomes_agree_refl.
  destruct items as [|[| | | |op_name| |] args]; try apply outcomes_agree_refl.
  destruct (Ops.get_op_spec op_name) as [spec|] eqn:Hspec; [|apply outcomes_agree_refl].
  cbv zeta. rewrite andb_false_r, andb_true_r.
  set (first := if Z.of_nat (length (JStr op_name :: args)) - 1 <? Ops.min_args spec
                then _ else _).
  set (colours := flat_map _ (enumerate args)).
  set (layer := match Ops.requires_layer spec with Some r => _ | None => _ end).
  destruct layer as [errors|f] eqn:Hlayer; cbn [Py.bind]; [|reflexivity].
  destruct (Ops.requires_seed spec); [|apply strict_extends_refl].
  destruct (String.eqb_spec op_name "noise_points") as [->|Hne];
    [|apply strict_extends_refl].
  cbn [andb].
  destruct (Z.ltb_spec (Z.of_nat (length (JStr "noise_points" :: args))) 5) as [Hlt|Hge];
    [|apply strict_extends_refl].
  assert (Hs : spec = {| Ops.name := "noise_points"; Ops.min_args := 4; Ops.max_args := 4;
                         Ops.arg_types := ["color_idx"; "layer_name"; "int"; "int"];
                         Ops.requires_layer := Some "1"; Ops.requires_seed := true |}).
  { vm_compute in Hspec. congruence. }
  assert (Hpre : exists d rest, errors = d :: rest).
  { subst layer first. rewrite Hs in Hlayer.
    cbn [Ops.requires_layer Ops.min_args] in Hlayer. revert Hlayer.
    destruct (Z.ltb_spec (Z.of_nat (length (JStr "noise_points" :: args)) - 1) 4); [|lia].
    cbn [String.eqb Ascii.eqb Bool.eqb].
    destruct (PyVal.int_of_string "1") as [k|]; cbn [Py.bind]; [|discriminate].
    destruct (_ <? _); [|intros [= <-]; cbn; eauto].
    destruct (PyVal.get _ _); cbn [Py.bind]; [|discriminate].
    destruct (PyVal.str _); cbn [Py.bind]; [|discriminate].
    destruct (bool_decide _); intros [= <-]; cbn; eauto. }
  destruct Hpre as (d & rest & ->).
  split; [apply sublist_inserts_r; reflexivity|]. split; [discriminate|].
  rewrite List.filter_app. cbn. rewrite app_nil_r. reflexivity.
Qed.

Lemma validate_ops_agree (l : list (Z * json)) (palette_size frame_idx : Z)
    (e e' : list ValidationError) (d : list string) :
  strict_extends e e' ->
  match fold_m (fun '(errors, defined_layers) '(op_idx, op) =>
                  let* op_errors :=
                    validate_op op op_idx palette_size defined_layers frame_idx false in
                  let* d := defines_layer op in
                  Ok ((errors ++ op_errors)%list,
                      match d with
                      | Some s => if bool_decide (s ∈ defined_layers) then defined_layers
                                  else (defined_layers ++ [s])%list
                      | None => defined_layers
                      end)) l (e, d),
        fold_m (fun '(errors, defined_layers) '(op_idx, op) =>
                  let* op_errors :=
                    validate_op op op_idx palette_size defined_layers frame_idx true in
                  let* d := defines_layer op in
                  Ok ((errors ++ op_errors)%list,
                      match d with
                      | Some s => if bool_decide (s ∈ defined_layers) then defined_layers
                                  else (defined_layers ++ [s])%list
                      | None => defined_layers
                      end)) l (e', d) with
  | Ok r, Ok r' => strict_extends r.1 r'.1
  | Fail f, Fail g => f = g
  | _, _ => False
  end.
Proof.
  revert e e' d. induction l as [|[op_idx op] l IH]; intros e e' d He; cbn [fold_m].
  - exact He.
  - pose proof (validate_op_agree op op_idx palette_size d frame_idx) as Hop.
    destruct (validate_op op op_idx palette_size d frame_idx false) as [ef|f];
      destruct (validate_op op op_idx palette_size d frame_idx true) as [et|g];
      cbn in Hop; try contradiction; cbn [Py.bind]; [|exact Hop].
    destruct (defines_layer op) as [dl|f]; cbn [Py.bind]; [|reflexivity].
    apply IH. apply strict_extends_app; assumption.
Qed.

Lemma validate_frame_agree (frame : json) (frame_idx palette_size : Z) :
  outcomes_agree (validate_frame frame frame_idx palette_size false)
                 (validate_frame frame frame_idx palette_size true).
Proof.
  unfold validate_frame.
  destruct (PyVal.contains "base" frame) as [[|]|f]; cbn [Py.bind];
    [apply outcomes_agree_refl| |reflexivity].
  destruct (PyVal.contains "ops" frame) as [[|]|f]; cbn [Py.bind negb];
    [|apply strict_extends_refl|reflexivity].
  destruct (PyVal.getitem frame "ops") as [ops|f]; cbn [Py.bind]; [|reflexivity].
  destruct ops as [| | | | |l|]; try apply strict_extends_refl.
  pose proof (validate_ops_agree (enumerate l) palette_size frame_idx [] [] ["base"]
                (strict_extends_refl [])) as H.
  destruct (fold_m _ (enumerate l) ([], ["base"])) as [r|f];
    destruct (fold_m _ (enumerate l) ([], ["base"])) as [r'|g];
    try contradiction; cbn [Py.bind]; exact H.
Qed.

Lemma validate_frames_agree (l : list (Z * json)) (palette_size : Z)
    (e e' : list ValidationError) :
  strict_extends e e' ->
  outcomes_agree
    (fold_m (fun errors '(frame_idx, frame) =>
               let* frame_errors := validate_frame frame frame_idx palette_size false in
               Ok (errors ++ frame_errors)%list) l e)
    (fold_m (fun errors '(frame_idx, frame) =>
               let* frame_errors := validate_frame frame frame_idx palette_size true in
               Ok (errors ++ frame_errors)%list) l e').
Proof.
  revert e e'. induction l as [|[frame_idx frame] l IH]; intros e e' He; cbn [fold_m].
  - exact He.
  - pose proof (validate_frame_agree frame frame_idx palette_size) as Hfr.
    destruct (validate_frame frame frame_idx palette_size false) as [ef|f];
      destruct (validate_frame frame frame_idx palette_size true) as [et|g];
      cbn in Hfr; try contradiction; cbn [Py.bind]; [|exact Hfr].
    apply IH. apply strict_extends_app; assumption.
Qed.

Lemma check_frames_agree (data : json) :
  outcomes_agree (check_frames data false) (check_frames data true).
Proof.
  unfold check_frames.
  destruct (PyVal.contains "frames" data) as [[|]|f]; cbn [Py.bind negb];
    [|apply strict_extends_refl|reflexivity].
  destruct (PyVal.getitem data "frames") as [frames|f]; cbn [Py.bind]; [|reflexivity].
  destruct frames as [| | | | |[|fr l]|]; try apply strict_extends_refl.
  destruct (len_or_empty data "palette") as [palette_size|f]; cbn [Py.bind]; [|reflexivity].
  apply validate_frames_agree, strict_extends_refl.
Qed.

(** X: strict validation never changes the verdict. On any document the
    strict and the lenient run raise the same exception or both return;
    the strict diagnostics are the lenient ones with seed diagnostics put
    in, and one is empty exactly when the other is: the seed check only
    fires for a [noise_points] that already has too few arguments. *)
Theorem strict_validation_same_verdict (data : json) :
  outcomes_agree (validate_sprite data false) (validate_sprite data true)
  /\ (validate_sprite data true = Ok [] <-> validate_sprite data false = Ok []).
Proof.
  assert (H : outcomes_agree (validate_sprite data false) (validate_sprite data true)).
  { unfold validate_sprite.
    destruct (PyVal.dict_get data "format") as [fmt|f]; cbn [Py.bind]; [|reflexivity].
    destruct (check_canvas data) as [e2|f]; cbn [Py.bind]; [|reflexivity].
    destruct (check_palette data) as [e3|f]; cbn [Py.bind]; [|reflexivity].
    pose proof (check_frames_agree data) as H4.
    destruct (check_frames data false) as [e4|f]; destruct (check_frames data true) as [e4'|g];
      cbn in H4; try contradiction; cbn [Py.bind]; [|exact H4].
    destruct (check_animations data) as [e5|f]; cbn [Py.bind]; [|reflexivity].
    repeat (apply strict_extends_app; try apply strict_extends_refl). exact H4. }
  split; [exact H|].
  destruct (validate_sprite data false) as [ef|f]; destruct (validate_sprite data true) as [et|g];
    cbn in H; try contradiction.
  - apply strict_extends_nil in H. split; intros [= E]; f_equal; apply H; exact E.
  - split; discriminate.
Qed.

(** ** What an accepted op looks like *)

Lemma flat_map_nil {A B} (f : A -> list B) (l : list A) :
  flat_map f l = [] -> forall x, x ∈ l -> f x = [].
Proof.
  induction l as [|a l IH]; cbn [flat_map]; intros H x Hx; [inversion Hx|].
  apply app_eq_nil in H as [Ha Hl].
  apply elem_of_cons in Hx as [->|Hx]; [exact Ha|apply IH; assumption].
Qed.

Lemma elem_of_validate_enumerate {A} (l : list A) (i : nat) (x : A) :
  l !! i = Some x -> (Z.of_nat i, x) ∈ Validate.enumerate l.
Proof.
  intros H. unfold Validate.enumerate. apply list_elem_of_lookup. exists i.
  apply lookup_zip_with_Some. exists (Z.of_nat i), x. split; [reflexivity|].
  split; [|exact H]. apply lookup_seqZ. apply lookup_lt_Some in H. lia.
Qed.



(** ** The op table and the interpreter *)

Lemma assoc_None_cons {A} (k k' : string) (v : A) (l : list (string * A)) :
  Ops.assoc k ((k', v) :: l) = None -> String.eqb k k' = false /\ Ops.assoc k l = None.
Proof. cbn. destruct (String.eqb k k'); [discriminate|auto]. Qed.

(** X: an op whose name is not in the op table is not one the
    interpreter knows: whatever the state and the arguments, it raises
    the unknown-op error. *)
Theorem op_outside_table_raises_unknown (w h : Z) (st : state) (op_name : string)
    (args : list json) :
  Ops.get_op_spec op_name = None ->
  step w h st (JList (JStr op_name :: args)) = Fail (Exn (UnknownOp (JStr op_name))).
Proof.
  unfold Ops.get_op_spec. intros H.
  let table := eval cbv in Ops.OP_SPECS in change Ops.OP_SPECS with table in H.
  repeat (apply assoc_None_cons in H as [? H]).
  unfold step. cbn [arg PyVal.item PyVal.get PyVal.index length Py.bind].
  change (PyVal.get (JStr op_name :: args) 0) with (Ok (A := json) (JStr op_name)).
  cbn [Py.bind PyVal.json_eqb]. cbv zeta.
  repeat match goal with
         | E : String.eqb op_name ?s = false |- context [String.eqb op_name ?s] => rewrite E
         end.
  reflexivity.
Qed.

Lemma op_outside_table_raises_unknown_witness :
  step 1 1 (initial 1 1) (JList [JStr "circle"; JInt 1])
  = Fail (Exn (UnknownOp (JStr "circle"))).
Proof. apply (op_outside_table_raises_unknown 1 1 (initial 1 1) "circle" [JInt 1]). reflexivity. Defined.

(** ** hex_to_rgba *)

Lemma reads_hex_byte_all :
  forallb (fun n1 => forallb (fun n2 => reads_hex_byte (ascii_of_nat n1) (ascii_of_nat n2))
                             (seq 0 256)) (seq 0 256) = true.
Proof. vm_compute. reflexivity. Qed.

Lemma reads_hex_byte_any (c1 c2 : ascii) : reads_hex_byte c1 c2 = true.
Proof.
  pose proof reads_hex_byte_all as H. rewrite forallb_forall in H.
  specialize (H (nat_of_ascii c1)). rewrite forallb_forall in H.
  specialize (H ltac:(apply in_seq; pose proof (nat_ascii_bounded c1); lia) (nat_of_ascii c2)
                ltac:(apply in_seq; pose proof (nat_ascii_bounded c2); lia)).
  rewrite !ascii_nat_embedding in H. exact H.
Qed.

Lemma int_base16_byte (c1 c2 : ascii) :
  is_Some (hex_digit c1) -> is_Some (hex_digit c2) ->
  int_base16 [c1; c2] = Ok (hex_byte c1 c2) /\ 0 <= hex_byte c1 c2 <= 255.
Proof.
  intros [d1 H1] [d2 H2]. pose proof (reads_hex_byte_any c1 c2) as H.
  unfold reads_hex_byte in H. rewrite H1, H2 in H.
  destruct (int_base16 [c1; c2]) as [z|]; [|discriminate].
  apply andb_true_iff in H as [H Hhi]. apply andb_true_iff in H as [He Hlo].
  apply Z.eqb_eq in He. subst z. split; [reflexivity|lia].
Qed.

Lemma hex_digit_not_hash (c : ascii) : is_Some (hex_digit c) -> Ascii.eqb c "#"%char = false.
Proof.
  intros [d H]. destruct (Ascii.eqb_spec c "#"%char) as [->|]; [|reflexivity].
  vm_compute in H. discriminate.
Qed.

Lemma lstrip_hash_hashes (k : nat) (body : list ascii) :
  lstrip_hash (replicate k "#"%char ++ body) = lstrip_hash body.
Proof. induction k as [|k IH]; [reflexivity|]. cbn. exact IH. Qed.

Lemma hex_to_rgba_body (k : nat) (body : list ascii) :
  lstrip_hash body = body ->
  lstrip_hash (list_ascii_of_string (colour_string k body)) = body.
Proof.
  intros H. unfold colour_string. rewrite list_ascii_of_string_of_list_ascii.
  rewrite lstrip_hash_hashes. exact H.
Qed.

(** X: a colour written as any number of [#] followed by six
    hexadecimal digits decodes to its three channels, each
    [16 * high + low] and so in [0, 255], with alpha 255; with eight
    digits the fourth pair is the alpha. Upper and lower case digits are
    both read. *)
Theorem hex_to_rgba_decodes (k : nat) (c1 c2 c3 c4 c5 c6 c7 c8 : ascii) :
  Forall (fun c => is_Some (hex_digit c)) [c1; c2; c3; c4; c5; c6] ->
  (hex_to_rgba (colour_string k [c1; c2; c3; c4; c5; c6])
   = Ok (hex_byte c1 c2, hex_byte c3 c4, hex_byte c5 c6, 255)
   /\ 0 <= hex_byte c1 c2 <= 255 /\ 0 <= hex_byte c3 c4 <= 255 /\ 0 <= hex_byte c5 c6 <= 255)
  /\ (is_Some (hex_digit c7) -> is_Some (hex_digit c8) ->
      hex_to_rgba (colour_string k [c1; c2; c3; c4; c5; c6; c7; c8])
      = Ok (hex_byte c1 c2, hex_byte c3 c4, hex_byte c5 c6, hex_byte c7 c8)
      /\ 0 <= hex_byte c7 c8 <= 255).
Proof.
  intros H.
  apply Forall_cons in H as [H1 H]. apply Forall_cons in H as [H2 H].
  apply Forall_cons in H as [H3 H]. apply Forall_cons in H as [H4 H].
  apply Forall_cons in H as [H5 H]. apply Forall_cons in H as [H6 _].
  destruct (int_base16_byte c1 c2 H1 H2) as [E12 B12].
  destruct (int_base16_byte c3 c4 H3 H4) as [E34 B34].
  destruct (int_base16_byte c5 c6 H5 H6) as [E56 B56].
  split.
  - split; [|auto]. unfold hex_to_rgba.
    rewrite hex_to_rgba_body by (cbn [lstrip_hash]; rewrite hex_digit_not_hash by exact H1;
                                 reflexivity).
    cbn [length Nat.eqb PyVal.slice drop take Nat.sub].
    rewrite E12, E34, E56. reflexivity.
  - intros H7 H8. destruct (int_base16_byte c7 c8 H7 H8) as [E78 B78].
    split; [|exact B78]. unfold hex_to_rgba.
    rewrite hex_to_rgba_body by (cbn [lstrip_hash]; rewrite hex_digit_not_hash by exact H1;
                                 reflexivity).
    cbn [length Nat.eqb PyVal.slice drop take Nat.sub].
    rewrite E12, E34, E56, E78. reflexivity.
Qed.

Lemma hex_to_rgba_decodes_witness :
  (hex_to_rgba (colour_string 1 ["f"; "F"; "0"; "a"; "1"; "0"]%char)
   = Ok (hex_byte "f" "F", hex_byte "0" "a", hex_byte "1" "0", 255)
   /\ 0 <= hex_byte "f" "F" <= 255 /\ 0 <= hex_byte "0" "a" <= 255
   /\ 0 <= hex_byte "1" "0" <= 255)
  /\ (is_Some (hex_digit "8") -> is_Some (hex_digit "0") ->
      hex_to_rgba (colour_string 1 ["f"; "F"; "0"; "a"; "1"; "0"; "8"; "0"]%char)
      = Ok (hex_byte "f" "F", hex_byte "0" "a", hex_byte "1" "0", hex_byte "8" "0")
      /\ 0 <= hex_byte "8" "0" <= 255).
Proof.
  apply (hex_to_rgba_decodes 1 "f" "F" "0" "a" "1" "0" "8" "0").
  repeat (constructor; [vm_compute; eauto|]). constructor.
Defined.

(** X: a colour whose text after the leading [#] characters has
    neither six nor eight characters raises [ValueError]; so does the
    empty string and the short form [#rgb]. *)
Theorem hex_to_rgba_bad_length (k : nat) (body : list ascii) :
  lstrip_hash body = body ->
  length body <> 6%nat -> length body <> 8%nat ->
  hex_to_rgba (colour_string k body) = Fail (Exn ValueError).
Proof.
  intros Hbody H6 H8. unfold hex_to_rgba. rewrite hex_to_rgba_body by exact Hbody.
  destruct (Nat.eqb_spec (length body) 8); [contradiction|].
  destruct (Nat.eqb_spec (length body) 6); [contradiction|]. reflexivity.
Qed.

Lemma hex_to_rgba_bad_length_witness :
  hex_to_rgba (colour_string 1 ["f"; "0"; "0"]%char) = Fail (Exn ValueError).
Proof.
  apply (hex_to_rgba_bad_length 1 ["f"; "0"; "0"]%char); [reflexivity|cbn; lia|cbn; lia].
Defined.

(** ** inset_fill_on_mask *)

(** X: with a mask of the canvas size, [inset_fill_on_mask] on a buffer
    of the canvas size returns and sets exactly the pixels of the
    rectangle shrunk by [inset] on every side, clipped to the canvas,
    where the mask is not zero; an inset of half the size or more paints
    nothing. *)
Theorem inset_fill_paints_masked_rectangle (mask : list Z) (w h c x y rw rh inset : Z)
    (buf : list Z) :
  length mask = Z.to_nat (w * h) ->
  length buf = Z.to_nat (w * h) ->
  exists buf',
    run (inset_fill_on_mask mask w h c x y rw rh inset) buf = (Ok tt, buf')
    /\ length buf' = Z.to_nat (w * h)
    /\ forall px py, 0 <= px < w -> 0 <= py < h ->
         buf' !! pixel_index w px py
         = if in_rect (x + inset) (y + inset) (rw - 2 * inset) (rh - 2 * inset) px py
              && negb (mask !!! pixel_index w px py =? 0)
           then Some c else buf !! pixel_index w px py.
Proof.
  intros Hmask. revert buf.
  change (paints_pixels w h c
            (fun px py => in_rect (x + inset) (y + inset) (rw - 2 * inset) (rh - 2 * inset) px py
                          && negb (mask !!! pixel_index w px py =? 0))
            (inset_fill_on_mask mask w h c x y rw rh inset)).
  eapply paints_to_pixels.
  - unfold inset_fill_on_mask.
    apply (paints_grid _ w h c (y + inset) (y + rh - inset - 1 + 1) (x + inset)
             (x + rw - inset - 1 + 1)
             (fun xx yy => negb (mask !!! pixel_index w xx yy =? 0))
             (fun xx yy =>
                let! v := lift (PyVal.get mask (yy * w + xx)) in
                if negb (v =? 0) then store (yy * w + xx) c else skip)).
    intros xx yy Hx Hy. pose proof (pixel_index_bound w h xx yy Hx Hy) as Hb.
    intros m Hm. rewrite bind_run. unfold lift. rewrite get_in_range by lia.
    apply (paints_cell w h c (negb (mask !!! pixel_index w xx yy =? 0)) xx yy Hx Hy m Hm).
  - intros px py Hx Hy. cbv beta. rewrite (grid_pixel w h) by assumption.
    unfold in_rect.
    destruct (Z.leb_spec (x + inset) px), (Z.ltb_spec px (x + rw - inset - 1 + 1)),
      (Z.leb_spec (y + inset) py), (Z.ltb_spec py (y + rh - inset - 1 + 1)),
      (Z.ltb_spec px (x + inset + (rw - 2 * inset))),
      (Z.ltb_spec py (y + inset + (rh - 2 * inset))); cbn [andb]; try reflexivity; lia.
Qed.

Lemma inset_fill_paints_masked_rectangle_witness :
  exists buf',
    run (inset_fill_on_mask [1; 1; 0; 1; 1; 1] 3 2 7 0 0 3 2 0) [0; 0; 0; 0; 0; 0] = (Ok tt, buf')
    /\ length buf' = Z.to_nat (3 * 2)
    /\ forall px py, 0 <= px < 3 -> 0 <= py < 2 ->
         buf' !! pixel_index 3 px py
         = if in_rect (0 + 0) (0 + 0) (3 - 2 * 0) (2 - 2 * 0) px py
              && negb ([1; 1; 0; 1; 1; 1] !!! pixel_index 3 px py =? 0)
           then Some 7 else [0; 0; 0; 0; 0; 0] !! pixel_index 3 px py.
Proof.
  apply (inset_fill_paints_masked_rectangle [1; 1; 0; 1; 1; 1] 3 2 7 0 0 3 2 0
           [0; 0; 0; 0; 0; 0]); reflexivity.
Defined.

(** ** Drawing ops touch the current layer only *)

Lemma only_current_changed_refl (st : state) : only_current_changed st st.
Proof. split; [reflexivity|]. split; [reflexivity|]. left. reflexivity. Qed.

Lemma draw_only_current (w h : Z) (st st' : state) (prim : M unit) :
  draw st w h prim = Ok st' -> only_current_changed st st'.
Proof.
  unfold draw, ensure_layer. intros H.
  destruct (layers st !! current st) as [buf|] eqn:Hcur.
  - destruct (exec prim buf) as [buf'|]; cbn [Py.bind] in H; [|discriminate].
    injection H as <-. cbn [current layers layer_order].
    split; [reflexivity|]. split; [|left; reflexivity].
    intros n Hn. apply lookup_insert_ne. congruence.
  - destruct (exec prim (filled 0 w h)) as [buf'|]; cbn [Py.bind] in H; [|discriminate].
    injection H as <-. cbn [current layers layer_order].
    split; [reflexivity|]. split; [|right; auto].
    intros n Hn.
    etransitivity; [apply lookup_insert_ne; congruence|].
    etransitivity; [apply lookup_insert_ne; congruence|reflexivity].
Qed.



(** ** Outlines: the dilation *)

Lemma fold_m_range_invariant {St} (n : Z) (f : St -> Z -> outcome St) (I : Z -> St -> Prop)
    (s : St) :
  0 <= n -> I 0 s ->
  (forall i s, 0 <= i < n -> I i s -> exists s', f s i = Ok s' /\ I (i + 1) s') ->
  exists s', fold_m f (range 0 n) s = Ok s' /\ I n s'.
Proof.
  intros Hn H0 Hstep.
  assert (G : forall (k : nat) (a : Z) (s : St),
             0 <= a -> a + Z.of_nat k = n -> I a s ->
             exists s', fold_m f (seqZ a (Z.of_nat k)) s = Ok s' /\ I n s').
  { induction k as [|k IH]; intros a s1 Ha Hk Hi.
    - exists s1. replace a with n in Hi by lia. split; [reflexivity|exact Hi].
    - rewrite seqZ_cons by lia. cbn [fold_m].
      destruct (Hstep a s1 ltac:(lia) Hi) as (s2 & -> & Hi2). cbn [Py.bind].
      replace (Z.pred (Z.of_nat (S k))) with (Z.of_nat k) by lia.
      apply IH; [lia|lia|exact Hi2]. }
  unfold range. replace (n - 0) with (Z.of_nat (Z.to_nat n)) by lia.
  apply G; [lia|lia|exact H0].
Qed.


Lemma fold_M_range_invariant {St} (n : Z) (body : St -> Z -> M St)
    (I : Z -> St -> mem -> Prop) (s : St) (m : mem) :
  0 <= n -> I 0 s m ->
  (forall i s m, 0 <= i < n -> I i s m ->
     exists s' m', body s i m = (Ok s', m') /\ I (i + 1) s' m') ->
  exists s' m', fold_M (range 0 n) body s m = (Ok s', m') /\ I n s' m'.
Proof.
  intros Hn H0 Hstep.
  assert (G : forall (k : nat) (a : Z) (s : St) (m : mem),
             0 <= a -> a + Z.of_nat k = n -> I a s m ->
             exists s' m', fold_M (seqZ a (Z.of_nat k)) body s m = (Ok s', m') /\ I n s' m').
  { induction k as [|k IH]; intros a s1 m1 Ha Hk Hi.
    - exists s1, m1. replace a with n in Hi by lia. split; [reflexivity|exact Hi].
    - rewrite seqZ_cons by lia. cbn [fold_M]. rewrite bind_run.
      destruct (Hstep a s1 m1 ltac:(lia) Hi) as (s2 & m2 & -> & Hi2).
      replace (Z.pred (Z.of_nat (S k))) with (Z.of_nat k) by lia.
      apply IH; [lia|lia|exact Hi2]. }
  unfold range. replace (n - 0) with (Z.of_nat (Z.to_nat n)) by lia.
  apply G; [lia|lia|exact H0].
Qed.

Lemma reached_covers (w h : Z) (n : nat) (f : Z -> Z -> bool) (x y : Z) :
  f x y = true -> reached w h n f x y = true.
Proof.
  revert x y. induction n as [|n IH]; intros x y H; cbn [reached]; [exact H|].
  unfold spread. rewrite IH by exact H. reflexivity.
Qed.

Lemma spread_ext (w h : Z) (f g : Z -> Z -> bool) (x y : Z) :
  (forall x y, 0 <= x < w -> 0 <= y < h -> f x y = g x y) ->
  0 <= x < w -> 0 <= y < h ->
  spread w h f x y = spread w h g x y.
Proof.
  intros Hfg Hx Hy. unfold spread. rewrite (Hfg x y Hx Hy). f_equal.
  cbn [existsb]. unfold in_bounds.
  repeat match goal with
  | |- context [(0 <=? ?a) && (?a <? w) && (0 <=? ?b) && (?b <? h) && f ?a ?b] =>
      let E := fresh "E" in
      destruct ((0 <=? a) && (a <? w) && (0 <=? b) && (b <? h)) eqn:E;
      [rewrite (Hfg a b) by lia|]; cbn [andb]
  end; reflexivity.
Qed.

Section Dilation.
Variables w h : Z.
Hypothesis Hw : 0 < w.
Hypothesis Hh : 0 < h.

Lemma touches_spread (work : list Z) (x y : Z) :
  length work = Z.to_nat (w * h) ->
  touches work w h x y
  = Ok (existsb (fun '(dx, dy) =>
                   in_bounds (x + dx) (y + dy) w h && covered w work (x + dx) (y + dy))
          [(1, 0); (-1, 0); (0, 1); (0, -1)]).
Proof.
  intros Hlen. unfold touches, covered, in_bounds.
  cbn [any_m existsb].
  repeat match goal with
  | |- context [(0 <=? ?a) && (?a <? w) && (0 <=? ?b) && (?b <? h)] =>
      let E := fresh "E" in
      destruct ((0 <=? a) && (a <? w) && (0 <=? b) && (b <? h)) eqn:E;
      [rewrite get_in_range
         by (pose proof (pixel_index_bound w h a b ltac:(lia) ltac:(lia)); lia);
       cbn [Py.bind andb];
       change (Z.to_nat (b * w + a)) with (pixel_index w a b);
       destruct (negb (work !!! pixel_index w a b =? 0)); cbn [orb]; [reflexivity|]
      |cbn [Py.bind andb orb]]
  end; reflexivity.
Qed.

Lemma dilation_pass_newly (work : list Z) :
  length work = Z.to_nat (w * h) ->
  exists add,
    dilation_pass work w h = Ok add
    /\ forall x y, 0 <= x < w -> 0 <= y < h ->
         (y * w + x ∈ add <-> newly w h work x y = true).
Proof.
  intros Hlen. unfold dilation_pass.
  destruct (fold_m_range_invariant h
              (fun add y =>
                 fold_m (fun add x =>
                           let idx := y * w + x in
                           let* v := PyVal.get work idx in
                           if negb (v =? 0) then Ok add
                           else
                             let* touch := touches work w h x y in
                             if (touch : bool) then Ok (add ++ [idx])%list else Ok add)
                        (range 0 w) add)
              (fun y0 add =>
                 forall x y, 0 <= x < w -> 0 <= y < h ->
                   (y * w + x ∈ add <-> y < y0 /\ newly w h work x y = true))
              []) as (add & Hr & Hi); [lia| | |].
  - intros x y Hx Hy. split; [intros H; inversion H|lia].
  - intros y0 add0 Hy0 Hi0.
    destruct (fold_m_range_invariant w
                (fun add x =>
                   let idx := y0 * w + x in
                   let* v := PyVal.get work idx in
                   if negb (v =? 0) then Ok add
                   else
                     let* touch := touches work w h x y0 in
                     if (touch : bool) then Ok (add ++ [idx])%list else Ok add)
                (fun x0 add =>
                   forall x y, 0 <= x < w -> 0 <= y < h ->
                     (y * w + x ∈ add
                      <-> (y < y0 \/ (y = y0 /\ x < x0)) /\ newly w h work x y = true))
                add0) as (add1 & Hr1 & Hi1); [lia| | |].
    + intros x y Hx Hy. rewrite Hi0 by assumption. intuition lia.
    + intros x0 add2 Hx0 Hi2. cbv zeta.
      pose proof (pixel_index_bound w h x0 y0 Hx0 Hy0) as Hb.
      rewrite get_in_range by lia. cbn [Py.bind].
      rewrite touches_spread by exact Hlen. cbn [Py.bind].
      assert (Hnew : newly w h work x0 y0
                     = (work !!! Z.to_nat (y0 * w + x0) =? 0)
                       && existsb (fun '(dx, dy) =>
                                     in_bounds (x0 + dx) (y0 + dy) w h
                                     && covered w work (x0 + dx) (y0 + dy))
                            [(1, 0); (-1, 0); (0, 1); (0, -1)]).
      { unfold newly, spread, covered at 1 2, pixel_index.
        destruct (work !!! Z.to_nat (y0 * w + x0) =? 0); reflexivity. }
      assert (Hkeep : forall add3 : list Z,
                (forall i : Z, i ∈ add3 <-> i ∈ add2
                                        \/ (i = y0 * w + x0 /\ newly w h work x0 y0 = true)) ->
                forall x y, 0 <= x < w -> 0 <= y < h ->
                  (y * w + x ∈ add3
                   <-> (y < y0 \/ (y = y0 /\ x < x0 + 1)) /\ newly w h work x y = true)).
      { intros add3 Hadd3 x y Hx Hy. rewrite Hadd3, Hi2 by assumption. split.
        - intros [[Hpos Hn]|[He Hn]]; [split; [lia|exact Hn]|].
          assert (y = y0) by nia. subst y. assert (x = x0) by lia. subst x.
          split; [lia|exact Hn].
        - intros [Hpos Hn].
          destruct (Z.eq_dec x x0) as [->|Hne]; [destruct (Z.eq_dec y y0) as [->|Hne]|].
          + right. auto.
          + left. split; [lia|exact Hn].
          + left. split; [lia|exact Hn]. }
      destruct (work !!! Z.to_nat (y0 * w + x0) =? 0) eqn:Hv; cbn [negb andb] in *.
      * destruct (existsb _ _) eqn:Ht.
        -- eexists. split; [reflexivity|]. apply Hkeep. intros i.
           rewrite elem_of_app, list_elem_of_singleton. intuition.
        -- eexists. split; [reflexivity|]. apply Hkeep. intros i.
           rewrite Hnew. intuition discriminate.
      * eexists. split; [reflexivity|]. apply Hkeep. intros i.
        rewrite Hnew. intuition discriminate.
    + exists add1. split; [exact Hr1|]. intros x y Hx Hy. rewrite Hi1 by assumption.
      intuition lia.
  - exists add. split; [exact Hr|]. intros x y Hx Hy. rewrite Hi by assumption.
    intuition lia.
Qed.

Lemma store_loop (c : Z) (add work : list Z) (m : mem) :
  Forall (inside w h) add ->
  length (cells m) = Z.to_nat (w * h) ->
  length work = Z.to_nat (w * h) ->
  exists m',
    fold_M add (fun work idx => store idx c ;;; lift (PyVal.set work idx 1)) work m
    = (Ok (paint 1 add work), m')
    /\ cells m' = paint c add (cells m).
Proof.
  revert work m. induction add as [|idx add IH]; intros work m Hadd Hm Hwork; cbn [fold_M].
  - exists m. split; reflexivity.
  - apply Forall_cons in Hadd as [Hidx Hadd]. unfold inside in Hidx.
    rewrite !bind_run. unfold store. rewrite set_in_range by lia.
    unfold lift. rewrite set_in_range by lia.
    destruct (IH (<[Z.to_nat idx := 1]> work)
                 (Mem (<[Z.to_nat idx := c]> (cells m)) (idx :: writes m)) Hadd)
      as (m' & Hr & Hc); cbn [cells]; [rewrite length_insert; exact Hm
                                      |rewrite length_insert; exact Hwork|].
    exists m'. split; [exact Hr|exact Hc].
Qed.

(** One round: the pixels that become covered are painted, and the work
    mask covers them afterwards. *)
Lemma dilation_round (c : Z) (work : list Z) (m : mem) :
  length (cells m) = Z.to_nat (w * h) ->
  length work = Z.to_nat (w * h) ->
  exists work' m',
    (let! add := lift (dilation_pass work w h) in
     fold_M add (fun work idx => store idx c ;;; lift (PyVal.set work idx 1)) work) m
    = (Ok work', m')
    /\ length (cells m') = Z.to_nat (w * h)
    /\ length work' = Z.to_nat (w * h)
    /\ forall x y, 0 <= x < w -> 0 <= y < h ->
         covered w work' x y = spread w h (covered w work) x y
         /\ cells m' !! pixel_index w x y
            = if newly w h work x y then Some c else cells m !! pixel_index w x y.
Proof.
  intros Hm Hwork. rewrite bind_run.
  change (lift (dilation_pass work w h) m) with (dilation_pass work w h, m).
  destruct (dilation_pass_newly work Hwork) as (add & Hpass & Hin). rewrite Hpass.
  pose proof (dilation_pass_inside w h work add Hpass) as Hadd.
  destruct (store_loop c add work m Hadd Hm Hwork) as (m' & -> & Hc).
  exists (paint 1 add work), m'. split; [reflexivity|].
  split; [rewrite Hc, paint_length; exact Hm|]. split; [rewrite paint_length; exact Hwork|].
  assert (Hpos : Forall (fun i => 0 <= i) add).
  { eapply Forall_impl; [exact Hadd|]. intros i Hi. unfold inside in Hi. lia. }
  intros x y Hx Hy. pose proof (pixel_index_bound w h x y Hx Hy) as Hb.
  assert (Hidx : Z.of_nat (pixel_index w x y) = y * w + x) by (unfold pixel_index; lia).
  specialize (Hin x y Hx Hy).
  split.
  - unfold covered at 1.
    assert (Hl : paint 1 add work !! pixel_index w x y
                 = Some (paint 1 add work !!! pixel_index w x y)).
    { apply list_lookup_lookup_total_lt. rewrite paint_length. unfold pixel_index. lia. }
    rewrite paint_lookup in Hl by exact Hpos. rewrite Hidx in Hl.
    assert (Hw0 : work !! pixel_index w x y = Some (work !!! pixel_index w x y)).
    { apply list_lookup_lookup_total_lt. unfold pixel_index. lia. }
    rewrite Hw0 in Hl. cbn in Hl.
    destruct (decide (y * w + x ∈ add)) as [Hi|Hi].
    + injection Hl as <-. apply Hin in Hi. unfold newly in Hi.
      apply andb_true_iff in Hi as [_ Hi]. rewrite Hi. reflexivity.
    + injection Hl as <-. fold (covered w work x y).
      destruct (newly w h work x y) eqn:Hn; [exfalso; apply Hi, Hin; reflexivity|].
      unfold newly in Hn. unfold spread in *.
      destruct (covered w work x y); [reflexivity|]. cbn [negb andb orb] in *. congruence.
  - rewrite Hc, paint_lookup by exact Hpos. rewrite Hidx.
    assert (Hc0 : cells m !! pixel_index w x y = Some (cells m !!! pixel_index w x y)).
    { apply list_lookup_lookup_total_lt. unfold pixel_index. lia. }
    destruct (decide (y * w + x ∈ add)) as [Hi|Hi].
    + apply Hin in Hi. rewrite Hi, Hc0. reflexivity.
    + destruct (newly w h work x y); [exfalso; apply Hi, Hin; reflexivity|reflexivity].
Qed.

Lemma dilate_outlines (mask : list Z) (c n : Z) (buf : list Z) :
  length mask = Z.to_nat (w * h) ->
  length buf = Z.to_nat (w * h) ->
  exists buf',
    run (dilate mask w h c n) buf = (Ok tt, buf')
    /\ length buf' = Z.to_nat (w * h)
    /\ forall x y, 0 <= x < w -> 0 <= y < h ->
         buf' !! pixel_index w x y
         = if negb (covered w mask x y) && reached w h (Z.to_nat n) (covered w mask) x y
           then Some c else buf !! pixel_index w x y.
Proof.
  intros Hmask Hbuf. unfold run, dilate. rewrite bind_run.
  destruct (Z.le_gt_cases n 0) as [Hn|Hn].
  { rewrite range_empty by lia. cbn. exists buf. split; [reflexivity|]. split; [exact Hbuf|].
    intros x y Hx Hy. replace (Z.to_nat n) with 0%nat by lia. cbn [reached].
    destruct (covered w mask x y); reflexivity. }
  destruct (fold_M_range_invariant n
              (fun work _ =>
                 let! add := lift (dilation_pass work w h) in
                 fold_M add (fun work idx => store idx c ;;; lift (PyVal.set work idx 1)) work)
              (fun k work m =>
                 length (cells m) = Z.to_nat (w * h)
                 /\ length work = Z.to_nat (w * h)
                 /\ forall x y, 0 <= x < w -> 0 <= y < h ->
                      covered w work x y = reached w h (Z.to_nat k) (covered w mask) x y
                      /\ cells m !! pixel_index w x y
                         = if negb (covered w mask x y)
                              && reached w h (Z.to_nat k) (covered w mask) x y
                           then Some c else buf !! pixel_index w x y)
              mask (Mem buf [])) as (work' & m' & -> & Hl & _ & Hpix); [lia| | |].
  - split; [exact Hbuf|]. split; [exact Hmask|]. intros x y Hx Hy.
    change (Z.to_nat 0) with 0%nat. cbn [reached cells].
    split; [reflexivity|]. destruct (covered w mask x y); reflexivity.
  - intros k work m Hk (Hm & Hwork & Hinv).
    destruct (dilation_round c work m Hm Hwork) as (work' & m' & Hr & Hm' & Hwork' & Hstep).
    exists work', m'. split; [exact Hr|]. split; [exact Hm'|]. split; [exact Hwork'|].
    intros x y Hx Hy. destruct (Hstep x y Hx Hy) as [Hcov Hcell].
    replace (Z.to_nat (k + 1)) with (S (Z.to_nat k)) by lia. cbn [reached].
    assert (Hsp : spread w h (covered w work) x y
                  = spread w h (reached w h (Z.to_nat k) (covered w mask)) x y).
    { apply spread_ext; [|exact Hx|exact Hy]. intros x' y' Hx' Hy'. apply Hinv; assumption. }
    split; [rewrite Hcov; exact Hsp|].
    rewrite Hcell. unfold newly. rewrite Hsp.
    destruct (Hinv x y Hx Hy) as [Hc0 ->]. rewrite Hc0.
    pose proof (reached_covers w h (Z.to_nat k) (covered w mask) x y) as Hmono.
    unfold spread.
    destruct (covered w mask x y); [rewrite Hmono by reflexivity; reflexivity|].
    destruct (reached w h (Z.to_nat k) (covered w mask) x y); cbn [negb andb orb]; reflexivity.
  - cbn. exists (cells m'). split; [reflexivity|]. split; [exact Hl|].
    intros x y Hx Hy. apply Hpix; assumption.
Qed.

End Dilation.

Lemma reached_ext (w h : Z) (n : nat) (f g : Z -> Z -> bool) (x y : Z) :
  (forall x y, 0 <= x < w -> 0 <= y < h -> f x y = g x y) ->
  0 <= x < w -> 0 <= y < h ->
  reached w h n f x y = reached w h n g x y.
Proof.
  intros Hfg. revert x y. induction n as [|n IH]; intros x y Hx Hy; cbn [reached].
  - apply Hfg; assumption.
  - apply spread_ext; [exact IH|exact Hx|exact Hy].
Qed.

(** X: with a mask and a buffer of the canvas size, [outline_from_mask]
    returns and sets to the outline colour exactly the pixels that the
    mask does not cover and that are within [thickness] steps, through
    4-neighbours on the canvas, of a pixel it covers. Pixels the mask
    covers are never changed, and a thickness of zero or less changes
    nothing. *)
Theorem outline_from_mask_paints_ring (w h : Z) (mask : list Z) (c n : Z) (buf : list Z) :
  0 < w -> 0 < h ->
  length mask = Z.to_nat (w * h) ->
  length buf = Z.to_nat (w * h) ->
  exists buf',
    run (outline_from_mask mask w h c n) buf = (Ok tt, buf')
    /\ length buf' = Z.to_nat (w * h)
    /\ forall x y, 0 <= x < w -> 0 <= y < h ->
         buf' !! pixel_index w x y
         = if negb (covered w mask x y) && reached w h (Z.to_nat n) (covered w mask) x y
           then Some c else buf !! pixel_index w x y.
Proof.
  intros Hw Hh Hmask Hbuf. unfold outline_from_mask. apply dilate_outlines; assumption.
Qed.

Lemma outline_from_mask_paints_ring_witness :
  exists buf',
    run (outline_from_mask [0; 0; 1; 0] 4 1 7 1) [0; 0; 5; 0] = (Ok tt, buf')
    /\ length buf' = Z.to_nat (4 * 1)
    /\ forall x y, 0 <= x < 4 -> 0 <= y < 1 ->
         buf' !! pixel_index 4 x y
         = if negb (covered 4 [0; 0; 1; 0] x y)
              && reached 4 1 (Z.to_nat 1) (covered 4 [0; 0; 1; 0]) x y
           then Some 7 else [0; 0; 5; 0] !! pixel_index 4 x y.
Proof.
  apply (outline_from_mask_paints_ring 4 1 [0; 0; 1; 0] 7 1 [0; 0; 5; 0]);
    [lia|lia|reflexivity|reflexivity].
Defined.

(** X: on a buffer of the canvas size [outline_layer] returns and sets
    to the colour exactly the zero pixels within [thickness] steps,
    through 4-neighbours on the canvas, of a non-zero pixel of the buffer
    as it was; non-zero pixels are never changed. *)
Theorem outline_layer_paints_ring (w h n c : Z) (buf : list Z) :
  0 < w -> 0 < h ->
  length buf = Z.to_nat (w * h) ->
  exists buf',
    run (outline_layer w h n c) buf = (Ok tt, buf')
    /\ length buf' = Z.to_nat (w * h)
    /\ forall x y, 0 <= x < w -> 0 <= y < h ->
         buf' !! pixel_index w x y
         = if negb (covered w buf x y) && reached w h (Z.to_nat n) (covered w buf) x y
           then Some c else buf !! pixel_index w x y.
Proof.
  intros Hw Hh Hbuf.
  set (mask := (fun v => if negb (v =? 0) then 1 else 0) <$> buf).
  assert (Hmask : length mask = Z.to_nat (w * h)) by (subst mask; rewrite length_fmap; exact Hbuf).
  destruct (dilate_outlines w h Hw Hh mask c n buf Hmask Hbuf) as (buf' & Hr & Hl & Hpix).
  exists buf'. split; [exact Hr|]. split; [exact Hl|].
  assert (Hcov : forall x y, 0 <= x < w -> 0 <= y < h -> covered w mask x y = covered w buf x y).
  { intros x y Hx Hy. unfold covered. pose proof (pixel_index_bound w h x y Hx Hy) as Hb.
    assert (Hv : buf !! pixel_index w x y = Some (buf !!! pixel_index w x y)).
    { apply list_lookup_lookup_total_lt. unfold pixel_index. lia. }
    rewrite (list_lookup_total_correct mask (pixel_index w x y)
               (if negb (buf !!! pixel_index w x y =? 0) then 1 else 0))
      by (subst mask; rewrite list_lookup_fmap, Hv; reflexivity).
    destruct (buf !!! pixel_index w x y =? 0); reflexivity. }
  intros x y Hx Hy. rewrite Hpix by assumption.
  rewrite (Hcov x y Hx Hy).
  rewrite (reached_ext w h (Z.to_nat n) (covered w mask) (covered w buf) x y Hcov Hx Hy).
  reflexivity.
Qed.

Lemma outline_layer_paints_ring_witness :
  exists buf',
    run (outline_layer 4 1 2 7) [0; 0; 0; 5] = (Ok tt, buf')
    /\ length buf' = Z.to_nat (4 * 1)
    /\ forall x y, 0 <= x < 4 -> 0 <= y < 1 ->
         buf' !! pixel_index 4 x y
         = if negb (covered 4 [0; 0; 0; 5] x y)
              && reached 4 1 (Z.to_nat 2) (covered 4 [0; 0; 0; 5]) x y
           then Some 7 else [0; 0; 0; 5] !! pixel_index 4 x y.
Proof.
  apply (outline_layer_paints_ring 4 1 2 7 [0; 0; 0; 5]); [lia|lia|reflexivity].
Defined.
